(** * morph-server: the change tracker of [GitHubAPIBot]

    A shallow embedding of [src/github_bot.py] (the same class is repeated
    verbatim in [src/morph_server.py]): the two path->content dictionaries
    of a tracking session, the classification of paths into added, modified
    and deleted, and the rendering of the patch text and of the summary.

    Python values are modelled as follows.
    - [str] is a sequence of Unicode code points: [list N].
    - [bytes] is [list byte].
    - [dict] is a [gmap], [set] is a [gset]; Python compares both without
      regard to insertion order, and so does Leibniz equality on them.
    - dictionaries are objects: they live in a heap and the attributes
      [initial_files] and [current_files] of the bot hold references.
    - a method is a function from the world (attributes and heap) to an
      outcome: a value and a new world, a raised exception, or divergence.
    - the attributes and the entries are what the annotations say; the
      module [Dyn] embeds the three reporting methods once more for
      attributes and entries of any kind, and the two embeddings agree where
      the annotations hold. *)

From Stdlib Require Import NArith ZArith Ascii String DecimalString.
From Stdlib.Strings Require Import Byte.
From stdpp Require Import gmap strings list fin_maps sorting.

Abbreviation str := (list N).
Abbreviation bytes := (list byte).
Abbreviation dict := (gmap (list N) (list N)).
Abbreviation loc := positive.

(** ** Python built-ins used by the class *)

Module Py.

(** A string literal of the source, as code points. *)
Definition lit (x : string) : str := N_of_ascii <$> list_ascii_of_string x.

Definition LF : N := 10%N.
Definition CR : N := 13%N.

(** Concatenation of strings, also in f-strings, is list append.
    Comparison of [str] ([<=]) is lexicographic on code points. *)
Fixpoint str_leb (a b : str) : bool :=
  match a, b with
  | [], _ => true
  | _ :: _, [] => false
  | x :: a', y :: b' =>
      if (x <? y)%N then true
      else if (x =? y)%N then str_leb a' b'
      else false
  end.

Definition str_le (a b : str) : Prop := str_leb a b = true.

#[global] Instance str_le_dec : RelDecision str_le.
Proof. intros a b. unfold str_le. apply _. Defined.

(** [sorted(s)] for a set of strings: the elements in ascending order.  The
    iteration order of the set is whatever [elements] gives; the sort makes
    the result independent of it. *)
Definition sorted (X : gset str) : list str := merge_sort str_le (elements X).

(** Line boundaries of [str.splitlines]: LF, VT, FF, CR, FS, GS, RS, NEL,
    LINE SEPARATOR, PARAGRAPH SEPARATOR (and CR LF as one boundary). *)
Definition is_linebreak (c : N) : bool :=
  bool_decide (c ∈ [10; 11; 12; 13; 28; 29; 30; 133; 8232; 8233]%N).

(** [s.splitlines(keepends=True)]: every line keeps its terminator; the last
    line has none when [s] does not end with one; no empty line is added
    after a final terminator.  [line] is the line read so far. *)
Fixpoint splitlines_from (line : str) (s : str) : list str :=
  match s with
  | [] => match line with [] => [] | _ => [line] end
  | c :: rest =>
      if is_linebreak c then
        if (c =? CR)%N then
          match rest with
          | c' :: rest' =>
              if (c' =? LF)%N then (line ++ [c; c']) :: splitlines_from [] rest'
              else (line ++ [c]) :: splitlines_from [] rest
          | [] => (line ++ [c]) :: splitlines_from [] rest
          end
        else (line ++ [c]) :: splitlines_from [] rest
      else splitlines_from (line ++ [c]) rest
  end.

Definition splitlines_keepends (s : str) : list str := splitlines_from [] s.

(** White space of [str.isspace], which [str.strip] and [str.rstrip] without
    argument remove. *)
Definition is_whitespace (c : N) : bool :=
  ((9 <=? c) && (c <=? 13) || (28 <=? c) && (c <=? 32)
   || bool_decide (c ∈ [133; 160; 5760; 8232; 8233; 8239; 8287; 12288])
   || (8192 <=? c) && (c <=? 8202))%N.

(** [s.rstrip()]: [s] without its longest suffix of white space. *)
Fixpoint rstrip (s : str) : str :=
  match s with
  | [] => []
  | c :: s' =>
      match rstrip s' with
      | [] => if is_whitespace c then [] else [c]
      | t => c :: t
      end
  end.

(** [sep.join(l)]. *)
Fixpoint join (sep : str) (l : list str) : str :=
  match l with
  | [] => []
  | x :: l' =>
      match l' with
      | [] => x
      | _ :: _ => x ++ sep ++ join sep l'
      end
  end.

(** ['{}'.format(n)] for an integer. *)
Definition format_int (n : Z) : str := lit (NilZero.string_of_int (Z.to_int n)).

(** [b.decode()]: strict UTF-8.  [None] stands for [UnicodeDecodeError]. *)
Definition is_cont (b : N) : bool := ((128 <=? b) && (b <=? 191))%N.

Definition between (lo hi b : N) : bool := ((lo <=? b) && (b <=? hi))%N.

Fixpoint decode_utf8 (bs : list N) : option str :=
  match bs with
  | [] => Some []
  | b0 :: r0 =>
      if (b0 <? 128)%N then cons b0 <$> decode_utf8 r0
      else if between 194 223 b0 then
        match r0 with
        | b1 :: r1 =>
            if is_cont b1
            then cons ((b0 - 192) * 64 + (b1 - 128))%N <$> decode_utf8 r1
            else None
        | _ => None
        end
      else if between 224 239 b0 then
        match r0 with
        | b1 :: b2 :: r2 =>
            let lo := if (b0 =? 224)%N then 160%N else 128%N in
            let hi := if (b0 =? 237)%N then 159%N else 191%N in
            if between lo hi b1 && is_cont b2
            then cons ((b0 - 224) * 4096 + (b1 - 128) * 64 + (b2 - 128))%N
                   <$> decode_utf8 r2
            else None
        | _ => None
        end
      else if between 240 244 b0 then
        match r0 with
        | b1 :: b2 :: b3 :: r3 =>
            let lo := if (b0 =? 240)%N then 144%N else 128%N in
            let hi := if (b0 =? 244)%N then 143%N else 191%N in
            if between lo hi b1 && is_cont b2 && is_cont b3
            then cons ((b0 - 240) * 262144 + (b1 - 128) * 4096
                       + (b2 - 128) * 64 + (b3 - 128))%N
                   <$> decode_utf8 r3
            else None
        | _ => None
        end
      else None
  end.

Definition decode (b : bytes) : option str := decode_utf8 (Byte.to_N <$> b).

(** A loop [while cond(s): s = body(s)], run for at most [fuel] iterations.
    [None]: the loop has not finished within [fuel] iterations (or its body
    has not). *)
Fixpoint while {S : Type} (fuel : nat) (cond : S → bool) (body : S → option S)
    (s : S) : option S :=
  match fuel with
  | O => if cond s then None else Some s
  | Datatypes.S fuel' =>
      if cond s then body s ≫= while fuel' cond body else Some s
  end.

End Py.

(** ** The unified diff of the standard library

    [generate_patch] calls [difflib.unified_diff] of the Python standard
    library, which is not part of the repository.  The definitions below
    transcribe [Lib/difflib.py] (CPython 3.11) for the way it is called:
    [SequenceMatcher(None, a, b)] with [autojunk=True], on lists of [str].
    Integers are [Z], as Python integers are. *)

Module difflib.

(** [a[i]] for an index [0 <= i < len(a)]. *)
Definition item (a : list str) (i : Z) : str := a !!! Z.to_nat i.

(** [a[i1:i2]] for [0 <= i1]. *)
Definition slice (a : list str) (i1 i2 : Z) : list str :=
  take (Z.to_nat i2 - Z.to_nat i1) (drop (Z.to_nat i1) a).

(** [SequenceMatcher.__chain_b]: the index lists of the elements of [b],
    without the "popular" elements when [b] has 200 elements or more.
    [isjunk] is [None], so [bjunk] stays empty. *)
Definition chain_b (b : list str) : gmap str (list Z) :=
  let b2j :=
    foldl (λ (b2j : gmap str (list Z)) '(i, elt),
             <[elt := default [] (b2j !! elt) ++ [i]]> b2j)
          ∅ (zip (seqZ 0 (Z.of_nat (length b))) b) in
  let n := Z.of_nat (length b) in
  if bool_decide (n >= 200)%Z then
    let ntest := (n `div` 100 + 1)%Z in
    let popular : gset str :=
      dom (filter (λ kv : str * list Z, (Z.of_nat (length kv.2) > ntest)%Z) b2j) in
    set_fold (λ elt (b2j : gmap str (list Z)), delete elt b2j) b2j popular
  else b2j.

(** The inner loop of [find_longest_match], over the indices [j] where
    [b[j] == a[i]]: [continue] below [blo], [break] from [bhi] on. *)
Fixpoint flm_row (js : list Z) (i blo bhi : Z) (j2len newj2len : gmap Z Z)
    (best : Z * Z * Z) : gmap Z Z * (Z * Z * Z) :=
  match js with
  | [] => (newj2len, best)
  | j :: js' =>
      if bool_decide (j < blo)%Z then flm_row js' i blo bhi j2len newj2len best
      else if bool_decide (j >= bhi)%Z then (newj2len, best)
      else
        let k := (default 0 (j2len !! (j - 1)) + 1)%Z in
        let newj2len := <[j := k]> newj2len in
        let best :=
          if bool_decide (k > best.2)%Z then (i - k + 1, j - k + 1, k)%Z
          else best in
        flm_row js' i blo bhi j2len newj2len best
  end.

(** The outer loop [for i in range(alo, ahi)]. *)
Definition flm_scan (a : list str) (b2j : gmap str (list Z))
    (alo ahi blo bhi : Z) : Z * Z * Z :=
  (foldl (λ '(j2len, best) i,
            flm_row (default [] (b2j !! item a i)) i blo bhi j2len ∅ best)
         (∅, (alo, blo, 0%Z)) (seqZ alo (ahi - alo))).2.

(** [SequenceMatcher.find_longest_match].  With [bjunk] empty,
    [isbjunk] is false everywhere: the two loops that extend the match over
    junk never iterate and are left out. *)
Definition find_longest_match (a b : list str) (b2j : gmap str (list Z))
    (alo ahi blo bhi : Z) : option (Z * Z * Z) :=
  let best := flm_scan a b2j alo ahi blo bhi in
  best ← Py.while (Z.to_nat (best.1.1 - alo))
      (λ '(besti, bestj, bestsize),
         bool_decide (besti > alo)%Z && bool_decide (bestj > blo)%Z
         && bool_decide (item a (besti - 1) = item b (bestj - 1)))
      (λ '(besti, bestj, bestsize),
         Some (besti - 1, bestj - 1, bestsize + 1)%Z)
      best;
  Py.while (Z.to_nat (ahi - (best.1.1 + best.2)))
      (λ '(besti, bestj, bestsize),
         bool_decide (besti + bestsize < ahi)%Z
         && bool_decide (bestj + bestsize < bhi)%Z
         && bool_decide (item a (besti + bestsize) = item b (bestj + bestsize)))
      (λ '(besti, bestj, bestsize), Some (besti, bestj, bestsize + 1)%Z)
      best.

(** Tuples compare lexicographically ([list.sort] on the matching blocks). *)
Definition block_leb (x y : Z * Z * Z) : bool :=
  let '(i1, j1, k1) := x in
  let '(i2, j2, k2) := y in
  (if i1 <? i2 then true else if i1 =? i2 then
     if j1 <? j2 then true else if j1 =? j2 then k1 <=? k2 else false
   else false)%Z.

Definition block_le (x y : Z * Z * Z) : Prop := block_leb x y = true.

#[global] Instance block_le_dec : RelDecision block_le.
Proof. intros x y. unfold block_le. apply _. Defined.

(** One iteration of the [while queue:] loop of [get_matching_blocks].
    The Python list [queue] is used as a stack ([append], [pop]); here its
    top is the head of the list. *)
Definition gmb_body (a b : list str) (b2j : gmap str (list Z))
    (st : list (Z * Z * Z * Z) * list (Z * Z * Z))
    : option (list (Z * Z * Z * Z) * list (Z * Z * Z)) :=
  let '(queue, matching_blocks) := st in
  match queue with
  | [] => Some st
  | (alo, ahi, blo, bhi) :: queue =>
      '(i, j, k) ← find_longest_match a b b2j alo ahi blo bhi;
      if bool_decide (k ≠ 0)%Z then
        let matching_blocks := matching_blocks ++ [(i, j, k)] in
        let queue :=
          if bool_decide (alo < i ∧ blo < j)%Z
          then (alo, i, blo, j) :: queue else queue in
        let queue :=
          if bool_decide (i + k < ahi ∧ j + k < bhi)%Z
          then (i + k, ahi, j + k, bhi)%Z :: queue else queue in
        Some (queue, matching_blocks)
      else Some (queue, matching_blocks)
  end.

(** The loop that merges adjacent blocks. *)
Definition collapse (matching_blocks : list (Z * Z * Z)) : list (Z * Z * Z) :=
  let '(i1, j1, k1, non_adjacent) :=
    foldl (λ '(i1, j1, k1, non_adjacent) '(i2, j2, k2),
             if bool_decide (i1 + k1 = i2 ∧ j1 + k1 = j2)%Z
             then (i1, j1, k1 + k2, non_adjacent)%Z
             else (i2, j2, k2,
                   if bool_decide (k1 ≠ 0)%Z
                   then non_adjacent ++ [(i1, j1, k1)] else non_adjacent))
          (0, 0, 0, [])%Z matching_blocks in
  if bool_decide (k1 ≠ 0)%Z then non_adjacent ++ [(i1, j1, k1)]
  else non_adjacent.

(** [SequenceMatcher.get_matching_blocks]. *)
Definition get_matching_blocks (a b : list str) : option (list (Z * Z * Z)) :=
  let la := Z.of_nat (length a) in
  let lb := Z.of_nat (length b) in
  let b2j := chain_b b in
  '(_, matching_blocks) ←
    Py.while (2 * length a + 1)
      (λ st : list (Z * Z * Z * Z) * list (Z * Z * Z),
         bool_decide (st.1 ≠ []))
      (gmb_body a b b2j) ([(0, la, 0, lb)%Z], []);
  let matching_blocks := merge_sort block_le matching_blocks in
  Some (collapse matching_blocks ++ [(la, lb, 0%Z)]).

Inductive tag := replace | delete | insert | equal.

#[global] Instance tag_eq_dec : EqDecision tag.
Proof. solve_decision. Defined.

Abbreviation opcode := (tag * Z * Z * Z * Z)%type.

(** [SequenceMatcher.get_opcodes]. *)
Definition get_opcodes (a b : list str) : option (list opcode) :=
  blocks ← get_matching_blocks a b;
  Some (foldl (λ '(i, j, answer) '(ai, bj, size),
                 let answer :=
                   if bool_decide (i < ai ∧ j < bj)%Z
                   then answer ++ [(replace, i, ai, j, bj)]
                   else if bool_decide (i < ai)%Z
                   then answer ++ [(delete, i, ai, j, bj)]
                   else if bool_decide (j < bj)%Z
                   then answer ++ [(insert, i, ai, j, bj)]
                   else answer in
                 let '(i, j) := (ai + size, bj + size)%Z in
                 let answer :=
                   if bool_decide (size ≠ 0)%Z
                   then answer ++ [(equal, ai, i, bj, j)] else answer in
                 (i, j, answer))
              (0%Z, 0%Z, []) blocks).2.

(** [codes[0] = f(codes[0])] and [codes[-1] = f(codes[-1])]. *)
Definition on_first (f : opcode → opcode) (codes : list opcode) : list opcode :=
  match codes with
  | [] => []
  | c :: codes' => f c :: codes'
  end.

Definition on_last (f : opcode → opcode) (codes : list opcode) : list opcode :=
  reverse (on_first f (reverse codes)).

(** [SequenceMatcher.get_grouped_opcodes(n)]: the list of the groups that
    the generator yields. *)
Definition get_grouped_opcodes (a b : list str) (n : Z)
    : option (list (list opcode)) :=
  codes ← get_opcodes a b;
  let codes := match codes with [] => [(equal, 0, 1, 0, 1)%Z] | _ => codes end in
  let codes :=
    on_first (λ '(tag, i1, i2, j1, j2),
                if bool_decide (tag = equal)
                then (tag, Z.max i1 (i2 - n), i2, Z.max j1 (j2 - n), j2)
                else (tag, i1, i2, j1, j2)) codes in
  let codes :=
    on_last (λ '(tag, i1, i2, j1, j2),
               if bool_decide (tag = equal)
               then (tag, i1, Z.min i2 (i1 + n), j1, Z.min j2 (j1 + n))
               else (tag, i1, i2, j1, j2)) codes in
  let nn := (n + n)%Z in
  let '(yielded, group) :=
    foldl (λ '(yielded, group) '(tag, i1, i2, j1, j2),
             if bool_decide (tag = equal) && bool_decide (i2 - i1 > nn)%Z then
               let group :=
                 group ++ [(tag, i1, Z.min i2 (i1 + n), j1, Z.min j2 (j1 + n))] in
               let yielded := yielded ++ [group] in
               let '(i1, j1) := (Z.max i1 (i2 - n), Z.max j1 (j2 - n)) in
               (yielded, [(tag, i1, i2, j1, j2)])
             else (yielded, group ++ [(tag, i1, i2, j1, j2)]))
          ([], []) codes in
  Some (match group with
        | [] => yielded
        | [(equal, _, _, _, _)] => yielded
        | _ => yielded ++ [group]
        end).

(** [_format_range_unified]. *)
Definition format_range_unified (start stop : Z) : str :=
  let beginning := (start + 1)%Z in
  let length := (stop - start)%Z in
  if bool_decide (length = 1)%Z then Py.format_int beginning
  else
    let beginning := if bool_decide (length = 0)%Z then (beginning - 1)%Z
                     else beginning in
    Py.format_int beginning ++ Py.lit "," ++ Py.format_int length.

(** The lines of one group: the hunk header and the hunk body. *)
Definition hunk (a b : list str) (lineterm : str) (group : list opcode)
    : list str :=
  let '(_, first1, _, first3, _) := default (equal, 0, 0, 0, 0)%Z (head group) in
  let '(_, _, last2, _, last4) := default (equal, 0, 0, 0, 0)%Z (last group) in
  let file1_range := format_range_unified first1 last2 in
  let file2_range := format_range_unified first3 last4 in
  (Py.lit "@@ -" ++ file1_range ++ Py.lit " +" ++ file2_range ++ Py.lit " @@"
     ++ lineterm)
  :: concat ((λ '(tag, i1, i2, j1, j2),
      match tag with
      | equal => (λ line, Py.lit " " ++ line) <$> slice a i1 i2
      | _ =>
          (if bool_decide (tag = replace ∨ tag = delete)
           then (λ line, Py.lit "-" ++ line) <$> slice a i1 i2 else [])
          ++
          (if bool_decide (tag = replace ∨ tag = insert)
           then (λ line, Py.lit "+" ++ line) <$> slice b j1 j2 else [])
      end) <$> group).

(** [unified_diff(a, b, n=n, lineterm=lineterm)], with the defaults
    [fromfile=''], [tofile=''], [fromfiledate=''], [tofiledate='']: the list
    of the lines that the generator yields. *)
Definition unified_diff (a b : list str) (n : Z) (lineterm : str)
    : option (list str) :=
  groups ← get_grouped_opcodes a b n;
  Some (match groups with
        | [] => []
        | _ =>
            [Py.lit "--- " ++ lineterm; Py.lit "+++ " ++ lineterm]
            ++ concat (hunk a b lineterm <$> groups)
        end).

End difflib.

Set Warnings "-register-all".

(** ** The repository as the GitHub API presents it

    [repo.get_contents(path, ref=branch)] returns the entries of a directory.
    A [Dir] carries the listing that [get_contents] returns for its path; a
    [File] carries the bytes of [decoded_content]. *)

Inductive ContentFile :=
  | File (path : str) (decoded_content : bytes)
  | Dir (path : str) (listing : list ContentFile).

(** The number of entries of a tree: a bound on the iterations of the
    work-list loop of [get_all_files]. *)
Fixpoint entries (c : ContentFile) : nat :=
  match c with
  | File _ _ => 1
  | Dir _ listing =>
      S ((fix go (l : list ContentFile) : nat :=
            match l with
            | [] => 0
            | c :: l' => entries c + go l'
            end) listing)
  end.

Definition entries_list (l : list ContentFile) : nat :=
  foldr (λ c n, entries c + n) 0 l.

(** ** Objects, the heap and the method monad *)

Inductive exn := KeyError (key : str).

(** The attributes of a [GitHubAPIBot] that the tracker uses.  Each holds a
    reference to a dictionary object.  ([self.g], the API client, plays no
    part in tracking.) *)
Record GitHubAPIBot := mkBot { initial_files : loc; current_files : loc }.

Record world := mkWorld { self : GitHubAPIBot; heap : gmap loc dict }.

Inductive outcome (A : Type) :=
  | Ok (a : A) (w : world)
  | Raise (e : exn)
  | Diverge.
Arguments Ok {A} a w.
Arguments Raise {A} e.
Arguments Diverge {A}.

Definition M (A : Type) : Type := world → outcome A.

#[global] Instance M_ret : MRet M := λ A a w, Ok a w.
#[global] Instance M_bind : MBind M := λ A B f m w,
  match m w with
  | Ok a w' => f a w'
  | Raise e => Raise e
  | Diverge => Diverge
  end.

Definition raise {A} (e : exn) : M A := λ _, Raise e.

(** The result of a bounded loop: running out of fuel is divergence. *)
Definition finished {A} (o : option A) : M A := λ w,
  match o with
  | Some a => Ok a w
  | None => Diverge
  end.

(** [for x in l: s = body(s, x)]. *)
Fixpoint for_each {A S : Type} (l : list A) (s : S) (body : S → A → M S) : M S :=
  match l with
  | [] => mret s
  | x :: l' => s' ← body s x; for_each l' s' body
  end.

(** A new dictionary object with content [d] ([{}], [dict.copy]). *)
Definition new_dict (d : dict) : M loc := λ w,
  let l := fresh (dom (heap w)) in
  Ok l (mkWorld (self w) (<[l := d]> (heap w))).

(** The dictionary that a reference points to. *)
Definition read (l : loc) : M dict := λ w, Ok (heap w !!! l) w.

(** [d[key]]. *)
Definition getitem {V} (d : gmap str V) (key : str) : M V :=
  match d !! key with
  | Some v => mret v
  | None => raise (KeyError key)
  end.

(** [d[key] = value] on the object at [l]. *)
Definition setitem (l : loc) (key value : str) : M unit := λ w,
  Ok () (mkWorld (self w) (<[l := <[key := value]> (heap w !!! l)]> (heap w))).

(** [del d[key]] on the object at [l]. *)
Definition delitem (l : loc) (key : str) : M unit := λ w,
  match (heap w !!! l) !! key with
  | Some _ => Ok () (mkWorld (self w) (<[l := delete key (heap w !!! l)]> (heap w)))
  | None => Raise (KeyError key)
  end.

Definition get_initial_files : M loc := λ w, Ok (initial_files (self w)) w.
Definition get_current_files : M loc := λ w, Ok (current_files (self w)) w.
Definition set_initial_files (l : loc) : M unit := λ w,
  Ok () (mkWorld (mkBot l (current_files (self w))) (heap w)).
Definition set_current_files (l : loc) : M unit := λ w,
  Ok () (mkWorld (mkBot (initial_files (self w)) l) (heap w)).

(** ** The class [GitHubAPIBot] *)

(** The marker that stands for content that does not decode. *)
Definition BINARY : str := Py.lit "[Binary file]".

(** [__init__], on the heap as it is when the bot is constructed: both
    attributes get a new empty dictionary. *)
Definition __init__ (h : gmap loc dict) : world :=
  let l1 := fresh (dom h) in
  let h := <[l1 := ∅]> h in
  let l2 := fresh (dom h) in
  mkWorld (mkBot l1 l2) (<[l2 := ∅]> h).

(** One iteration of the loop [while contents:] of [get_all_files]. *)
Definition get_all_files_body (st : list ContentFile * dict)
    : option (list ContentFile * dict) :=
  let '(contents, files) := st in
  match contents with
  | [] => Some st
  | file_content :: contents =>
      match file_content with
      | Dir path listing => Some (contents ++ listing, files)
      | File path decoded_content =>
          Some (contents,
                <[path := default BINARY (Py.decode decoded_content)]> files)
      end
  end.

(** [get_all_files]; [root] is what [repo.get_contents("", ref=branch)]
    returns.  The dictionary [files] is local while it is filled and becomes
    an object when it is returned. *)
Definition get_all_files (root : list ContentFile) : M loc :=
  '(_, files) ← finished
    (Py.while (entries_list root)
       (λ st : list ContentFile * dict, bool_decide (st.1 ≠ []))
       get_all_files_body (root, ∅));
  new_dict files.

Definition initialize_tracking (root : list ContentFile) : M unit :=
  l ← get_all_files root;
  set_initial_files l;;
  initial ← read l;
  l' ← new_dict initial;
  set_current_files l'.

Definition track_file_change (file_path content : str) : M unit :=
  l ← get_current_files;
  setitem l file_path content.

Definition track_file_deletion (file_path : str) : M unit :=
  l ← get_current_files;
  current ← read l;
  if bool_decide (file_path ∈ dom current) then delitem l file_path
  else mret ().

(** [self.initial_files[file_path]] and [self.current_files[file_path]]. *)
Definition initial_files_getitem (file_path : str) : M str :=
  l ← get_initial_files; initial ← read l; getitem initial file_path.

Definition current_files_getitem (file_path : str) : M str :=
  l ← get_current_files; current ← read l; getitem current file_path.

Definition get_changes : M (gset str * gset str * gset str) :=
  li ← get_initial_files; initial ← read li;
  lc ← get_current_files; current ← read lc;
  let initial_keys : gset str := dom initial in
  let current_keys : gset str := dom current in
  let added_files := current_keys ∖ initial_keys in
  let deleted_files := initial_keys ∖ current_keys in
  modified_files ←
    for_each (elements (initial_keys ∩ current_keys)) (∅ : gset str)
      (λ modified_files file_path,
         before ← initial_files_getitem file_path;
         after ← current_files_getitem file_path;
         mret (if bool_decide (before ≠ after)
               then modified_files ∪ {[file_path]} else modified_files));
  mret (added_files, modified_files, deleted_files).

(** The body of the loop [for file_path in sorted(deleted)]. *)
Definition render_deleted (patch_lines : list str) (file_path : str)
    : M (list str) :=
  let patch_lines := patch_lines ++ [Py.lit "--- a/" ++ file_path] in
  let patch_lines := patch_lines ++ [Py.lit "+++ /dev/null"] in
  content ← initial_files_getitem file_path;
  let lines := Py.splitlines_keepends content in
  let patch_lines :=
    foldl (λ patch_lines line, patch_lines ++ [Py.lit "-" ++ Py.rstrip line])
          patch_lines lines in
  mret (patch_lines ++ [[]]).

(** The body of the loop [for file_path in sorted(modified)].  [n=3] is the
    default of [unified_diff]; [len(diff) > 2] is written [2 < length diff]. *)
Definition render_modified (patch_lines : list str) (file_path : str)
    : M (list str) :=
  let patch_lines := patch_lines ++ [Py.lit "--- a/" ++ file_path] in
  let patch_lines := patch_lines ++ [Py.lit "+++ b/" ++ file_path] in
  original ← initial_files_getitem file_path;
  let original_lines := Py.splitlines_keepends original in
  new ← current_files_getitem file_path;
  let new_lines := Py.splitlines_keepends new in
  diff ← finished (difflib.unified_diff original_lines new_lines 3 []);
  let patch_lines :=
    if bool_decide (2 < length diff) then patch_lines ++ drop 2 diff
    else patch_lines in
  mret (patch_lines ++ [[]]).

(** The body of the loop [for file_path in sorted(added)]. *)
Definition render_added (patch_lines : list str) (file_path : str)
    : M (list str) :=
  let patch_lines := patch_lines ++ [Py.lit "--- /dev/null"] in
  let patch_lines := patch_lines ++ [Py.lit "+++ b/" ++ file_path] in
  content ← current_files_getitem file_path;
  let lines := Py.splitlines_keepends content in
  let patch_lines :=
    foldl (λ patch_lines line, patch_lines ++ [Py.lit "+" ++ Py.rstrip line])
          patch_lines lines in
  mret (patch_lines ++ [[]]).

(** [generate_patch] up to its last line: the list [patch_lines]. *)
Definition generate_patch_lines : M (list str) :=
  '(added, modified, deleted) ← get_changes;
  let patch_lines : list str := [] in
  patch_lines ← for_each (Py.sorted deleted) patch_lines render_deleted;
  patch_lines ← for_each (Py.sorted modified) patch_lines render_modified;
  patch_lines ← for_each (Py.sorted added) patch_lines render_added;
  mret patch_lines.

Definition generate_patch : M str :=
  patch_lines ← generate_patch_lines;
  mret (Py.join [Py.LF] patch_lines).

(** [summary[category][file_path] = content]. *)
Definition summary_set (summary : gmap str dict) (category file_path content : str)
    : M (gmap str dict) :=
  inner ← getitem summary category;
  mret (<[category := <[file_path := content]> inner]> summary).

Definition get_changed_files_summary : M (gmap str dict) :=
  '(added, modified, deleted) ← get_changes;
  let summary : gmap str dict :=
    <[Py.lit "added" := ∅]> (<[Py.lit "modified" := ∅]>
      (<[Py.lit "deleted" := ∅]> ∅)) in
  summary ←
    for_each (elements added) summary
      (λ summary file_path,
         content ← current_files_getitem file_path;
         summary_set summary (Py.lit "added") file_path content);
  summary ←
    for_each (elements modified) summary
      (λ summary file_path,
         content ← current_files_getitem file_path;
         summary_set summary (Py.lit "modified") file_path content);
  summary ←
    for_each (elements deleted) summary
      (λ summary file_path,
         content ← initial_files_getitem file_path;
         summary_set summary (Py.lit "deleted") file_path content);
  mret summary.

(** ** The session operations of the specification

    [recordChange] and [recordDeletion] are [track_file_change] and
    [track_file_deletion]; a sequence of them is run from left to right. *)

Inductive operation :=
  | recordChange (path content : str)
  | recordDeletion (path : str).

Definition run_operation (o : operation) : M unit :=
  match o with
  | recordChange path content => track_file_change path content
  | recordDeletion path => track_file_deletion path
  end.

Fixpoint run_operations (ops : list operation) : M unit :=
  match ops with
  | [] => mret ()
  | o :: ops' => run_operation o;; run_operations ops'
  end.

(** The dictionaries behind the two attributes: the snapshots [before] and
    [after] of the specification. *)
Definition before (w : world) : dict := heap w !!! initial_files (self w).
Definition after (w : world) : dict := heap w !!! current_files (self w).

(** ** The specification's reading of the classifier and of the blocks *)

(** [classify] as section 4.2 of the specification defines it. *)
Definition classify (before after : dict) : gset str * gset str * gset str :=
  (dom after ∖ dom before,
   filter (λ p, before !! p ≠ after !! p) (dom before ∩ dom after),
   dom before ∖ dom after).

(** The paths of both snapshots with equal content. *)
Definition unchanged (before after : dict) : gset str :=
  filter (λ p, before !! p = after !! p) (dom before ∩ dom after).

(** A line without its line terminator, and nothing else removed. *)
Definition strip_terminator (line : str) : str :=
  match reverse line with
  | c :: r =>
      if (c =? Py.LF)%N then
        match r with
        | c' :: r' => if (c' =? Py.CR)%N then reverse r' else reverse r
        | [] => []
        end
      else if Py.is_linebreak c then reverse r
      else line
  | [] => []
  end.

(** The deletion and the addition block as section 4.3 describes them. *)
Definition spec_deleted_block (path content : str) : list str :=
  [Py.lit "--- a/" ++ path; Py.lit "+++ /dev/null"]
  ++ ((λ line, Py.lit "-" ++ strip_terminator line)
        <$> Py.splitlines_keepends content).

Definition spec_added_block (path content : str) : list str :=
  [Py.lit "--- /dev/null"; Py.lit "+++ b/" ++ path]
  ++ ((λ line, Py.lit "+" ++ strip_terminator line)
        <$> Py.splitlines_keepends content).

(** The blocks that the three loops append, separator included. *)
Definition deleted_block (path content : str) : list str :=
  [Py.lit "--- a/" ++ path; Py.lit "+++ /dev/null"]
  ++ ((λ line, Py.lit "-" ++ Py.rstrip line) <$> Py.splitlines_keepends content)
  ++ [[]].

Definition added_block (path content : str) : list str :=
  [Py.lit "--- /dev/null"; Py.lit "+++ b/" ++ path]
  ++ ((λ line, Py.lit "+" ++ Py.rstrip line) <$> Py.splitlines_keepends content)
  ++ [[]].

Definition modified_block (path : str) (diff : list str) : list str :=
  [Py.lit "--- a/" ++ path; Py.lit "+++ b/" ++ path] ++ drop 2 diff ++ [[]].

(** The lines of the unified diff of two contents, as [render_modified]
    asks for them. *)
Definition content_diff (original new : str) : option (list str) :=
  difflib.unified_diff (Py.splitlines_keepends original)
                       (Py.splitlines_keepends new) 3 [].

(** The list [patch_lines] that [generate_patch] joins: the blocks of the
    deleted, of the modified and of the added paths, each in sorted order.
    ([unified_diff] always returns; the default is never used.) *)
Definition patch_blocks (before after : dict) : list str :=
  let '(added, modified, deleted) := classify before after in
  concat ((λ p, deleted_block p (before !!! p)) <$> Py.sorted deleted)
  ++ concat ((λ p, modified_block p
                (default [] (content_diff (before !!! p) (after !!! p))))
             <$> Py.sorted modified)
  ++ concat ((λ p, added_block p (after !!! p)) <$> Py.sorted added).

(** The empty summary. *)
Definition empty_summary : gmap str dict :=
  <[Py.lit "added" := ∅]> (<[Py.lit "modified" := ∅]>
    (<[Py.lit "deleted" := ∅]> ∅)).

(** A line holds a line terminator. *)
Definition embeds_terminator (line : str) : Prop :=
  Exists (λ c, Py.is_linebreak c = true) line.

(** The snapshot that [get_all_files] takes of a listing. *)
Definition snapshot (root : list ContentFile) : dict :=
  match Py.while (entries_list root)
          (λ st : list ContentFile * dict, bool_decide (st.1 ≠ []))
          get_all_files_body (root, ∅) with
  | Some (_, files) => files
  | None => ∅
  end.

(** ** Worlds used in the examples *)

Definition run {A} (m : M A) (w : world) : world :=
  match m w with
  | Ok _ w' => w'
  | _ => w
  end.

(** A session: a bot constructed on the empty heap, tracking initialized on
    the listing [root], then the operations [ops]. *)
Definition session (root : list ContentFile) (ops : list operation) : world :=
  run (run_operations ops) (run (initialize_tracking root) (__init__ ∅)).

(** A line of ASCII text with its LF, as bytes and as a string. *)
Definition line_bytes (x : string) : bytes := list_byte_of_string x ++ ["010"%byte].
Definition line (x : string) : str := Py.lit x ++ [Py.LF].

(** One file changed: [a.txt] gets a second line. *)
Definition world_modified : world :=
  session [File (Py.lit "a.txt") (line_bytes "hello")]
          [recordChange (Py.lit "a.txt") (line "hello" ++ line "world")].

(** One file deleted and one added, both with blanks before the line end. *)
Definition world_blanks : world :=
  session [File (Py.lit "f.txt") (line_bytes "a  ")]
          [recordDeletion (Py.lit "f.txt");
           recordChange (Py.lit "g.txt") (Py.lit "b" ++ [9%N; Py.LF])].

(** Nothing changed, with a file in a directory. *)
Definition world_unchanged : world :=
  session [File (Py.lit "a.txt") (line_bytes "hello");
           Dir (Py.lit "src") [File (Py.lit "src/m.py") (line_bytes "x = 1")]]
          [].

(** Two listings of the same path with different bytes, neither of which
    is UTF-8. *)
Definition listing_png1 : list ContentFile :=
  [File (Py.lit "logo.png") ["137"%byte; "080"%byte; "078"%byte; "071"%byte]].
Definition listing_png2 : list ContentFile :=
  [File (Py.lit "logo.png") ["255"%byte; "216"%byte; "255"%byte]].

(** The path is tracked with the first bytes; the content of the second
    listing is recorded for it afterwards. *)
Definition world_binary : world :=
  session listing_png1
          [recordChange (Py.lit "logo.png")
                        (snapshot listing_png2 !!! Py.lit "logo.png")].

(** The binary file is deleted, and the marker is recorded for a new path. *)
Definition world_binary_deleted : world :=
  session listing_png1
          [recordDeletion (Py.lit "logo.png");
           recordChange (Py.lit "icon.png") BINARY].

(** ** The files of a listing *)

(** The files of a tree with their bytes: every [File] below an entry. *)
Fixpoint files_of (c : ContentFile) : list (str * bytes) :=
  match c with
  | File path decoded_content => [(path, decoded_content)]
  | Dir _ listing =>
      (fix go (l : list ContentFile) : list (str * bytes) :=
         match l with
         | [] => []
         | c :: l' => files_of c ++ go l'
         end) listing
  end.

Definition files_of_list (l : list ContentFile) : list (str * bytes) :=
  foldr (λ c fs, files_of c ++ fs) [] l.

(** What [get_all_files] stores for the bytes of a file: the decoded text,
    or the marker when decoding raises. *)
Definition stored (decoded_content : bytes) : str :=
  default BINARY (Py.decode decoded_content).

(** What the loop has read and what it has still to read, against the
    files of the listing it started from. *)
Definition snapshot_inv (root : list ContentFile)
    (st : list ContentFile * dict) : Prop :=
  (∀ p, p ∈ dom st.2 ∨ p ∈ (files_of_list st.1).*1
        ↔ p ∈ (files_of_list root).*1) ∧
  (∀ p v, st.2 !! p = Some v →
          ∃ b, (p, b) ∈ files_of_list root ∧ v = stored b) ∧
  (∀ p b, (p, b) ∈ files_of_list st.1 → (p, b) ∈ files_of_list root) ∧
  (NoDup (files_of_list root).*1 →
   ∀ p b, (p, b) ∈ files_of_list root →
          (p, b) ∈ files_of_list st.1 ∨ st.2 !! p = Some (stored b)).

(** ** The caller: the work directory of [process_claude_request]

    After the agent has run, [process_claude_request] walks the temporary
    directory and feeds the tracker.  The directory is what the code observes
    of it:
    - [walk]: the files that the loops over [os.walk] visit, in that order,
      each with its path relative to the directory ([os.path.relpath]) and
      the outcome of [open(file_path, 'r')] and [f.read()]; [None] is an
      exception, which the bare [except] turns into [pass];
    - [exists_]: the answer of [(temp_path / file_path).exists()]. *)
Record work_dir := mkDir { walk : list (str * option str); exists_ : str → bool }.

(** [relative_path.startswith('.')]. *)
Definition startswith_dot (relative_path : str) : bool :=
  match relative_path with
  | c :: _ => (c =? 46)%N
  | [] => false
  end.

(** The body of the inner loop over [filenames].  After the read nothing in
    the [try] block raises: the subscript is guarded by the membership test
    and [track_file_change] cannot fail. *)
Definition track_walk_entry (relative_path : str) (read_result : option str)
    : M unit :=
  if startswith_dot relative_path then mret ()
  else
    match read_result with
    | None => mret ()
    | Some content =>
        l ← get_initial_files;
        initial ← read l;
        if bool_decide (relative_path ∈ dom initial) then
          original ← initial_files_getitem relative_path;
          if bool_decide (content ≠ original)
          then track_file_change relative_path content
          else mret ()
        else track_file_change relative_path content
    end.

(** The two loops of [process_claude_request] that feed the tracker: the
    walk, then the deletions of the tracked paths that no longer exist.
    [list(bot.initial_files.keys())] is iterated in the order of
    [elements]. *)
Definition track_work_dir (d : work_dir) : M unit :=
  for_each (walk d) () (λ _ '(relative_path, read_result),
                          track_walk_entry relative_path read_result);;
  l ← get_initial_files;
  initial ← read l;
  for_each (elements (dom initial)) ()
    (λ _ file_path,
       if exists_ d file_path then mret ()
       else track_file_deletion file_path).

(** The first part of [process_claude_request] on the bot: the listing is
    fetched once for the caller's [files] ([root1]) and once more by
    [initialize_tracking] ([root2], the listing at that later moment).  The
    result is the reference held in [files]. *)
Definition fetch_and_initialize (root1 root2 : list ContentFile) : M loc :=
  files ← get_all_files root1;
  initialize_tracking root2;;
  mret files.

(** A rendered content line: the prefix character, then text without any
    line terminator and without white space at its end. *)
Definition clean_line (prefix : N) (l : str) : Prop :=
  ∃ t, l = prefix :: t ∧
       Forall (λ c, Py.is_linebreak c = false) t ∧ Py.rstrip t = t.

(** A line of the body of a modified block: a hunk header, or a line of the
    old or of the new content, as [splitlines(keepends=True)] gives it,
    behind [' '], ['-'] or ['+']. *)
Definition diff_line (original_lines new_lines : list str) (l : str) : Prop :=
  (∃ r, l = Py.lit "@@ -" ++ r) ∨
  (∃ line, line ∈ original_lines ∧ (l = 32%N :: line ∨ l = 45%N :: line)) ∨
  (∃ line, line ∈ new_lines ∧ l = 43%N :: line).

(** ** The effect of the operations on [current_files] *)

(** The path that an operation is about, and the last operation of a
    sequence that is about [p]. *)
Definition operation_path (o : operation) : str :=
  match o with
  | recordChange path _ => path
  | recordDeletion path => path
  end.

Definition last_operation (p : str) (ops : list operation) : option operation :=
  last (filter (λ o, operation_path o = p) ops).

(** What an operation does to the dictionary behind [current_files]. *)
Definition apply_operation (current : dict) (o : operation) : dict :=
  match o with
  | recordChange path content => <[path := content]> current
  | recordDeletion path => delete path current
  end.

(** What a visited file and what the deletion test do to the dictionary
    behind [current_files], given the one behind [initial_files]. *)
Definition walk_step (initial current : dict) (entry : str * option str) : dict :=
  let '(relative_path, read_result) := entry in
  if startswith_dot relative_path then current
  else
    match read_result with
    | None => current
    | Some content =>
        if bool_decide (initial !! relative_path = Some content) then current
        else <[relative_path := content]> current
    end.

Definition deletion_step (d : work_dir) (current : dict) (file_path : str) : dict :=
  if exists_ d file_path then current else delete file_path current.

(** ** Listings and work directories used in the examples *)

Definition listing_small : list ContentFile :=
  [File (Py.lit "a.txt") (line_bytes "hello");
   Dir (Py.lit "src") [File (Py.lit "src/m.py") (line_bytes "x = 1")]].

(** The work directory of [listing_png1] as the first loop of
    [process_claude_request] leaves it: nothing is written for the marker. *)
Definition dir_without_binary : work_dir :=
  mkDir [] (λ _, false).

(** The work directory of [listing_small] with its two files as they
    were, a hidden file and a file that cannot be read. *)
Definition dir_untouched : work_dir :=
  mkDir [(Py.lit "a.txt", Some (line "hello"));
         (Py.lit ".env", Some (line "KEY=1"));
         (Py.lit "src/m.py", Some (line "x = 1"));
         (Py.lit "core", None)]
        (λ p, bool_decide (p ∈ [Py.lit "a.txt"; Py.lit "src/m.py";
                                Py.lit ".env"; Py.lit "core"; Py.lit "src"])).

(** ** The class without its type annotations

    The annotations [Dict[str, str]] are not checked when the program runs:
    an attribute of the bot can be missing or hold an object that is no
    dictionary, and a dictionary can hold entries that are no text.  The
    module [Dyn] embeds [get_changes], [generate_patch] and
    [get_changed_files_summary] once more for such worlds.  Every operation
    that Python looks up on an object - an attribute of the instance,
    [keys], subscription, [splitlines] - raises when the object does not
    have it.  The objects considered are [None], [str], [int] and
    dictionaries with [str] keys. *)

Module Dyn.

(** What an entry of a dictionary can be. *)
Inductive value :=
  | PyNone
  | PyStr (s : str)
  | PyInt (n : Z).

(** What an attribute can hold: one of these values, or a reference to a
    dictionary. *)
Inductive object :=
  | Value (v : value)
  | Dict (l : loc).

#[global] Instance value_eq_dec : EqDecision value.
Proof. solve_decision. Defined.

(** [type(o).__name__]. *)
Definition type_name (o : object) : string :=
  match o with
  | Value PyNone => "NoneType"
  | Value (PyStr _) => "str"
  | Value (PyInt _) => "int"
  | Dict _ => "dict"
  end.

(** [AttributeError ty name] is ['ty' object has no attribute 'name'];
    [TypeError ty] is what subscription raises on an object of type [ty]
    that is no dictionary. *)
Inductive exn :=
  | KeyError (key : str)
  | AttributeError (ty name : string)
  | TypeError (ty : string).

(** The two attributes; [None] is an instance without the attribute. *)
Record GitHubAPIBot :=
  mkBot { initial_files : option object; current_files : option object }.

Record world :=
  mkWorld { self : GitHubAPIBot; heap : gmap loc (gmap str value) }.

Inductive outcome (A : Type) :=
  | Ok (a : A) (w : world)
  | Raise (e : exn)
  | Diverge.
Arguments Ok {A} a w.
Arguments Raise {A} e.
Arguments Diverge {A}.

Definition M (A : Type) : Type := world → outcome A.

#[local] Instance M_ret : MRet M := λ A a w, Ok a w.
#[local] Instance M_bind : MBind M := λ A B f m w,
  match m w with
  | Ok a w' => f a w'
  | Raise e => Raise e
  | Diverge => Diverge
  end.

Definition raise {A} (e : exn) : M A := λ _, Raise e.

Definition finished {A} (o : option A) : M A := λ w,
  match o with
  | Some a => Ok a w
  | None => Diverge
  end.

Fixpoint for_each {A S : Type} (l : list A) (s : S) (body : S → A → M S) : M S :=
  match l with
  | [] => mret s
  | x :: l' => s' ← body s x; for_each l' s' body
  end.

(** [self.initial_files] and [self.current_files]. *)
Definition get_initial_files : M object := λ w,
  match initial_files (self w) with
  | Some o => Ok o w
  | None => Raise (AttributeError "GitHubAPIBot" "initial_files")
  end.

Definition get_current_files : M object := λ w,
  match current_files (self w) with
  | Some o => Ok o w
  | None => Raise (AttributeError "GitHubAPIBot" "current_files")
  end.

(** [set(o.keys())]. *)
Definition keys (o : object) : M (gset str) := λ w,
  match o with
  | Dict l => Ok (dom (heap w !!! l)) w
  | Value _ => Raise (AttributeError (type_name o) "keys")
  end.

(** [o[key]]. *)
Definition getitem (o : object) (key : str) : M value := λ w,
  match o with
  | Dict l =>
      match (heap w !!! l) !! key with
      | Some v => Ok v w
      | None => Raise (KeyError key)
      end
  | Value _ => Raise (TypeError (type_name o))
  end.

(** [v.splitlines(keepends=True)]. *)
Definition splitlines_keepends (v : value) : M (list str) :=
  match v with
  | PyStr s => mret (Py.splitlines_keepends s)
  | _ => raise (AttributeError (type_name (Value v)) "splitlines")
  end.

(** [self.initial_files[file_path]] and [self.current_files[file_path]]. *)
Definition initial_files_getitem (file_path : str) : M value :=
  o ← get_initial_files; getitem o file_path.

Definition current_files_getitem (file_path : str) : M value :=
  o ← get_current_files; getitem o file_path.

Definition get_changes : M (gset str * gset str * gset str) :=
  o ← get_initial_files; initial_keys ← keys o;
  o ← get_current_files; current_keys ← keys o;
  let added_files := current_keys ∖ initial_keys in
  let deleted_files := initial_keys ∖ current_keys in
  modified_files ←
    for_each (elements (initial_keys ∩ current_keys)) (∅ : gset str)
      (λ modified_files file_path,
         before ← initial_files_getitem file_path;
         after ← current_files_getitem file_path;
         mret (if bool_decide (before ≠ after)
               then modified_files ∪ {[file_path]} else modified_files));
  mret (added_files, modified_files, deleted_files).

(** The body of the loop [for file_path in sorted(deleted)]. *)
Definition render_deleted (patch_lines : list str) (file_path : str)
    : M (list str) :=
  let patch_lines := patch_lines ++ [Py.lit "--- a/" ++ file_path] in
  let patch_lines := patch_lines ++ [Py.lit "+++ /dev/null"] in
  content ← initial_files_getitem file_path;
  lines ← splitlines_keepends content;
  let patch_lines :=
    foldl (λ patch_lines line, patch_lines ++ [Py.lit "-" ++ Py.rstrip line])
          patch_lines lines in
  mret (patch_lines ++ [[]]).

(** The body of the loop [for file_path in sorted(modified)]. *)
Definition render_modified (patch_lines : list str) (file_path : str)
    : M (list str) :=
  let patch_lines := patch_lines ++ [Py.lit "--- a/" ++ file_path] in
  let patch_lines := patch_lines ++ [Py.lit "+++ b/" ++ file_path] in
  original ← initial_files_getitem file_path;
  original_lines ← splitlines_keepends original;
  new ← current_files_getitem file_path;
  new_lines ← splitlines_keepends new;
  diff ← finished (difflib.unified_diff original_lines new_lines 3 []);
  let patch_lines :=
    if bool_decide (2 < length diff) then patch_lines ++ drop 2 diff
    else patch_lines in
  mret (patch_lines ++ [[]]).

(** The body of the loop [for file_path in sorted(added)]. *)
Definition render_added (patch_lines : list str) (file_path : str)
    : M (list str) :=
  let patch_lines := patch_lines ++ [Py.lit "--- /dev/null"] in
  let patch_lines := patch_lines ++ [Py.lit "+++ b/" ++ file_path] in
  content ← current_files_getitem file_path;
  lines ← splitlines_keepends content;
  let patch_lines :=
    foldl (λ patch_lines line, patch_lines ++ [Py.lit "+" ++ Py.rstrip line])
          patch_lines lines in
  mret (patch_lines ++ [[]]).

Definition generate_patch_lines : M (list str) :=
  '(added, modified, deleted) ← get_changes;
  let patch_lines : list str := [] in
  patch_lines ← for_each (Py.sorted deleted) patch_lines render_deleted;
  patch_lines ← for_each (Py.sorted modified) patch_lines render_modified;
  patch_lines ← for_each (Py.sorted added) patch_lines render_added;
  mret patch_lines.

Definition generate_patch : M str :=
  patch_lines ← generate_patch_lines;
  mret (Py.join [Py.LF] patch_lines).

(** [summary[category][file_path] = content]. *)
Definition summary_set (summary : gmap str (gmap str value))
    (category file_path : str) (content : value)
    : M (gmap str (gmap str value)) :=
  match summary !! category with
  | Some inner => mret (<[category := <[file_path := content]> inner]> summary)
  | None => raise (KeyError category)
  end.

Definition get_changed_files_summary : M (gmap str (gmap str value)) :=
  '(added, modified, deleted) ← get_changes;
  let summary : gmap str (gmap str value) :=
    <[Py.lit "added" := ∅]> (<[Py.lit "modified" := ∅]>
      (<[Py.lit "deleted" := ∅]> ∅)) in
  summary ←
    for_each (elements added) summary
      (λ summary file_path,
         content ← current_files_getitem file_path;
         summary_set summary (Py.lit "added") file_path content);
  summary ←
    for_each (elements modified) summary
      (λ summary file_path,
         content ← current_files_getitem file_path;
         summary_set summary (Py.lit "modified") file_path content);
  summary ←
    for_each (elements deleted) summary
      (λ summary file_path,
         content ← initial_files_getitem file_path;
         summary_set summary (Py.lit "deleted") file_path content);
  mret summary.

(** The mapping behind an attribute that holds a dictionary. *)
Definition mapping (w : world) (a : option object) : gmap str value :=
  match a with
  | Some (Dict l) => heap w !!! l
  | _ => ∅
  end.

Definition before (w : world) : gmap str value :=
  mapping w (initial_files (self w)).
Definition after (w : world) : gmap str value :=
  mapping w (current_files (self w)).



(** The classification of two mappings with arbitrary entries. *)
Definition classify (before after : gmap str value)
    : gset str * gset str * gset str :=
  (dom after ∖ dom before,
   filter (λ p, before !! p ≠ after !! p) (dom before ∩ dom after),
   dom before ∖ dom after).



Definition empty_summary : gmap str (gmap str value) :=
  <[Py.lit "added" := ∅]> (<[Py.lit "modified" := ∅]>
    (<[Py.lit "deleted" := ∅]> ∅)).

End Dyn.

(** A world of the annotated class as a world of [Dyn]: the attributes hold
    dictionaries and every entry is a [str]. *)
Definition embed (w : world) : Dyn.world :=
  Dyn.mkWorld
    (Dyn.mkBot (Some (Dyn.Dict (initial_files (self w))))
               (Some (Dyn.Dict (current_files (self w)))))
    ((λ d : dict, Dyn.PyStr <$> d) <$> heap w).

Definition embed_exn (e : exn) : Dyn.exn :=
  match e with
  | KeyError key => Dyn.KeyError key
  end.

Definition embed_outcome {A B} (f : A → B) (o : outcome A) : Dyn.outcome B :=
  match o with
  | Ok a w => Dyn.Ok (f a) (embed w)
  | Raise e => Dyn.Raise (embed_exn e)
  | Diverge => Dyn.Diverge
  end.

(** The two embeddings of a method agree: on the worlds of the annotated
    class the method of [Dyn] has the outcome of the annotated method, the
    result seen through [f]. *)
Definition agree {A B} (f : A → B) (m : M A) (dm : Dyn.M B) : Prop :=
  ∀ w, dm (embed w) = embed_outcome f (m w).



(** ** Invariants of the loops of [difflib] *)

(** The bounds of a match within the window it was searched in. *)
Definition in_window (alo ahi blo bhi : Z) (m : Z * Z * Z) : Prop :=
  (alo ≤ m.1.1 ∧ blo ≤ m.1.2 ∧ 0 ≤ m.2 ∧ m.1.1 + m.2 ≤ ahi ∧ m.1.2 + m.2 ≤ bhi)%Z.

(** The lengths recorded for row [i]: matches that end in row [i] and
    start inside the window. *)
Definition row_ok (alo blo i : Z) (j2len : gmap Z Z) : Prop :=
  ∀ j k, j2len !! j = Some k → (1 ≤ k ∧ k ≤ j - blo + 1 ∧ k ≤ i - alo + 1)%Z.

(** A window of the queue of [get_matching_blocks]. *)
Definition window_ok (q : Z * Z * Z * Z) : Prop :=
  let '(alo, ahi, blo, bhi) := q in (alo ≤ ahi ∧ blo ≤ bhi)%Z.

(** The work that a queue of windows still stands for. *)
Definition work (queue : list (Z * Z * Z * Z)) : nat :=
  foldr (λ '(alo, ahi, _, _) n, 2 * Z.to_nat (ahi - alo) + 1 + n) 0 queue.

(** ** The matching blocks: matches, apart from each other, in order *)

(** A block [(i, j, k)] is a match: [a[i+t] == b[j+t]] for [0 <= t < k]. *)
Definition is_match (a b : list str) (m : Z * Z * Z) : Prop :=
  ∀ t, (0 ≤ t < m.2)%Z → difflib.item a (m.1.1 + t) = difflib.item b (m.1.2 + t).

(** Every index that [b2j] lists for an element holds that element. *)
Definition b2j_sound (b : list str) (b2j : gmap str (list Z)) : Prop :=
  ∀ x js, b2j !! x = Some js → Forall (λ j, difflib.item b j = x) js.

(** The lengths recorded for row [i] are lengths of matches that end in
    row [i]. *)
Definition row_sound (a b : list str) (i : Z) (j2len : gmap Z Z) : Prop :=
  ∀ j k, j2len !! j = Some k →
         ∀ t, (0 ≤ t < k)%Z → difflib.item a (i - t) = difflib.item b (j - t).

(** Windows of the two sequences: [x] ends where [y] begins or earlier, in
    both sequences; two windows are apart when one lies before the other. *)
Definition lies_before (x y : Z * Z * Z * Z) : Prop :=
  let '(_, ahi, _, bhi) := x in
  let '(alo, _, blo, _) := y in (ahi ≤ alo ∧ bhi ≤ blo)%Z.

Definition apart (x y : Z * Z * Z * Z) : Prop :=
  lies_before x y ∨ lies_before y x.

(** Window [x] lies within window [w]. *)
Definition inside (w x : Z * Z * Z * Z) : Prop :=
  let '(alo, ahi, blo, bhi) := w in
  let '(alo', ahi', blo', bhi') := x in
  (alo ≤ alo' ∧ ahi' ≤ ahi ∧ blo ≤ blo' ∧ bhi' ≤ bhi)%Z.

(** The window that a block covers. *)
Definition span (m : Z * Z * Z) : Z * Z * Z * Z :=
  (m.1.1, m.1.1 + m.2, m.1.2, m.1.2 + m.2)%Z.

(** [R] holds between every element and every later one. *)
Fixpoint pairwise {A : Type} (R : A → A → Prop) (l : list A) : Prop :=
  match l with
  | [] => True
  | x :: l' => Forall (R x) l' ∧ pairwise R l'
  end.

(** A window within the two sequences. *)
Definition window_in (la lb : Z) (q : Z * Z * Z * Z) : Prop :=
  let '(alo, ahi, blo, bhi) := q in
  (0 ≤ alo ∧ alo ≤ ahi ∧ ahi ≤ la ∧ 0 ≤ blo ∧ blo ≤ bhi ∧ bhi ≤ lb)%Z.

(** A block found by the loop: a match of at least one element within the
    two sequences. *)
Definition block_good (a b : list str) (m : Z * Z * Z) : Prop :=
  is_match a b m ∧ (1 ≤ m.2)%Z ∧
  in_window 0 (Z.of_nat (length a)) 0 (Z.of_nat (length b)) m.

(** The state of the loop of [get_matching_blocks]: the windows still to
    search and the blocks found are pairwise apart. *)
Definition gmb_inv (a b : list str)
    (st : list (Z * Z * Z * Z) * list (Z * Z * Z)) : Prop :=
  Forall (window_in (Z.of_nat (length a)) (Z.of_nat (length b))) st.1 ∧
  Forall (block_good a b) st.2 ∧
  pairwise apart (st.1 ++ (span <$> st.2)).

(** Blocks in ascending order from [(i, j)] on, each a match within the
    two sequences. *)
Fixpoint chain (a b : list str) (i j : Z) (bl : list (Z * Z * Z)) : Prop :=
  match bl with
  | [] => True
  | m :: bl' =>
      (i ≤ m.1.1 ∧ j ≤ m.1.2 ∧ 0 ≤ m.2 ∧
       m.1.1 + m.2 ≤ Z.of_nat (length a) ∧
       m.1.2 + m.2 ≤ Z.of_nat (length b))%Z ∧
      is_match a b m ∧
      chain a b (m.1.1 + m.2) (m.1.2 + m.2) bl'
  end.

(** Where the last block of a list ends. *)
Definition end_of (p : Z * Z) (bl : list (Z * Z * Z)) : Z * Z :=
  foldl (λ _ m, (m.1.1 + m.2, m.1.2 + m.2)%Z) p bl.

(** An opcode that stands for a change: [replace] and [delete] take at
    least one element of [a], [insert] gives at least one element of [b]. *)
Definition changed_opcode (a b : list str) (c : difflib.opcode) : Prop :=
  let '(tag, i1, i2, j1, j2) := c in
  match tag with
  | difflib.replace | difflib.delete =>
      (0 ≤ i1 ∧ i1 < i2 ∧ i2 ≤ Z.of_nat (length a))%Z
  | difflib.insert => (0 ≤ j1 ∧ j1 < j2 ∧ j2 ≤ Z.of_nat (length b))%Z
  | difflib.equal => False
  end.

(** ** A sequence against itself *)

(** The indices of [x] in [b], in ascending order. *)
Definition positions (b : list str) (x : str) : list Z :=
  (filter (λ p : Z * str, p.2 = x) (zip (seqZ 0 (Z.of_nat (length b))) b)).*1.

(** The number of elements up to index [m - 1] of [a], without gap, that
    [b2j] has a list for (the elements that are not "popular"). *)
Fixpoint run_length (b2j : gmap str (list Z)) (a : list str) (m : nat) : Z :=
  match m with
  | O => 0
  | S m' =>
      if bool_decide (is_Some (b2j !! difflib.item a (Z.of_nat m')))
      then (run_length b2j a m' + 1)%Z else 0%Z
  end.

(** A sequence against itself, before row [m] of [find_longest_match]: the
    lengths recorded for row [m - 1] are bounded by the runs, the length on
    the diagonal is the run, and the best match so far lies on the diagonal
    and is at least as long as every run so far. *)
Definition row_diag (a : list str) (m : nat) (j2len : gmap Z Z) : Prop :=
  (∀ j k, j2len !! j = Some k →
          (0 ≤ j ∧ 1 ≤ k ∧ k ≤ run_length (difflib.chain_b a) a (Z.to_nat (j + 1))
           ∧ k ≤ run_length (difflib.chain_b a) a m)%Z) ∧
  (∀ m', m = S m' →
         is_Some (difflib.chain_b a !! difflib.item a (Z.of_nat m')) →
         j2len !! Z.of_nat m' = Some (run_length (difflib.chain_b a) a m)).

Definition best_diag (a : list str) (m : nat) (best : Z * Z * Z) : Prop :=
  best.1.1 = best.1.2 ∧
  ∀ m', m' ≤ m → (run_length (difflib.chain_b a) a m' ≤ best.2)%Z.

(** ** Termination of the bounded loops *)

Section while_loop.
Context {S : Type} (Inv : S → Prop) (mu : S → nat).
Context (cond : S → bool) (body : S → option S).
Hypothesis step : ∀ s, Inv s → cond s = true →
  ∃ s', body s = Some s' ∧ Inv s' ∧ mu s' < mu s.

Lemma while_finishes fuel s :
  Inv s → mu s ≤ fuel →
  ∃ s', Py.while fuel cond body s = Some s' ∧ Inv s' ∧ cond s' = false.
Proof.
  revert s. induction fuel as [|fuel IH]; intros s Hs Hmu; simpl.
  - destruct (cond s) eqn:Hc; [|by eauto].
    destruct (step s Hs Hc) as (s' & _ & _ & Hlt). lia.
  - destruct (cond s) eqn:Hc; [|by eauto].
    destruct (step s Hs Hc) as (s' & -> & Hs' & Hlt). simpl.
    apply IH; [done|lia].
Qed.
End while_loop.

Module difflib_facts.
Import difflib.

Lemma flm_row_ok js : ∀ i alo ahi blo bhi j2len newj2len best,
  (alo ≤ i < ahi)%Z →
  row_ok alo blo (i - 1) j2len → row_ok alo blo i newj2len →
  in_window alo ahi blo bhi best →
  row_ok alo blo i (flm_row js i blo bhi j2len newj2len best).1 ∧
  in_window alo ahi blo bhi (flm_row js i blo bhi j2len newj2len best).2.
Proof.
  induction js as [|j js IH]; intros i alo ahi blo bhi j2len newj2len best Hi Hold Hnew Hbest;
    simpl; [done|].
  case_bool_decide as Hlo; [by apply IH|].
  case_bool_decide as Hhi; [done|].
  assert (1 ≤ default 0 (j2len !! (j - 1)) + 1 ∧
          default 0 (j2len !! (j - 1)) + 1 ≤ j - blo + 1 ∧
          default 0 (j2len !! (j - 1)) + 1 ≤ i - alo + 1)%Z as Hk.
  { destruct (j2len !! (j - 1)%Z) as [k|] eqn:Hj; simpl; [|lia].
    apply Hold in Hj. lia. }
  apply IH; [done|done| |].
  - intros j' k'. rewrite lookup_insert. case_decide; [|by apply Hnew].
    intros [= <-]. lia.
  - case_bool_decide; [|done]. unfold in_window; simpl. lia.
Qed.

Lemma flm_scan_in_window a b2j alo ahi blo bhi :
  (alo ≤ ahi)%Z → (blo ≤ bhi)%Z →
  in_window alo ahi blo bhi (flm_scan a b2j alo ahi blo bhi).
Proof.
  intros Ha Hb. unfold flm_scan.
  assert (∀ n : nat, (alo + Z.of_nat n ≤ ahi)%Z →
    let r := foldl (λ '(j2len, best) i,
              flm_row (default [] (b2j !! item a i)) i blo bhi j2len ∅ best)
              (∅, (alo, blo, 0%Z)) (seqZ alo (Z.of_nat n)) in
    row_ok alo blo (alo + Z.of_nat n - 1) r.1 ∧ in_window alo ahi blo bhi r.2) as H.
  { induction n as [|n IH]; intros Hn.
    - simpl. split; [intros j k; by rewrite lookup_empty|].
      unfold in_window; simpl; lia.
    - rewrite seqZ_S, foldl_snoc. simpl.
      destruct IH as [IH1 IH2]; [lia|].
      destruct (foldl _ _ (seqZ alo (Z.of_nat n))) as [j2len best]. simpl in *.
      replace (alo + Z.of_nat (S n) - 1)%Z with (alo + Z.of_nat n)%Z by lia.
      apply flm_row_ok with (ahi := ahi); [lia| |intros j k; by rewrite lookup_empty|done].
      done. }
  specialize (H (Z.to_nat (ahi - alo))). rewrite Z2Nat.id in H by lia.
  apply H. lia.
Qed.

Lemma find_longest_match_in_window a b b2j alo ahi blo bhi :
  (alo ≤ ahi)%Z → (blo ≤ bhi)%Z →
  ∃ m, find_longest_match a b b2j alo ahi blo bhi = Some m ∧
       in_window alo ahi blo bhi m.
Proof.
  intros Ha Hb. unfold find_longest_match.
  pose proof (flm_scan_in_window a b2j alo ahi blo bhi Ha Hb) as Hscan.
  set (best := flm_scan a b2j alo ahi blo bhi) in *.
  edestruct (while_finishes (in_window alo ahi blo bhi)
               (λ m, Z.to_nat (m.1.1 - alo))) as (m1 & -> & Hm1 & _);
    [| exact Hscan | reflexivity |].
  { intros [[i j] k] Hw Hc. eexists; split; [done|].
    rewrite !andb_true_iff, !bool_decide_eq_true in Hc.
    unfold in_window in *; simpl in *. split; lia. }
  simpl.
  edestruct (while_finishes (in_window alo ahi blo bhi)
               (λ m, Z.to_nat (ahi - (m.1.1 + m.2)))) as (m2 & -> & Hm2 & _);
    [| exact Hm1 | reflexivity |].
  { intros [[i j] k] Hw Hc. eexists; split; [done|].
    rewrite !andb_true_iff, !bool_decide_eq_true in Hc.
    unfold in_window in *; simpl in *. split; lia. }
  eauto.
Qed.

Lemma get_matching_blocks_total a b :
  ∃ blocks, get_matching_blocks a b = Some blocks.
Proof.
  unfold get_matching_blocks.
  destruct (while_finishes
    (λ st : list (Z * Z * Z * Z) * list (Z * Z * Z), Forall window_ok st.1)
    (λ st, work st.1)
    (λ st : list (Z * Z * Z * Z) * list (Z * Z * Z), bool_decide (st.1 ≠ []))
    (gmb_body a b (chain_b b))) with
    (fuel := 2 * length a + 1)
    (s := ([(0, Z.of_nat (length a), 0, Z.of_nat (length b))%Z],
           @nil (Z * Z * Z))) as ([q mbs] & Hrun & _ & _).
  - intros [queue mbs] Hq Hc. apply bool_decide_eq_true in Hc. simpl in *.
    destruct queue as [|[[[alo ahi] blo] bhi] queue]; [done|].
    apply Forall_cons in Hq as [[Ha Hb] Hq].
    destruct (find_longest_match_in_window a b (chain_b b) alo ahi blo bhi Ha Hb)
      as ([[i j] k] & Hm & Hw).
    unfold gmb_body. rewrite Hm. simpl.
    unfold in_window in Hw; simpl in Hw.
    case_bool_decide as Hk; [|eexists; split; [done|]; simpl; split; [done|lia]].
    eexists; split; [done|]. simpl.
    destruct (bool_decide (i + k < ahi ∧ j + k < bhi)%Z) eqn:H1;
      destruct (bool_decide (alo < i ∧ blo < j)%Z) eqn:H2;
      try apply bool_decide_eq_true in H1; try apply bool_decide_eq_true in H2;
      (split;
       [ repeat (apply Forall_cons; split); first [exact Hq | simpl; lia]
       | cbn [work foldr]; fold (work queue); lia ]).
  - cbn [fst]. constructor; [simpl; lia | constructor].
  - cbn [work foldr fst]. lia.
  - rewrite Hrun. simpl. eauto.
Qed.

Lemma unified_diff_total a b n lineterm :
  ∃ diff, unified_diff a b n lineterm = Some diff.
Proof.
  unfold unified_diff, get_grouped_opcodes, get_opcodes.
  destruct (get_matching_blocks_total a b) as [blocks ->]. simpl.
  destruct (foldl _ _ _) as [yielded group]. simpl. eauto.
Qed.

End difflib_facts.

(** ** The work-list loop of [get_all_files] *)

Lemma entries_Dir path listing :
  entries (Dir path listing) = S (entries_list listing).
Proof.
  reflexivity.
Qed.

Lemma entries_list_app l1 l2 :
  entries_list (l1 ++ l2) = entries_list l1 + entries_list l2.
Proof. induction l1 as [|c l1 IH]; simpl; [done|rewrite IH; lia]. Qed.

Lemma get_all_files_loop_finishes root :
  ∃ files,
    Py.while (entries_list root)
      (λ st : list ContentFile * dict, bool_decide (st.1 ≠ []))
      get_all_files_body (root, ∅) = Some ([], files).
Proof.
  destruct (while_finishes (λ _ : list ContentFile * dict, True)
              (λ st, entries_list st.1)
              (λ st : list ContentFile * dict, bool_decide (st.1 ≠ []))
              get_all_files_body) with
    (fuel := entries_list root) (s := (root, (∅ : dict)))
    as ([contents files] & Hrun & _ & Hc).
  - intros [contents files] _ Hc. apply bool_decide_eq_true in Hc.
    cbn [fst] in *.
    destruct contents as [|[path content|path listing] contents]; [done| |].
    + eexists; split; [reflexivity|]. split; [exact I|].
      cbn [fst entries_list foldr entries]. lia.
    + eexists; split; [reflexivity|]. split; [exact I|]. cbn [fst].
      rewrite entries_list_app. cbn [entries_list foldr].
      rewrite entries_Dir. fold (entries_list contents). lia.
  - exact I.
  - reflexivity.
  - apply bool_decide_eq_false in Hc. cbn [fst] in Hc.
    destruct contents as [|c contents]; [by eauto|].
    exfalso. apply Hc. discriminate.
Qed.

Lemma snapshot_is_loop_result root :
  Py.while (entries_list root)
    (λ st : list ContentFile * dict, bool_decide (st.1 ≠ []))
    get_all_files_body (root, ∅) = Some ([], snapshot root).
Proof.
  unfold snapshot.
  destruct (get_all_files_loop_finishes root) as [files ->]. done.
Qed.

Lemma get_all_files_ok root w :
  get_all_files root w
  = Ok (fresh (dom (heap w)))
       (mkWorld (self w) (<[fresh (dom (heap w)) := snapshot root]> (heap w))).
Proof.
  unfold get_all_files, snapshot, mbind, M_bind, finished.
  destruct (get_all_files_loop_finishes root) as [files ->]. done.
Qed.
(** ** The method monad *)

Lemma bind_Ok {A B} (m : M A) (f : A → M B) w a w' :
  m w = Ok a w' → (m ≫= f) w = f a w'.
Proof. intros H. unfold mbind, M_bind. by rewrite H. Qed.

Lemma for_each_ok {A S} (f : S → A → S) (P : A → Prop) (body : S → A → M S)
    w (l : list A) (s : S) :
  Forall P l → (∀ s x, P x → body s x w = Ok (f s x) w) →
  for_each l s body w = Ok (foldl f s l) w.
Proof.
  intros Hl Hbody. revert s.
  induction Hl as [|x l Hx Hl IH]; intros s; simpl; [done|].
  rewrite (bind_Ok _ _ _ _ _ (Hbody s x Hx)). apply IH.
Qed.

Lemma initial_files_getitem_ok w p v :
  before w !! p = Some v → initial_files_getitem p w = Ok v w.
Proof.
  intros H. unfold initial_files_getitem.
  rewrite (bind_Ok get_initial_files _ w _ w eq_refl).
  rewrite (bind_Ok (read _) _ w _ w eq_refl).
  unfold getitem. fold (before w). by rewrite H.
Qed.

Lemma current_files_getitem_ok w p v :
  after w !! p = Some v → current_files_getitem p w = Ok v w.
Proof.
  intros H. unfold current_files_getitem.
  rewrite (bind_Ok get_current_files _ w _ w eq_refl).
  rewrite (bind_Ok (read _) _ w _ w eq_refl).
  unfold getitem. fold (after w). by rewrite H.
Qed.

(** ** The classifier *)

Lemma elem_of_foldl_add (Q : str → bool) (l : list str) (acc : gset str) p :
  p ∈ foldl (λ (m : gset str) x, if Q x then m ∪ {[x]} else m) acc l
  ↔ p ∈ acc ∨ (p ∈ l ∧ Q p = true).
Proof.
  revert acc. induction l as [|x l IH]; intros acc; simpl.
  - rewrite elem_of_nil. tauto.
  - rewrite IH, elem_of_cons. destruct (Q x) eqn:Hx.
    + rewrite elem_of_union, elem_of_singleton. split.
      * intros [[? | ->] | [? ?]]; eauto.
      * intros [? | [[-> | ?] ?]]; eauto.
    + split.
      * intros [? | [? ?]]; eauto.
      * intros [? | [[-> | ?] ?]]; eauto. congruence.
Qed.

Lemma get_changes_ok w :
  get_changes w = Ok (classify (before w) (after w)) w.
Proof.
  unfold get_changes.
  rewrite (bind_Ok get_initial_files _ w _ w eq_refl).
  rewrite (bind_Ok (read _) _ w _ w eq_refl).
  rewrite (bind_Ok get_current_files _ w _ w eq_refl).
  rewrite (bind_Ok (read _) _ w _ w eq_refl).
  fold (before w) (after w).
  erewrite bind_Ok; [reflexivity|].
  rewrite (for_each_ok
    (λ (m : gset str) p,
       if bool_decide (before w !! p ≠ after w !! p) then m ∪ {[p]} else m)
    (λ p, p ∈ dom (before w) ∧ p ∈ dom (after w))).
  - f_equal. unfold classify. f_equal. f_equal.
    apply set_eq. intros p.
    rewrite (elem_of_foldl_add (λ p, bool_decide (before w !! p ≠ after w !! p))).
    rewrite elem_of_filter, elem_of_elements, bool_decide_eq_true.
    rewrite elem_of_empty. tauto.
  - apply Forall_forall. intros p Hp.
    apply elem_of_elements, elem_of_intersection in Hp. done.
  - intros m p [Hb Ha].
    apply elem_of_dom in Hb as [x Hx]. apply elem_of_dom in Ha as [y Hy].
    rewrite (bind_Ok _ _ _ _ _ (initial_files_getitem_ok w p x Hx)).
    rewrite (bind_Ok _ _ _ _ _ (current_files_getitem_ok w p y Hy)).
    rewrite Hx, Hy. unfold mret, M_ret. f_equal.
    apply (f_equal (λ b : bool, if b then m ∪ {[p]} else m)).
    apply bool_decide_ext. split; congruence.
Qed.

(** ** Sorting the paths *)

Lemma str_leb_refl a : Py.str_leb a a = true.
Proof.
  induction a as [|x a IH]; simpl; [done|].
  rewrite N.ltb_irrefl, N.eqb_refl. done.
Qed.

Lemma str_leb_total a b : Py.str_leb a b = true ∨ Py.str_leb b a = true.
Proof.
  revert b. induction a as [|x a IH]; intros [|y b]; simpl; auto.
  destruct (N.ltb_spec x y), (N.ltb_spec y x); auto; try lia.
  assert (x = y) as -> by lia. rewrite N.eqb_refl. apply IH.
Qed.

Lemma str_leb_trans a b c :
  Py.str_leb a b = true → Py.str_leb b c = true → Py.str_leb a c = true.
Proof.
  revert b c. induction a as [|x a IH]; intros [|y b] [|z c]; simpl; auto;
    try discriminate.
  destruct (N.ltb_spec x y), (N.ltb_spec y z), (N.ltb_spec x z); auto; try lia;
    destruct (N.eqb_spec x y), (N.eqb_spec y z), (N.eqb_spec x z);
    try discriminate; try lia; eauto.
Qed.

Lemma str_leb_antisym a b :
  Py.str_leb a b = true → Py.str_leb b a = true → a = b.
Proof.
  revert b. induction a as [|x a IH]; intros [|y b]; simpl; auto;
    try discriminate.
  destruct (N.ltb_spec x y), (N.ltb_spec y x); try lia;
    destruct (N.eqb_spec x y), (N.eqb_spec y x);
    try discriminate; try lia; try congruence.
  intros H1 H2. f_equal; [done|]. by apply IH.
Qed.

#[global] Instance str_le_total : Total Py.str_le.
Proof. intros a b. apply str_leb_total. Qed.

#[global] Instance str_le_trans : Transitive Py.str_le.
Proof. intros a b c. apply str_leb_trans. Qed.

#[global] Instance str_le_antisym : AntiSymm (=) Py.str_le.
Proof. intros a b. apply str_leb_antisym. Qed.

Lemma elem_of_sorted (X : gset str) p : p ∈ Py.sorted X ↔ p ∈ X.
Proof.
  unfold Py.sorted. rewrite merge_sort_Permutation. apply elem_of_elements.
Qed.

Lemma NoDup_sorted (X : gset str) : NoDup (Py.sorted X).
Proof.
  unfold Py.sorted. rewrite merge_sort_Permutation. apply NoDup_elements.
Qed.

Lemma StronglySorted_sorted (X : gset str) :
  StronglySorted Py.str_le (Py.sorted X).
Proof. apply StronglySorted_merge_sort; apply _. Qed.

(** The ordering law: the paths of a category come in strictly ascending
    order, each once. *)
Lemma sorted_strictly_ascending (X : gset str) :
  StronglySorted (λ a b, Py.str_le a b ∧ a ≠ b) (Py.sorted X).
Proof.
  pose proof (StronglySorted_sorted X) as Hs.
  pose proof (NoDup_sorted X) as Hn.
  induction Hs as [|a l Hs IH Hall]; [constructor|].
  apply NoDup_cons in Hn as [Ha Hn].
  constructor; [by apply IH|].
  apply Forall_forall. intros b Hb. split.
  - by apply (proj1 (Forall_forall _ _) Hall).
  - intros ->. by apply Ha.
Qed.

(** ** The three loops of [generate_patch] *)

Lemma foldl_snoc_fmap {A B} (g : A → B) (l : list A) (acc : list B) :
  foldl (λ acc x, acc ++ [g x]) acc l = acc ++ (g <$> l).
Proof.
  revert acc. induction l as [|x l IH]; intros acc; simpl.
  - by rewrite app_nil_r.
  - rewrite IH. by rewrite <- app_assoc.
Qed.

Lemma foldl_app_concat {A B} (g : A → list B) (l : list A) (acc : list B) :
  foldl (λ acc x, acc ++ g x) acc l = acc ++ concat (g <$> l).
Proof.
  revert acc. induction l as [|x l IH]; intros acc; simpl.
  - by rewrite app_nil_r.
  - rewrite IH. by rewrite <- app_assoc.
Qed.

Lemma render_deleted_ok w patch_lines p content :
  before w !! p = Some content →
  render_deleted patch_lines p w = Ok (patch_lines ++ deleted_block p content) w.
Proof.
  intros H. unfold render_deleted.
  rewrite (bind_Ok _ _ _ _ _ (initial_files_getitem_ok w p content H)).
  unfold mret, M_ret. f_equal. rewrite foldl_snoc_fmap.
  unfold deleted_block. by rewrite <- !app_assoc.
Qed.

Lemma render_added_ok w patch_lines p content :
  after w !! p = Some content →
  render_added patch_lines p w = Ok (patch_lines ++ added_block p content) w.
Proof.
  intros H. unfold render_added.
  rewrite (bind_Ok _ _ _ _ _ (current_files_getitem_ok w p content H)).
  unfold mret, M_ret. f_equal. rewrite foldl_snoc_fmap.
  unfold added_block. by rewrite <- !app_assoc.
Qed.

Lemma content_diff_total original new :
  ∃ diff, content_diff original new = Some diff.
Proof. apply difflib_facts.unified_diff_total. Qed.

Lemma render_modified_ok w patch_lines p original new diff :
  before w !! p = Some original → after w !! p = Some new →
  content_diff original new = Some diff →
  render_modified patch_lines p w = Ok (patch_lines ++ modified_block p diff) w.
Proof.
  intros Hb Ha Hd. unfold render_modified.
  rewrite (bind_Ok _ _ _ _ _ (initial_files_getitem_ok w p original Hb)).
  rewrite (bind_Ok _ _ _ _ _ (current_files_getitem_ok w p new Ha)).
  unfold content_diff in Hd. rewrite (bind_Ok _ _ w diff w).
  2: { unfold finished. by rewrite Hd. }
  unfold mret, M_ret. f_equal. unfold modified_block.
  case_bool_decide as Hlen.
  - by rewrite <- !app_assoc.
  - rewrite (drop_ge diff 2) by lia. by rewrite <- !app_assoc.
Qed.

Lemma for_each_blocks (g : str → list str) (P : str → Prop)
    (body : list str → str → M (list str)) w (l : list str) (pl : list str) :
  Forall P l → (∀ pl p, P p → body pl p w = Ok (pl ++ g p) w) →
  for_each l pl body w = Ok (pl ++ concat (g <$> l)) w.
Proof.
  intros Hl Hbody. rewrite <- foldl_app_concat.
  by apply (for_each_ok _ P).
Qed.

Lemma generate_patch_lines_ok w :
  generate_patch_lines w = Ok (patch_blocks (before w) (after w)) w.
Proof.
  unfold generate_patch_lines.
  rewrite (bind_Ok _ _ _ _ _ (get_changes_ok w)). unfold classify.
  erewrite bind_Ok.
  2: { apply (for_each_blocks (λ p, deleted_block p (before w !!! p))
                (λ p, p ∈ dom (before w))).
       - apply Forall_forall. intros p Hp%elem_of_sorted.
         by apply elem_of_difference in Hp as [? _].
       - intros pl p [c Hc]%elem_of_dom.
         rewrite (render_deleted_ok w pl p c Hc).
         by rewrite (lookup_total_correct _ _ _ Hc). }
  erewrite bind_Ok.
  2: { apply (for_each_blocks
                (λ p, modified_block p
                   (default [] (content_diff (before w !!! p) (after w !!! p))))
                (λ p, p ∈ dom (before w) ∧ p ∈ dom (after w))).
       - apply Forall_forall. intros p Hp%elem_of_sorted.
         apply elem_of_filter in Hp as [_ Hp].
         by apply elem_of_intersection in Hp.
       - intros pl p [[x Hx]%elem_of_dom [y Hy]%elem_of_dom].
         destruct (content_diff_total x y) as [diff Hd].
         rewrite (render_modified_ok w pl p x y diff Hx Hy Hd).
         rewrite (lookup_total_correct _ _ _ Hx), (lookup_total_correct _ _ _ Hy).
         by rewrite Hd. }
  erewrite bind_Ok.
  2: { apply (for_each_blocks (λ p, added_block p (after w !!! p))
                (λ p, p ∈ dom (after w))).
       - apply Forall_forall. intros p Hp%elem_of_sorted.
         by apply elem_of_difference in Hp as [? _].
       - intros pl p [c Hc]%elem_of_dom.
         rewrite (render_added_ok w pl p c Hc).
         by rewrite (lookup_total_correct _ _ _ Hc). }
  unfold mret, M_ret, patch_blocks, classify.
  by rewrite app_nil_l, app_assoc.
Qed.

Lemma generate_patch_ok w :
  generate_patch w = Ok (Py.join [Py.LF] (patch_blocks (before w) (after w))) w.
Proof.
  unfold generate_patch.
  by rewrite (bind_Ok _ _ _ _ _ (generate_patch_lines_ok w)).
Qed.

(** ** Equal snapshots *)

Lemma classify_same (d : dict) : classify d d = (∅, ∅, ∅).
Proof.
  unfold classify. f_equal; [f_equal|].
  - apply set_eq. intros p. rewrite elem_of_difference, elem_of_empty. tauto.
  - apply set_eq. intros p. rewrite elem_of_filter, elem_of_empty. tauto.
  - apply set_eq. intros p. rewrite elem_of_difference, elem_of_empty. tauto.
Qed.

Lemma sorted_empty : Py.sorted ∅ = [].
Proof. unfold Py.sorted. by rewrite elements_empty. Qed.

Lemma patch_blocks_same (d : dict) : patch_blocks d d = [].
Proof.
  unfold patch_blocks. rewrite classify_same, sorted_empty. reflexivity.
Qed.

Lemma same_snapshots_empty_result w :
  before w = after w →
  get_changes w = Ok (∅, ∅, ∅) w ∧
  generate_patch w = Ok [] w ∧
  get_changed_files_summary w = Ok empty_summary w.
Proof.
  intros Heq.
  assert (get_changes w = Ok (∅, ∅, ∅) w) as Hc.
  { rewrite get_changes_ok, Heq. by rewrite classify_same. }
  split; [done|]. split.
  - rewrite generate_patch_ok, Heq. by rewrite patch_blocks_same.
  - unfold get_changed_files_summary.
    rewrite (bind_Ok _ _ _ _ _ Hc). rewrite elements_empty. reflexivity.
Qed.

(** ** The heap under the session operations *)

Lemma init_before_after (h : gmap loc dict) :
  before (__init__ h) = ∅ ∧ after (__init__ h) = ∅.
Proof.
  unfold before, after, __init__. cbn [self heap initial_files current_files].
  set (l1 := fresh (dom h)).
  set (l2 := fresh (dom (<[l1 := (∅ : dict)]> h))).
  assert (l1 ≠ l2) as Hne.
  { intros Heq. apply (is_fresh (dom (<[l1 := (∅ : dict)]> h))).
    fold l2. rewrite <- Heq. rewrite dom_insert_L. set_solver. }
  split.
  - rewrite lookup_total_insert_ne by done. by rewrite lookup_total_insert_eq.
  - by rewrite lookup_total_insert_eq.
Qed.

Lemma initialize_tracking_ok root w :
  let l1 := fresh (dom (heap w)) in
  let h1 := <[l1 := snapshot root]> (heap w) in
  let l2 := fresh (dom h1) in
  initialize_tracking root w
  = Ok () (mkWorld (mkBot l1 l2) (<[l2 := snapshot root]> h1)).
Proof.
  intros l1 h1 l2. unfold initialize_tracking.
  rewrite (bind_Ok _ _ _ _ _ (get_all_files_ok root w)). fold l1 h1.
  unfold mbind, M_bind, set_initial_files, read, new_dict, set_current_files.
  cbn [self heap initial_files current_files]. fold l2.
  unfold h1 at 1. by rewrite lookup_total_insert_eq.
Qed.

Lemma track_file_change_ok p c w :
  track_file_change p c w
  = Ok () (mkWorld (self w)
             (<[current_files (self w) := <[p := c]> (after w)]> (heap w))).
Proof. reflexivity. Qed.

Lemma track_file_deletion_ok p w :
  track_file_deletion p w
  = Ok () (if bool_decide (p ∈ dom (after w))
           then mkWorld (self w)
                  (<[current_files (self w) := delete p (after w)]> (heap w))
           else w).
Proof.
  unfold track_file_deletion.
  rewrite (bind_Ok get_current_files _ w _ w eq_refl).
  rewrite (bind_Ok (read _) _ w _ w eq_refl). fold (after w).
  case_bool_decide as Hp; [|done].
  unfold delitem. fold (after w).
  apply elem_of_dom in Hp as [v Hv]. by rewrite Hv.
Qed.

Lemma run_operation_frame o w :
  ∃ w', run_operation o w = Ok () w' ∧ self w' = self w ∧
        ∀ l, l ≠ current_files (self w) → heap w' !! l = heap w !! l.
Proof.
  destruct o as [p c|p]; simpl.
  - rewrite track_file_change_ok. eexists; split; [done|]. split; [done|].
    intros l Hl. cbn [heap]. by rewrite lookup_insert_ne.
  - rewrite track_file_deletion_ok. eexists; split; [done|].
    case_bool_decide; [|done]. split; [done|].
    intros l Hl. cbn [heap]. by rewrite lookup_insert_ne.
Qed.

Lemma run_operations_frame ops w :
  ∃ w', run_operations ops w = Ok () w' ∧ self w' = self w ∧
        ∀ l, l ≠ current_files (self w) → heap w' !! l = heap w !! l.
Proof.
  revert w. induction ops as [|o ops IH]; intros w; simpl.
  - eexists; split; [done|]. done.
  - destruct (run_operation_frame o w) as (w1 & Ho & Hs1 & Hh1).
    rewrite (bind_Ok _ _ _ _ _ Ho).
    destruct (IH w1) as (w2 & Hops & Hs2 & Hh2).
    exists w2. split; [done|]. split; [congruence|].
    intros l Hl. rewrite Hh2 by congruence. by apply Hh1.
Qed.

(** ** A block inside the list of lines *)

Lemma concat_fmap_split {A B} (g : A → list B) (l : list A) x :
  x ∈ l → ∃ pre post, concat (g <$> l) = pre ++ g x ++ post.
Proof.
  intros (l1 & l2 & ->)%list_elem_of_split.
  exists (concat (g <$> l1)), (concat (g <$> l2)).
  by rewrite fmap_app, concat_app.
Qed.

Lemma deleted_block_in_patch (before after : dict) p content :
  before !! p = Some content → p ∉ dom after →
  ∃ pre post, patch_blocks before after = pre ++ deleted_block p content ++ post.
Proof.
  intros Hb Ha. unfold patch_blocks, classify.
  destruct (concat_fmap_split (λ p, deleted_block p (before !!! p))
              (Py.sorted (dom before ∖ dom after)) p) as (pre & post & ->).
  { apply elem_of_sorted, elem_of_difference. split; [|done].
    apply elem_of_dom. eauto. }
  rewrite (lookup_total_correct _ _ _ Hb).
  match goal with
  | |- ∃ _ _, _ ++ ?Mo ++ ?Ad = _ => exists pre, (post ++ Mo ++ Ad)
  end.
  by rewrite <- !app_assoc.
Qed.

Lemma added_block_in_patch (before after : dict) p content :
  after !! p = Some content → p ∉ dom before →
  ∃ pre post, patch_blocks before after = pre ++ added_block p content ++ post.
Proof.
  intros Ha Hb. unfold patch_blocks, classify.
  destruct (concat_fmap_split (λ p, added_block p (after !!! p))
              (Py.sorted (dom after ∖ dom before)) p) as (pre & post & ->).
  { apply elem_of_sorted, elem_of_difference. split; [|done].
    apply elem_of_dom. eauto. }
  rewrite (lookup_total_correct _ _ _ Ha).
  match goal with
  | |- ∃ _ _, ?D ++ ?Mo ++ _ = _ => exists (D ++ Mo ++ pre), post
  end.
  by rewrite <- !app_assoc.
Qed.

Lemma modified_block_in_patch (before after : dict) p original new diff :
  before !! p = Some original → after !! p = Some new → original ≠ new →
  content_diff original new = Some diff →
  ∃ pre post, patch_blocks before after = pre ++ modified_block p diff ++ post.
Proof.
  intros Hb Ha Hne Hd. unfold patch_blocks, classify.
  destruct (concat_fmap_split
              (λ p, modified_block p
                      (default [] (content_diff (before !!! p) (after !!! p))))
              (Py.sorted (filter (λ p, before !! p ≠ after !! p)
                            (dom before ∩ dom after))) p)
    as (pre & post & ->).
  { apply elem_of_sorted, elem_of_filter. split; [congruence|].
    apply elem_of_intersection. split; apply elem_of_dom; eauto. }
  rewrite (lookup_total_correct _ _ _ Hb), (lookup_total_correct _ _ _ Ha), Hd.
  cbn [default].
  match goal with
  | |- ∃ _ _, ?D ++ _ ++ ?Ad = _ => exists (D ++ pre), (post ++ Ad)
  end.
  by rewrite <- !app_assoc.
Qed.

(** The file headers that [unified_diff] yields first. *)
Lemma unified_diff_headers a b n diff :
  difflib.unified_diff a b n [] = Some diff →
  diff = [] ∨ ∃ hunks, diff = [Py.lit "--- "; Py.lit "+++ "] ++ hunks.
Proof.
  unfold difflib.unified_diff.
  destruct (difflib.get_grouped_opcodes a b n) as [[|g groups]|]; simpl;
    intros [= <-]; [by left|right].
  eauto.
Qed.

(** ** The class without its type annotations *)

Module Dyn_facts.
#[local] Existing Instances Dyn.M_ret Dyn.M_bind.

Lemma dyn_bind_Ok {A B} (m : Dyn.M A) (f : A → Dyn.M B) w a w' :
  m w = Dyn.Ok a w' → (m ≫= f) w = f a w'.
Proof. intros H. unfold mbind, Dyn.M_bind. by rewrite H. Qed.





Lemma dyn_initial_files_getitem w p li :
  Dyn.initial_files (Dyn.self w) = Some (Dyn.Dict li) →
  Dyn.initial_files_getitem p w
  = match Dyn.before w !! p with
    | Some v => Dyn.Ok v w
    | None => Dyn.Raise (Dyn.KeyError p)
    end.
Proof.
  intros Hi. unfold Dyn.initial_files_getitem, Dyn.before, Dyn.mapping.
  rewrite (dyn_bind_Ok Dyn.get_initial_files _ w (Dyn.Dict li) w).
  2: { unfold Dyn.get_initial_files. by rewrite Hi. }
  rewrite Hi. reflexivity.
Qed.

Lemma dyn_current_files_getitem w p lc :
  Dyn.current_files (Dyn.self w) = Some (Dyn.Dict lc) →
  Dyn.current_files_getitem p w
  = match Dyn.after w !! p with
    | Some v => Dyn.Ok v w
    | None => Dyn.Raise (Dyn.KeyError p)
    end.
Proof.
  intros Hc. unfold Dyn.current_files_getitem, Dyn.after, Dyn.mapping.
  rewrite (dyn_bind_Ok Dyn.get_current_files _ w (Dyn.Dict lc) w).
  2: { unfold Dyn.get_current_files. by rewrite Hc. }
  rewrite Hc. reflexivity.
Qed.















(** *** The two embeddings agree on the worlds of the annotated class *)

Lemma agree_ret {A B} (f : A → B) (a : A) : agree f (mret a) (mret (f a)).
Proof. by intros w. Qed.

Lemma agree_bind {A B A' B'} (f : A → B) (g : A' → B') (m : M A)
    (dm : Dyn.M B) (k : A → M A') (dk : B → Dyn.M B') :
  agree f m dm → (∀ a, agree g (k a) (dk (f a))) →
  agree g (m ≫= k) (dm ≫= dk).
Proof.
  intros Hm Hk w. unfold mbind, M_bind, Dyn.M_bind. rewrite Hm.
  destruct (m w); simpl; [apply Hk|done|done].
Qed.

Lemma agree_for_each {A S S'} (f : S → S') (body : S → A → M S)
    (dbody : S' → A → Dyn.M S') (l : list A) :
  (∀ s x, agree f (body s x) (dbody (f s) x)) →
  ∀ s, agree f (for_each l s body) (Dyn.for_each l (f s) dbody).
Proof.
  intros Hbody. induction l as [|x l IH]; intros s; simpl.
  - apply agree_ret.
  - apply (agree_bind f f); [apply Hbody|apply IH].
Qed.

Lemma agree_finished {A} (o : option A) :
  agree id (finished o) (Dyn.finished o).
Proof. intros w. by destruct o. Qed.

Lemma embed_heap w l :
  Dyn.heap (embed w) !!! l = Dyn.PyStr <$> (heap w !!! l).
Proof.
  unfold embed. simpl. rewrite lookup_total_fmap, (lookup_total_alt (heap w)).
  destruct (heap w !! l); [done|]. simpl. symmetry. apply fmap_empty.
Qed.

Lemma agree_initial_files_getitem p :
  agree Dyn.PyStr (initial_files_getitem p) (Dyn.initial_files_getitem p).
Proof.
  intros w.
  rewrite (dyn_initial_files_getitem (embed w) p (initial_files (self w)))
    by done.
  unfold Dyn.before, Dyn.mapping. simpl Dyn.initial_files. cbv beta iota.
  rewrite embed_heap, lookup_fmap.
  unfold initial_files_getitem.
  rewrite (bind_Ok get_initial_files _ w _ w eq_refl).
  rewrite (bind_Ok (read _) _ w _ w eq_refl).
  unfold getitem. by destruct (_ !! p).
Qed.

Lemma agree_current_files_getitem p :
  agree Dyn.PyStr (current_files_getitem p) (Dyn.current_files_getitem p).
Proof.
  intros w.
  rewrite (dyn_current_files_getitem (embed w) p (current_files (self w)))
    by done.
  unfold Dyn.after, Dyn.mapping. simpl Dyn.current_files. cbv beta iota.
  rewrite embed_heap, lookup_fmap.
  unfold current_files_getitem.
  rewrite (bind_Ok get_current_files _ w _ w eq_refl).
  rewrite (bind_Ok (read _) _ w _ w eq_refl).
  unfold getitem. by destruct (_ !! p).
Qed.

Lemma agree_after_splitlines {A} (m : M A) (dk : list str → Dyn.M A)
    (s : str) :
  agree id m (dk (Py.splitlines_keepends s)) →
  agree id m (Dyn.splitlines_keepends (Dyn.PyStr s) ≫= dk).
Proof. intros H w. exact (H w). Qed.

Lemma agree_get_changes : agree id get_changes Dyn.get_changes.
Proof.
  intros w. unfold get_changes, Dyn.get_changes.
  rewrite (bind_Ok get_initial_files _ w _ w eq_refl).
  rewrite (bind_Ok (read _) _ w _ w eq_refl).
  rewrite (bind_Ok get_current_files _ w _ w eq_refl).
  rewrite (bind_Ok (read _) _ w _ w eq_refl).
  rewrite (dyn_bind_Ok Dyn.get_initial_files _ (embed w)
             (Dyn.Dict (initial_files (self w))) (embed w) eq_refl).
  rewrite (dyn_bind_Ok (Dyn.keys _) _ (embed w)
             (dom (heap w !!! initial_files (self w))) (embed w)).
  2: { unfold Dyn.keys. by rewrite embed_heap, dom_fmap_L. }
  rewrite (dyn_bind_Ok Dyn.get_current_files _ (embed w)
             (Dyn.Dict (current_files (self w))) (embed w) eq_refl).
  rewrite (dyn_bind_Ok (Dyn.keys _) _ (embed w)
             (dom (heap w !!! current_files (self w))) (embed w)).
  2: { unfold Dyn.keys. by rewrite embed_heap, dom_fmap_L. }
  match goal with
  | |- ?X (embed w) = embed_outcome id (?Y w) =>
      enough (agree id Y X) as H by exact (H w)
  end.
  apply (agree_bind id id).
  - apply (agree_for_each id). intros m p.
    apply (agree_bind Dyn.PyStr id); [apply agree_initial_files_getitem|].
    intros x.
    apply (agree_bind Dyn.PyStr id); [apply agree_current_files_getitem|].
    intros y w'. unfold mret, M_ret, Dyn.M_ret, embed_outcome, id. f_equal.
    apply (f_equal (λ b : bool, if b then m ∪ {[p]} else m)).
    apply bool_decide_ext. split; congruence.
  - intros m w'. reflexivity.
Qed.

Lemma agree_render_deleted pl p :
  agree id (render_deleted pl p) (Dyn.render_deleted pl p).
Proof.
  unfold render_deleted, Dyn.render_deleted. cbv zeta.
  apply (agree_bind Dyn.PyStr id); [apply agree_initial_files_getitem|].
  intros content. apply agree_after_splitlines. intros w. reflexivity.
Qed.

Lemma agree_render_added pl p :
  agree id (render_added pl p) (Dyn.render_added pl p).
Proof.
  unfold render_added, Dyn.render_added. cbv zeta.
  apply (agree_bind Dyn.PyStr id); [apply agree_current_files_getitem|].
  intros content. apply agree_after_splitlines. intros w. reflexivity.
Qed.

Lemma agree_render_modified pl p :
  agree id (render_modified pl p) (Dyn.render_modified pl p).
Proof.
  unfold render_modified, Dyn.render_modified. cbv zeta.
  apply (agree_bind Dyn.PyStr id); [apply agree_initial_files_getitem|].
  intros original. apply agree_after_splitlines.
  apply (agree_bind Dyn.PyStr id); [apply agree_current_files_getitem|].
  intros new. apply agree_after_splitlines.
  apply (agree_bind id id); [apply agree_finished|].
  intros diff w. reflexivity.
Qed.

Lemma agree_generate_patch : agree id generate_patch Dyn.generate_patch.
Proof.
  unfold generate_patch, Dyn.generate_patch.
  apply (agree_bind id id); [|intros pl w; reflexivity].
  unfold generate_patch_lines, Dyn.generate_patch_lines.
  apply (agree_bind id id); [apply agree_get_changes|].
  intros [[added modified] deleted]. unfold id. cbv beta iota zeta.
  apply (agree_bind id id).
  { apply (agree_for_each id). intros pl p. apply agree_render_deleted. }
  intros pl1. apply (agree_bind id id).
  { apply (agree_for_each id). intros pl p. apply agree_render_modified. }
  intros pl2. apply (agree_bind id id).
  { apply (agree_for_each id). intros pl p. apply agree_render_added. }
  intros pl3 w. reflexivity.
Qed.

Lemma agree_summary_set (summary : gmap str dict) category p content :
  agree (fmap (M := gmap str) (fmap (M := gmap str) Dyn.PyStr))
    (summary_set summary category p content)
    (Dyn.summary_set (fmap (M := gmap str) Dyn.PyStr <$> summary) category p
       (Dyn.PyStr content)).
Proof.
  intros w. unfold summary_set, Dyn.summary_set, getitem.
  rewrite lookup_fmap. unfold mbind, M_bind.
  destruct (summary !! category) as [inner|]; simpl; [|done].
  unfold mret, Dyn.M_ret. f_equal. by rewrite !fmap_insert.
Qed.

Lemma agree_get_changed_files_summary :
  agree (fmap (M := gmap str) (fmap (M := gmap str) Dyn.PyStr))
    get_changed_files_summary Dyn.get_changed_files_summary.
Proof.
  unfold get_changed_files_summary, Dyn.get_changed_files_summary.
  apply (agree_bind id _); [apply agree_get_changes|].
  intros [[added modified] deleted]. unfold id. cbv beta iota zeta.
  assert (<[Py.lit "added" := ∅]> (<[Py.lit "modified" := ∅]>
            (<[Py.lit "deleted" := ∅]> ∅))
          = fmap (M := gmap str) Dyn.PyStr
              <$> (<[Py.lit "added" := ∅]> (<[Py.lit "modified" := ∅]>
                     (<[Py.lit "deleted" := (∅ : dict)]> ∅)))) as ->.
  { by rewrite !fmap_insert, !fmap_empty. }
  apply (agree_bind (fmap (M := gmap str) (fmap (M := gmap str) Dyn.PyStr)) _).
  { apply (agree_for_each
             (fmap (M := gmap str) (fmap (M := gmap str) Dyn.PyStr))).
    intros summary p.
    apply (agree_bind Dyn.PyStr _); [apply agree_current_files_getitem|].
    intros content. apply agree_summary_set. }
  intros s1.
  apply (agree_bind (fmap (M := gmap str) (fmap (M := gmap str) Dyn.PyStr)) _).
  { apply (agree_for_each
             (fmap (M := gmap str) (fmap (M := gmap str) Dyn.PyStr))).
    intros summary p.
    apply (agree_bind Dyn.PyStr _); [apply agree_current_files_getitem|].
    intros content. apply agree_summary_set. }
  intros s2.
  apply (agree_bind (fmap (M := gmap str) (fmap (M := gmap str) Dyn.PyStr)) _).
  { apply (agree_for_each
             (fmap (M := gmap str) (fmap (M := gmap str) Dyn.PyStr))).
    intros summary p.
    apply (agree_bind Dyn.PyStr _); [apply agree_initial_files_getitem|].
    intros content. apply agree_summary_set. }
  intros s3 w. reflexivity.
Qed.

End Dyn_facts.

(** * The claims *)

(** C1.  [get_changes] returns: as added, the keys of [after] that are not
    keys of [before]; as deleted, the keys of [before] that are not keys of
    [after]; as modified, the paths of both whose contents differ.  The three
    sets are pairwise disjoint, and together with the unchanged common paths
    they are the keys of [before] and [after]. *)
Theorem get_changes_classifies (w : world) :
  ∃ added modified deleted : gset str,
    get_changes w = Ok (added, modified, deleted) w ∧
    added = dom (after w) ∖ dom (before w) ∧
    deleted = dom (before w) ∖ dom (after w) ∧
    (∀ p, p ∈ modified ↔
          ∃ x y, before w !! p = Some x ∧ after w !! p = Some y ∧ x ≠ y) ∧
    added ## modified ∧ added ## deleted ∧ modified ## deleted ∧
    added ∪ modified ∪ deleted ∪ unchanged (before w) (after w)
    = dom (before w) ∪ dom (after w).
Proof.
  eexists _, _, _. split; [apply get_changes_ok|].
  split; [done|]. split; [done|].
  assert (∀ p, p ∈ filter (λ p, before w !! p ≠ after w !! p)
                     (dom (before w) ∩ dom (after w)) ↔
               ∃ x y, before w !! p = Some x ∧ after w !! p = Some y ∧ x ≠ y)
    as Hmod.
  { intros p. rewrite elem_of_filter, elem_of_intersection, !elem_of_dom.
    split.
    - intros (Hne & [x Hx] & [y Hy]). exists x, y.
      split; [done|]. split; [done|]. congruence.
    - intros (x & y & Hx & Hy & Hne). rewrite Hx, Hy.
      split; [congruence|]. eauto. }
  split; [exact Hmod|].
  split; [|split; [|split]].
  - intros p Ha (x & y & Hx & _)%Hmod.
    apply elem_of_difference in Ha as [_ Ha]. apply Ha, elem_of_dom. eauto.
  - intros p Ha Hd.
    apply elem_of_difference in Ha as [Ha _].
    by apply elem_of_difference in Hd as [_ Hd].
  - intros p (x & y & _ & Hy & _)%Hmod Hd.
    apply elem_of_difference in Hd as [_ Hd]. apply Hd, elem_of_dom. eauto.
  - apply set_eq. intros p.
    rewrite !elem_of_union, !elem_of_difference. unfold unchanged.
    rewrite !elem_of_filter, elem_of_intersection.
    destruct (decide (p ∈ dom (before w))) as [Hb|Hb];
      destruct (decide (p ∈ dom (after w))) as [Ha|Ha];
      destruct (decide (before w !! p = after w !! p)); tauto.
Qed.

(** C2, at the input where it fails.  In the session [world_modified]
    ([a.txt] changed from one line to two) the lines that [generate_patch]
    joins are the six below: the two lines of the hunk body still end with
    the line terminator of the file, so the joined text has an empty line
    after each of them, inside the block. *)
Theorem modified_block_lines_embed_terminators :
  generate_patch_lines world_modified
  = Ok [Py.lit "--- a/a.txt"; Py.lit "+++ b/a.txt"; Py.lit "@@ -1 +1,2 @@";
        Py.lit " hello" ++ [Py.LF]; Py.lit "+world" ++ [Py.LF]; []]
       world_modified
  ∧ Exists embeds_terminator
      [Py.lit "--- a/a.txt"; Py.lit "+++ b/a.txt"; Py.lit "@@ -1 +1,2 @@";
       Py.lit " hello" ++ [Py.LF]; Py.lit "+world" ++ [Py.LF]; []]
  ∧ generate_patch world_modified
    = Ok (line "--- a/a.txt" ++ line "+++ b/a.txt" ++ line "@@ -1 +1,2 @@"
          ++ line " hello" ++ [Py.LF] ++ line "+world" ++ [Py.LF])
         world_modified.
Proof.
  split; [vm_compute; reflexivity|]. split; [|vm_compute; reflexivity].
  do 3 apply Exists_cons_tl. apply Exists_cons_hd.
  unfold embeds_terminator. apply Exists_exists. exists Py.LF.
  split; [|reflexivity]. apply list_elem_of_In. vm_compute. tauto.
Qed.

(** C3, at the input where it fails.  In the session [world_blanks] the
    deleted file [f.txt] holds the line "a" with two spaces and the added
    file [g.txt] the line "b" with a tab.  The rendered lines are [-a] and
    [+b]: the blanks before the terminator are gone, where the blocks of the
    specification keep them. *)
Theorem deleted_and_added_lines_lose_trailing_blanks :
  generate_patch_lines world_blanks
  = Ok [Py.lit "--- a/f.txt"; Py.lit "+++ /dev/null"; Py.lit "-a"; [];
        Py.lit "--- /dev/null"; Py.lit "+++ b/g.txt"; Py.lit "+b"; []]
       world_blanks
  ∧ spec_deleted_block (Py.lit "f.txt") (line "a  ")
    = [Py.lit "--- a/f.txt"; Py.lit "+++ /dev/null"; Py.lit "-a  "]
  ∧ spec_added_block (Py.lit "g.txt") (Py.lit "b" ++ [9%N; Py.LF])
    = [Py.lit "--- /dev/null"; Py.lit "+++ b/g.txt"; Py.lit "+b" ++ [9%N]].
Proof. repeat split; vm_compute; reflexivity. Qed.

(** C4.  For a path [p] of both snapshots, the loop body for modified
    paths appends the headers [--- a/p] and [+++ b/p], then the lines of
    [unified_diff] (context [n = 3], empty [lineterm]) without the first two,
    then the separator.  The diff is either empty, and then nothing stands
    between the headers and the separator, or it starts with its own two
    file headers, which are the two lines left out.  The call returns in
    both cases.  When the contents differ, this block is part of the lines
    of [generate_patch]. *)
Theorem modified_block_is_diff_without_file_headers
    (w : world) (p : str) (patch_lines : list str) :
  p ∈ dom (before w) → p ∈ dom (after w) →
  ∃ diff,
    difflib.unified_diff (Py.splitlines_keepends (before w !!! p))
                         (Py.splitlines_keepends (after w !!! p)) 3 []
    = Some diff ∧
    render_modified patch_lines p w
    = Ok (patch_lines ++ [Py.lit "--- a/" ++ p; Py.lit "+++ b/" ++ p]
          ++ drop 2 diff ++ [[]]) w ∧
    ((diff = [] ∧
      render_modified patch_lines p w
      = Ok (patch_lines ++ [Py.lit "--- a/" ++ p; Py.lit "+++ b/" ++ p; []]) w)
     ∨ (∃ hunks, diff = [Py.lit "--- "; Py.lit "+++ "] ++ hunks ∧
          render_modified patch_lines p w
          = Ok (patch_lines ++ [Py.lit "--- a/" ++ p; Py.lit "+++ b/" ++ p]
                ++ hunks ++ [[]]) w)) ∧
    (before w !! p = after w !! p ∨
     ∃ pre post,
       generate_patch_lines w
       = Ok (pre ++ ([Py.lit "--- a/" ++ p; Py.lit "+++ b/" ++ p]
                     ++ drop 2 diff ++ [[]]) ++ post) w).
Proof.
  intros [x Hx]%elem_of_dom [y Hy]%elem_of_dom.
  rewrite (lookup_total_correct _ _ _ Hx), (lookup_total_correct _ _ _ Hy).
  destruct (content_diff_total x y) as [diff Hd].
  pose proof (render_modified_ok w patch_lines p x y diff Hx Hy Hd) as Hr.
  unfold modified_block in Hr.
  exists diff. split; [exact Hd|]. split; [exact Hr|]. split.
  - destruct (unified_diff_headers _ _ _ _ Hd) as [->|[hunks ->]].
    + left. split; [done|]. exact Hr.
    + right. exists hunks. split; [done|]. exact Hr.
  - destruct (decide (x = y)) as [->|Hne]; [left; congruence|right].
    destruct (modified_block_in_patch (before w) (after w) p x y diff
                Hx Hy Hne Hd) as (pre & post & Hp).
    exists pre, post. rewrite generate_patch_lines_ok, Hp. reflexivity.
Qed.

(** C5.  When [before] and [after] are equal, [generate_patch] returns the
    empty text and [get_changed_files_summary] the summary whose three
    categories are empty; neither raises. *)
Theorem empty_change_set_gives_empty_patch (w : world) :
  before w = after w →
  generate_patch w = Ok [] w ∧
  get_changed_files_summary w = Ok empty_summary w.
Proof. intros H. by apply same_snapshots_empty_result. Qed.

(** C6.  A path whose content is the binary marker in both snapshots is
    in none of the three sets that [get_changes] returns. *)
Theorem binary_marker_on_both_sides_is_unchanged (w : world) (p : str) :
  before w !! p = Some BINARY → after w !! p = Some BINARY →
  ∃ added modified deleted : gset str,
    get_changes w = Ok (added, modified, deleted) w ∧
    (p ∉ added) ∧ (p ∉ modified) ∧ (p ∉ deleted).
Proof.
  intros Hb Ha. eexists _, _, _. split; [apply get_changes_ok|].
  split; [|split].
  - intros [_ H]%elem_of_difference. apply H, elem_of_dom. eauto.
  - intros [H _]%elem_of_filter. apply H. congruence.
  - intros [_ H]%elem_of_difference. apply H, elem_of_dom. eauto.
Qed.

(** C7.  [initialize_tracking] returns and leaves [initial_files] and
    [current_files] at two different dictionary objects, both new (no object
    of the heap before the call is one of them, and none is changed), both
    with the content of the listing.  Whatever sequence of [recordChange] and
    [recordDeletion] follows, it returns, the attributes still point to the
    same objects, [before] is still the content of the listing, and no
    object other than the one behind [current_files] has changed. *)
Theorem initialize_copies_and_before_stays (root : list ContentFile)
    (w : world) (ops : list operation) :
  ∃ w1 w2,
    initialize_tracking root w = Ok () w1 ∧
    run_operations ops w1 = Ok () w2 ∧
    before w1 = snapshot root ∧ after w1 = snapshot root ∧
    initial_files (self w1) ≠ current_files (self w1) ∧
    (initial_files (self w1) ∉ dom (heap w)) ∧
    (current_files (self w1) ∉ dom (heap w)) ∧
    (∀ l, l ∈ dom (heap w) → heap w1 !! l = heap w !! l) ∧
    self w2 = self w1 ∧
    before w2 = snapshot root ∧
    (∀ l, l ≠ current_files (self w1) → heap w2 !! l = heap w1 !! l).
Proof.
  pose proof (initialize_tracking_ok root w) as Hinit. cbv zeta in Hinit.
  set (l1 := fresh (dom (heap w))) in *.
  set (h1 := <[l1 := snapshot root]> (heap w)) in *.
  set (l2 := fresh (dom h1)) in *.
  set (w1 := mkWorld (mkBot l1 l2) (<[l2 := snapshot root]> h1)) in *.
  assert (l1 ∉ dom (heap w)) as Hl1 by apply is_fresh.
  assert (l2 ∉ dom h1) as Hl2 by apply is_fresh.
  assert (l1 ≠ l2) as Hne.
  { intros Heq. apply Hl2. rewrite <- Heq. unfold h1.
    rewrite dom_insert_L. apply elem_of_union_l, elem_of_singleton. done. }
  assert (l2 ∉ dom (heap w)) as Hl2'.
  { intros Hin. apply Hl2. unfold h1. rewrite dom_insert_L.
    by apply elem_of_union_r. }
  assert (before w1 = snapshot root) as Hb1.
  { unfold before, w1. cbn [self heap initial_files].
    rewrite lookup_total_insert_ne by done. unfold h1.
    by rewrite lookup_total_insert_eq. }
  destruct (run_operations_frame ops w1) as (w2 & Hops & Hself & Hframe).
  exists w1, w2. split; [exact Hinit|]. split; [exact Hops|].
  split; [exact Hb1|]. split.
  { unfold after, w1. cbn [self heap current_files].
    by rewrite lookup_total_insert_eq. }
  split; [exact Hne|]. split; [exact Hl1|]. split; [exact Hl2'|]. split.
  { intros l Hl. unfold w1. cbn [heap].
    rewrite lookup_insert_ne by (intros ->; done). unfold h1.
    by rewrite lookup_insert_ne by (intros ->; done). }
  split; [exact Hself|]. split; [|exact Hframe].
  unfold before. rewrite Hself.
  rewrite <- Hb1. unfold before.
  apply (f_equal (λ o : option dict, default ∅ o)) with
    (x := heap w2 !! initial_files (self w1))
    (y := heap w1 !! initial_files (self w1)).
  apply Hframe. exact Hne.
Qed.

(** C8.  [track_file_deletion] twice is [track_file_deletion] once; it
    always returns, and for a path that [after] does not have it returns
    the world as it was.  [track_file_change] twice with the same content is
    [track_file_change] once. *)
Theorem record_operations_are_idempotent (w : world) (p c : str) :
  (track_file_deletion p;; track_file_deletion p) w = track_file_deletion p w ∧
  (∃ w', track_file_deletion p w = Ok () w') ∧
  (p ∈ dom (after w) ∨ track_file_deletion p w = Ok () w) ∧
  (track_file_change p c;; track_file_change p c) w = track_file_change p c w.
Proof.
  split; [|split; [|split]].
  - rewrite (bind_Ok _ _ _ _ _ (track_file_deletion_ok p w)).
    rewrite !track_file_deletion_ok.
    destruct (decide (p ∈ dom (after w))) as [Hp|Hp].
    + rewrite (bool_decide_eq_true_2 _ Hp).
      rewrite bool_decide_eq_false_2; [done|].
      unfold after at 1. cbn [self heap].
      rewrite lookup_total_insert_eq, dom_delete_L.
      intros [_ H]%elem_of_difference. apply H. by apply elem_of_singleton.
    + rewrite (bool_decide_eq_false_2 _ Hp).
      by rewrite (bool_decide_eq_false_2 _ Hp).
  - rewrite track_file_deletion_ok. eauto.
  - destruct (decide (p ∈ dom (after w))) as [Hp|Hp]; [by left|right].
    rewrite track_file_deletion_ok. by rewrite (bool_decide_eq_false_2 _ Hp).
  - rewrite (bind_Ok _ _ _ _ _ (track_file_change_ok p c w)).
    rewrite !track_file_change_ok. f_equal. cbn [self heap]. f_equal.
    unfold after at 1. cbn [self heap].
    rewrite lookup_total_insert_eq, insert_insert_eq.
    by rewrite insert_insert_eq.
Qed.



(** C10.  For a deleted path whose content in [before] is the binary
    marker, the lines of the patch hold the block [--- a/p], [+++ /dev/null],
    [-[Binary file]] and the separator; for an added path whose content in
    [after] is the marker, the block [--- /dev/null], [+++ b/p],
    [+[Binary file]] and the separator.  [generate_patch] joins these
    lines. *)
Theorem binary_marker_is_rendered_as_a_line (w : world) (p : str) :
  (before w !! p = Some BINARY ∧ (p ∉ dom (after w))) ∨
  (after w !! p = Some BINARY ∧ (p ∉ dom (before w))) →
  ∃ pre block post,
    generate_patch_lines w = Ok (pre ++ block ++ post) w ∧
    generate_patch w = Ok (Py.join [Py.LF] (pre ++ block ++ post)) w ∧
    (((p ∉ dom (after w)) ∧
      block = [Py.lit "--- a/" ++ p; Py.lit "+++ /dev/null";
               Py.lit "-[Binary file]"; []])
     ∨ ((p ∉ dom (before w)) ∧
        block = [Py.lit "--- /dev/null"; Py.lit "+++ b/" ++ p;
                 Py.lit "+[Binary file]"; []])).
Proof.
  intros [[Hb Ha]|[Ha Hb]].
  - destruct (deleted_block_in_patch _ _ p BINARY Hb Ha) as (pre & post & Hp).
    exists pre, (deleted_block p BINARY), post.
    rewrite generate_patch_lines_ok, generate_patch_ok, Hp.
    split; [done|]. split; [done|]. left. split; [done|]. reflexivity.
  - destruct (added_block_in_patch _ _ p BINARY Ha Hb) as (pre & post & Hp).
    exists pre, (added_block p BINARY), post.
    rewrite generate_patch_lines_ok, generate_patch_ok, Hp.
    split; [done|]. split; [done|]. right. split; [done|]. reflexivity.
Qed.

(** * The claims at concrete sessions *)

(** C4 at [world_modified] and [a.txt], whose contents differ. *)
Lemma modified_block_at_world_modified :
  Py.lit "a.txt" ∈ dom (before world_modified) ∧
  Py.lit "a.txt" ∈ dom (after world_modified) ∧
  ∃ diff,
    difflib.unified_diff
      (Py.splitlines_keepends (before world_modified !!! Py.lit "a.txt"))
      (Py.splitlines_keepends (after world_modified !!! Py.lit "a.txt")) 3 []
    = Some diff ∧
    render_modified [] (Py.lit "a.txt") world_modified
    = Ok ([] ++ [Py.lit "--- a/" ++ Py.lit "a.txt";
                  Py.lit "+++ b/" ++ Py.lit "a.txt"]
          ++ drop 2 diff ++ [[]]) world_modified.
Proof.
  assert (Py.lit "a.txt" ∈ dom (before world_modified)) as H1.
  { apply (bool_decide_unpack _). vm_compute. exact I. }
  assert (Py.lit "a.txt" ∈ dom (after world_modified)) as H2.
  { apply (bool_decide_unpack _). vm_compute. exact I. }
  split; [exact H1|]. split; [exact H2|].
  destruct (modified_block_is_diff_without_file_headers
              world_modified (Py.lit "a.txt") [] H1 H2)
    as (diff & Hd & Hr & _).
  exists diff. split; [exact Hd|exact Hr].
Defined.

(** C5 at [world_unchanged]. *)
Lemma empty_patch_at_world_unchanged :
  before world_unchanged = after world_unchanged ∧
  generate_patch world_unchanged = Ok [] world_unchanged ∧
  get_changed_files_summary world_unchanged = Ok empty_summary world_unchanged.
Proof.
  assert (before world_unchanged = after world_unchanged) as H.
  { vm_compute. reflexivity. }
  split; [exact H|].
  exact (empty_change_set_gives_empty_patch world_unchanged H).
Defined.

(** C6 at [world_binary]: the bytes of [logo.png] differ between the two
    listings, the content is the marker in both snapshots. *)
Lemma binary_marker_at_world_binary :
  before world_binary !! Py.lit "logo.png" = Some BINARY ∧
  after world_binary !! Py.lit "logo.png" = Some BINARY ∧
  ∃ added modified deleted : gset str,
    get_changes world_binary = Ok (added, modified, deleted) world_binary ∧
    (Py.lit "logo.png" ∉ added) ∧ (Py.lit "logo.png" ∉ modified) ∧
    (Py.lit "logo.png" ∉ deleted).
Proof.
  assert (before world_binary !! Py.lit "logo.png" = Some BINARY) as H1.
  { vm_compute. reflexivity. }
  assert (after world_binary !! Py.lit "logo.png" = Some BINARY) as H2.
  { vm_compute. reflexivity. }
  split; [exact H1|]. split; [exact H2|].
  exact (binary_marker_on_both_sides_is_unchanged
           world_binary (Py.lit "logo.png") H1 H2).
Defined.

(** C10 at [world_binary_deleted], for the deleted [logo.png]. *)
Lemma binary_marker_line_at_world_binary_deleted :
  (before world_binary_deleted !! Py.lit "logo.png" = Some BINARY ∧
   (Py.lit "logo.png" ∉ dom (after world_binary_deleted))) ∧
  ∃ pre block post,
    generate_patch_lines world_binary_deleted
    = Ok (pre ++ block ++ post) world_binary_deleted.
Proof.
  assert (before world_binary_deleted !! Py.lit "logo.png" = Some BINARY) as H1.
  { vm_compute. reflexivity. }
  assert (Py.lit "logo.png" ∉ dom (after world_binary_deleted)) as H2.
  { apply (bool_decide_unpack _). vm_compute. exact I. }
  split; [exact (conj H1 H2)|].
  destruct (binary_marker_is_rendered_as_a_line
              world_binary_deleted (Py.lit "logo.png") (or_introl (conj H1 H2)))
    as (pre & block & post & Hl & _).
  exists pre, block, post. exact Hl.
Defined.

(** The lines of [world_binary_deleted], in full. *)
Example binary_blocks_in_full :
  generate_patch_lines world_binary_deleted
  = Ok [Py.lit "--- a/logo.png"; Py.lit "+++ /dev/null";
        Py.lit "-[Binary file]"; [];
        Py.lit "--- /dev/null"; Py.lit "+++ b/icon.png";
        Py.lit "+[Binary file]"; []]
       world_binary_deleted.
Proof. vm_compute. reflexivity. Qed.


(** * The model on the scenarios of the specification *)

Example splitlines_keepends_example :
  Py.splitlines_keepends
    (Py.lit "ab" ++ [Py.CR; Py.LF] ++ Py.lit "c " ++ [Py.LF; Py.LF] ++ Py.lit "d")
  = [Py.lit "ab" ++ [Py.CR; Py.LF]; Py.lit "c " ++ [Py.LF]; [Py.LF]; Py.lit "d"].
Proof. reflexivity. Qed.

Example rstrip_example :
  Py.rstrip (Py.lit " a b " ++ [9%N; Py.CR; Py.LF]) = Py.lit " a b".
Proof. reflexivity. Qed.

Example unified_diff_example :
  difflib.unified_diff [line "1"; line "2"; line "3"; line "4"; line "5"]
                       [line "1"; line "2"; line "3"; line "4"; line "x"] 3 []
  = Some [Py.lit "--- "; Py.lit "+++ "; Py.lit "@@ -2,4 +2,4 @@";
          line " 2"; line " 3"; line " 4"; line "-5"; line "+x"].
Proof. vm_compute. reflexivity. Qed.

Example unified_diff_of_equal_contents :
  difflib.unified_diff [line "1"; line "2"] [line "1"; line "2"] 3 [] = Some [].
Proof. vm_compute. reflexivity. Qed.

(** Scenario 1: [a.txt] modified and [b.txt] added. *)
Example scenario_1 :
  let w := session [File (Py.lit "a.txt") (line_bytes "hello")]
                   [recordChange (Py.lit "a.txt") (line "hello" ++ line "world");
                    recordChange (Py.lit "b.txt") (line "new")] in
  get_changes w = Ok ({[Py.lit "b.txt"]}, {[Py.lit "a.txt"]}, ∅) w ∧
  generate_patch_lines w
  = Ok [Py.lit "--- a/a.txt"; Py.lit "+++ b/a.txt"; Py.lit "@@ -1 +1,2 @@";
        line " hello"; line "+world"; [];
        Py.lit "--- /dev/null"; Py.lit "+++ b/b.txt"; Py.lit "+new"; []] w.
Proof. split; vm_compute; reflexivity. Qed.

(** Scenario 2: [x.txt] deleted. *)
Example scenario_2 :
  let w := session [File (Py.lit "x.txt") (line_bytes "1" ++ line_bytes "2" ++ line_bytes "3")]
                   [recordDeletion (Py.lit "x.txt")] in
  get_changes w = Ok (∅, ∅, {[Py.lit "x.txt"]}) w ∧
  generate_patch w
  = Ok (line "--- a/x.txt" ++ line "+++ /dev/null" ++ line "-1" ++ line "-2"
        ++ line "-3") w.
Proof. split; vm_compute; reflexivity. Qed.

(** * Further properties of the code *)

(** ** The snapshot of [get_all_files] *)

Lemma files_of_Dir path listing :
  files_of (Dir path listing) = files_of_list listing.
Proof. reflexivity. Qed.

Lemma files_of_list_app l1 l2 :
  files_of_list (l1 ++ l2) = files_of_list l1 ++ files_of_list l2.
Proof.
  induction l1 as [|c l1 IH]; simpl; [done|].
  by rewrite IH, app_assoc.
Qed.

Lemma NoDup_fst_functional {A B} (l : list (A * B)) x y1 y2 :
  NoDup l.*1 → (x, y1) ∈ l → (x, y2) ∈ l → y1 = y2.
Proof.
  induction l as [|[x' y'] l IH]; intros Hnd H1 H2.
  - by apply elem_of_nil in H1.
  - rewrite fmap_cons in Hnd. apply NoDup_cons in Hnd as [Hx Hnd].
    apply elem_of_cons in H1 as [H1|H1]; apply elem_of_cons in H2 as [H2|H2].
    + congruence.
    + injection H1 as -> ->. exfalso. apply Hx.
      apply list_elem_of_fmap. by exists (x', y2).
    + injection H2 as -> ->. exfalso. apply Hx.
      apply list_elem_of_fmap. by exists (x', y1).
    + by apply IH.
Qed.

Lemma snapshot_inv_step root st :
  snapshot_inv root st → bool_decide (st.1 ≠ []) = true →
  ∃ st', get_all_files_body st = Some st' ∧ snapshot_inv root st' ∧
         entries_list st'.1 < entries_list st.1.
Proof.
  destruct st as [contents files]. intros (Hdom & Hval & Hsub & Hall) Hc.
  apply bool_decide_eq_true in Hc. cbn [fst snd] in *.
  destruct contents as [|[path content|path listing] contents]; [done| |].
  - eexists; split; [reflexivity|]. split; [|simpl; lia].
    cbn [files_of_list foldr files_of] in *. cbn [app] in *.
    fold (files_of_list contents) in *.
    split; [|split; [|split]]; cbn [fst snd].
    + intros p. rewrite <- Hdom, dom_insert_L, fmap_cons, elem_of_cons,
        elem_of_union, elem_of_singleton. cbn [fst]. tauto.
    + intros p v. rewrite lookup_insert. case_decide as Hp.
      * intros [= <-]. subst p. exists content. split; [|done].
        apply Hsub. apply elem_of_cons. by left.
      * apply Hval.
    + intros p b Hin. apply Hsub. apply elem_of_cons. by right.
    + intros Hnd p b Hin. rewrite lookup_insert.
      destruct (Hall Hnd p b Hin) as [[Heq|Hin']%elem_of_cons|Hfiles].
      * injection Heq as -> ->. right. by rewrite decide_True.
      * by left.
      * right. case_decide as Hp; [|done]. subst p.
        assert ((path, content) ∈ files_of_list root) as Hin'.
        { apply Hsub. apply elem_of_cons. by left. }
        by rewrite (NoDup_fst_functional _ _ _ _ Hnd Hin Hin').
  - eexists; split; [reflexivity|]. cbn [fst snd].
    assert (∀ x : str * bytes,
              x ∈ files_of_list (contents ++ listing)
              ↔ x ∈ files_of_list (Dir path listing :: contents)) as Hperm.
    { intros x. rewrite files_of_list_app.
      cbn [files_of_list foldr]. rewrite files_of_Dir.
      fold (files_of_list contents). rewrite !elem_of_app. tauto. }
    split; [|rewrite entries_list_app; cbn [entries_list foldr];
             rewrite entries_Dir; fold (entries_list contents); lia].
    split; [|split; [|split]]; cbn [fst snd].
    + intros p. rewrite <- Hdom. rewrite !list_elem_of_fmap.
      split.
      * intros [?|(x & -> & Hx)]; [by left|]. right. exists x.
        split; [done|]. by apply Hperm.
      * intros [?|(x & -> & Hx)]; [by left|]. right. exists x.
        split; [done|]. by apply Hperm.
    + exact Hval.
    + intros p b Hin. apply Hsub. by apply Hperm.
    + intros Hnd p b Hin. destruct (Hall Hnd p b Hin) as [Hin'|?]; [|by right].
      left. by apply Hperm.
Qed.

Lemma snapshot_inv_final root : snapshot_inv root ([], snapshot root).
Proof.
  destruct (while_finishes (snapshot_inv root)
              (λ st, entries_list st.1)
              (λ st : list ContentFile * dict, bool_decide (st.1 ≠ []))
              get_all_files_body (snapshot_inv_step root)) with
    (fuel := entries_list root) (s := (root, (∅ : dict)))
    as (st & Hrun & Hinv & _).
  - split; [|split; [|split]]; cbn [fst snd].
    + intros p. rewrite dom_empty_L, elem_of_empty. tauto.
    + intros p v. by rewrite lookup_empty.
    + done.
    + intros _ p b Hin. by left.
  - reflexivity.
  - rewrite snapshot_is_loop_result in Hrun. by injection Hrun as <-.
Qed.

(** X1.  The keys of the mapping that [get_all_files] builds are the paths
    of the files of the listing, at every depth (a directory is no key), and
    the content under a key is, for a file of the listing with that path, its
    decoded text, or the marker when its bytes do not decode. *)
Theorem snapshot_keys_are_the_file_paths (root : list ContentFile) (p : str) :
  (p ∈ dom (snapshot root) ↔ p ∈ (files_of_list root).*1) ∧
  (∀ v, snapshot root !! p = Some v →
        ∃ b, (p, b) ∈ files_of_list root ∧
             v = match Py.decode b with Some text => text | None => BINARY end).
Proof.
  destruct (snapshot_inv_final root) as (Hdom & Hval & _).
  cbn [fst snd] in *. split.
  - rewrite <- (Hdom p). cbn [files_of_list foldr fmap list_fmap].
    rewrite elem_of_nil. tauto.
  - intros v Hv. destruct (Hval p v Hv) as (b & Hb & ->).
    exists b. split; [done|]. unfold stored. by destruct (Py.decode b).
Qed.

(** X2.  When the paths of the files of the listing are distinct, every
    file is in the mapping: under its path stands its decoded text, or the
    marker when its bytes do not decode. *)
Theorem snapshot_holds_every_file (root : list ContentFile) (p : str) (b : bytes) :
  NoDup (files_of_list root).*1 → (p, b) ∈ files_of_list root →
  snapshot root !! p
  = Some (match Py.decode b with Some text => text | None => BINARY end).
Proof.
  intros Hnd Hin.
  destruct (snapshot_inv_final root) as (_ & _ & _ & Hall).
  cbn [fst snd] in *.
  destruct (Hall Hnd p b Hin) as [Hnil|Hs].
  - cbn [files_of_list foldr] in Hnil. by apply elem_of_nil in Hnil.
  - rewrite Hs. unfold stored. by destruct (Py.decode b).
Qed.

(** ** The caller's mapping and the mappings of the bot *)

(** X3.  [process_claude_request] keeps the result of [get_all_files] in
    [files] and then calls [initialize_tracking], which fetches again.  The
    three dictionaries - the caller's, [initial_files], [current_files] - are
    three different new objects; the caller's holds the first listing, the
    bot's two the second.  No sequence of [track_file_change] and
    [track_file_deletion] changes the caller's dictionary or [before]. *)
Theorem fetched_files_are_not_shared (root1 root2 : list ContentFile)
    (w : world) (ops : list operation) :
  ∃ files w1 w2,
    fetch_and_initialize root1 root2 w = Ok files w1 ∧
    run_operations ops w1 = Ok () w2 ∧
    files ≠ initial_files (self w1) ∧ files ≠ current_files (self w1) ∧
    initial_files (self w1) ≠ current_files (self w1) ∧
    (files ∉ dom (heap w)) ∧
    heap w1 !! files = Some (snapshot root1) ∧
    before w1 = snapshot root2 ∧ after w1 = snapshot root2 ∧
    heap w2 !! files = Some (snapshot root1) ∧
    before w2 = snapshot root2.
Proof.
  unfold fetch_and_initialize.
  set (lf := fresh (dom (heap w))).
  set (w0 := mkWorld (self w) (<[lf := snapshot root1]> (heap w))).
  pose proof (get_all_files_ok root1 w) as Hget. fold lf w0 in Hget.
  pose proof (initialize_tracking_ok root2 w0) as Hinit. cbv zeta in Hinit.
  set (l1 := fresh (dom (heap w0))) in *.
  set (h1 := <[l1 := snapshot root2]> (heap w0)) in *.
  set (l2 := fresh (dom h1)) in *.
  set (w1 := mkWorld (mkBot l1 l2) (<[l2 := snapshot root2]> h1)) in *.
  assert (lf ∉ dom (heap w)) as Hlf by apply is_fresh.
  assert (l1 ∉ dom (heap w0)) as Hl1 by apply is_fresh.
  assert (l2 ∉ dom h1) as Hl2 by apply is_fresh.
  assert (lf ≠ l1) as Hf1.
  { intros Heq. apply Hl1. rewrite <- Heq. unfold w0. cbn [heap].
    rewrite dom_insert_L. apply elem_of_union_l. by apply elem_of_singleton. }
  assert (lf ≠ l2) as Hf2.
  { intros Heq. apply Hl2. rewrite <- Heq. unfold h1, w0. cbn [heap].
    rewrite !dom_insert_L. apply elem_of_union_r, elem_of_union_l.
    by apply elem_of_singleton. }
  assert (l1 ≠ l2) as H12.
  { intros Heq. apply Hl2. rewrite <- Heq. unfold h1.
    rewrite dom_insert_L. apply elem_of_union_l. by apply elem_of_singleton. }
  assert (heap w1 !! lf = Some (snapshot root1)) as Hfiles.
  { unfold w1, h1, w0. cbn [heap].
    rewrite !lookup_insert_ne by done. by rewrite lookup_insert_eq. }
  assert (before w1 = snapshot root2) as Hb1.
  { unfold before, w1, h1. cbn [self heap initial_files].
    rewrite lookup_total_insert_ne by done. by rewrite lookup_total_insert_eq. }
  destruct (run_operations_frame ops w1) as (w2 & Hops & Hself & Hframe).
  exists lf, w1, w2.
  split.
  { rewrite (bind_Ok _ _ _ _ _ Hget). by rewrite (bind_Ok _ _ _ _ _ Hinit). }
  split; [exact Hops|]. split; [exact Hf1|]. split; [exact Hf2|].
  split; [exact H12|]. split; [exact Hlf|]. split; [exact Hfiles|].
  split; [exact Hb1|]. split.
  { unfold after, w1. cbn [self heap current_files].
    by rewrite lookup_total_insert_eq. }
  split.
  { rewrite Hframe; [exact Hfiles|]. exact Hf2. }
  unfold before. rewrite Hself. rewrite <- Hb1. unfold before.
  apply (f_equal (λ o : option dict, default ∅ o)) with
    (x := heap w2 !! initial_files (self w1))
    (y := heap w1 !! initial_files (self w1)).
  apply Hframe. exact H12.
Qed.

(** ** The summary *)

Lemma summary_loop (category : str) (src : dict) (body_src : str → M str)
    (w : world) (l : list str) (summary : gmap str dict) (inner : dict) :
  summary !! category = Some inner →
  Forall (λ p, p ∈ dom src) l →
  (∀ p c, src !! p = Some c → body_src p w = Ok c w) →
  for_each l summary
    (λ summary file_path,
       content ← body_src file_path;
       summary_set summary category file_path content) w
  = Ok (<[category := foldl (λ (d : dict) p, <[p := src !!! p]> d) inner l]>
          summary) w.
Proof.
  intros Hcat Hl Hbody. revert summary inner Hcat.
  induction Hl as [|p l Hp Hl IH]; intros summary inner Hcat; simpl.
  - unfold mret, M_ret. f_equal. by rewrite insert_id.
  - apply elem_of_dom in Hp as [c Hc].
    assert ((content ← body_src p; summary_set summary category p content) w
            = Ok (<[category := <[p := c]> inner]> summary) w) as Hstep.
    { rewrite (bind_Ok _ _ _ _ _ (Hbody p c Hc)).
      unfold summary_set, getitem. rewrite Hcat. reflexivity. }
    rewrite (bind_Ok _ _ _ _ _ Hstep).
    rewrite (IH _ (<[p := c]> inner)) by apply lookup_insert_eq.
    rewrite insert_insert_eq. by rewrite (lookup_total_correct _ _ _ Hc).
Qed.

Lemma lookup_foldl_insert (src : dict) (l : list str) (d : dict) p :
  foldl (λ (d : dict) p, <[p := src !!! p]> d) d l !! p
  = if bool_decide (p ∈ l) then Some (src !!! p) else d !! p.
Proof.
  revert d. induction l as [|q l IH]; intros d; cbn [foldl].
  - case_bool_decide as H; [by apply elem_of_nil in H|done].
  - rewrite IH. destruct (decide (p ∈ l)) as [Hl|Hl].
    + rewrite (bool_decide_eq_true_2 _ Hl).
      rewrite bool_decide_eq_true_2; [done|]. apply elem_of_cons. by right.
    + rewrite (bool_decide_eq_false_2 _ Hl).
      destruct (decide (p = q)) as [->|Hne].
      * rewrite bool_decide_eq_true_2 by (apply elem_of_cons; by left).
        by rewrite lookup_insert_eq.
      * rewrite bool_decide_eq_false_2.
        -- by rewrite lookup_insert_ne.
        -- intros [?|?]%elem_of_cons; done.
Qed.

(** The part of [src] on the paths of [X]. *)
Lemma lookup_restriction (src : dict) (X : gset str) p c :
  X ⊆ dom src →
  foldl (λ (d : dict) p, <[p := src !!! p]> d) ∅ (elements X) !! p = Some c
  ↔ p ∈ X ∧ src !! p = Some c.
Proof.
  intros Hsub. rewrite lookup_foldl_insert.
  destruct (decide (p ∈ X)) as [Hp|Hp].
  - rewrite bool_decide_eq_true_2 by by apply elem_of_elements.
    destruct (proj1 (elem_of_dom _ _) (Hsub _ Hp)) as [c' Hc'].
    rewrite (lookup_total_correct _ _ _ Hc'), Hc'. tauto.
  - rewrite bool_decide_eq_false_2 by by rewrite elem_of_elements.
    rewrite lookup_empty. split; [done|tauto].
Qed.

Lemma summary_three_keys (a m d : dict) :
  <[Py.lit "deleted" := d]>
    (<[Py.lit "modified" := m]> (<[Py.lit "added" := a]> empty_summary))
  = <[Py.lit "added" := a]> (<[Py.lit "modified" := m]>
      (<[Py.lit "deleted" := d]> ∅)).
Proof.
  unfold empty_summary. apply map_eq. intros k.
  destruct (decide (k = Py.lit "deleted")) as [->|Hd].
  { rewrite lookup_insert_eq. rewrite !lookup_insert_ne by done.
    by rewrite lookup_insert_eq. }
  rewrite (lookup_insert_ne _ (Py.lit "deleted") k) by done.
  destruct (decide (k = Py.lit "modified")) as [->|Hm].
  { rewrite lookup_insert_eq. rewrite lookup_insert_ne by done.
    by rewrite lookup_insert_eq. }
  rewrite (lookup_insert_ne _ (Py.lit "modified") k) by done.
  destruct (decide (k = Py.lit "added")) as [->|Ha].
  { by rewrite !lookup_insert_eq. }
  rewrite !(lookup_insert_ne _ (Py.lit "added") k) by done.
  rewrite !(lookup_insert_ne _ (Py.lit "modified") k) by done.
  by rewrite !(lookup_insert_ne _ (Py.lit "deleted") k) by done.
Qed.

(** X4.  [get_changed_files_summary] always returns and leaves the world as
    it is.  Its result has the three keys [added], [modified], [deleted] and
    no other; [added] maps every added path to its content in [after],
    [modified] every modified path to its new content in [after], and
    [deleted] every deleted path to its old content in [before]. *)
Theorem summary_holds_the_contents_of_the_changes (w : world) :
  ∃ a m d : dict,
    get_changed_files_summary w
    = Ok (<[Py.lit "added" := a]> (<[Py.lit "modified" := m]>
            (<[Py.lit "deleted" := d]> ∅))) w ∧
    (∀ p c, a !! p = Some c ↔ after w !! p = Some c ∧ before w !! p = None) ∧
    (∀ p c, m !! p = Some c ↔
            after w !! p = Some c ∧ ∃ c0, before w !! p = Some c0 ∧ c0 ≠ c) ∧
    (∀ p c, d !! p = Some c ↔ before w !! p = Some c ∧ after w !! p = None).
Proof.
  set (A := dom (after w) ∖ dom (before w)).
  set (Mo := filter (λ p, before w !! p ≠ after w !! p)
               (dom (before w) ∩ dom (after w))).
  set (D := dom (before w) ∖ dom (after w)).
  exists (foldl (λ (d : dict) p, <[p := after w !!! p]> d) ∅ (elements A)),
         (foldl (λ (d : dict) p, <[p := after w !!! p]> d) ∅ (elements Mo)),
         (foldl (λ (d : dict) p, <[p := before w !!! p]> d) ∅ (elements D)).
  assert (A ⊆ dom (after w)) as HA.
  { intros p Hp. by apply elem_of_difference in Hp as [? _]. }
  assert (Mo ⊆ dom (after w)) as HM.
  { intros p Hp. apply elem_of_filter in Hp as [_ Hp].
    by apply elem_of_intersection in Hp as [_ ?]. }
  assert (D ⊆ dom (before w)) as HD.
  { intros p Hp. by apply elem_of_difference in Hp as [? _]. }
  split.
  - unfold get_changed_files_summary.
    rewrite (bind_Ok _ _ _ _ _ (get_changes_ok w)). unfold classify.
    fold A Mo D. fold empty_summary.
    erewrite bind_Ok.
    2: { apply (summary_loop (Py.lit "added") (after w) current_files_getitem
                  w (elements A) empty_summary ∅).
         - reflexivity.
         - apply Forall_forall. intros p Hp%elem_of_elements. by apply HA.
         - intros p c. apply current_files_getitem_ok. }
    erewrite bind_Ok.
    2: { apply (summary_loop (Py.lit "modified") (after w) current_files_getitem
                  w (elements Mo) _ ∅).
         - rewrite lookup_insert_ne by done. reflexivity.
         - apply Forall_forall. intros p Hp%elem_of_elements. by apply HM.
         - intros p c. apply current_files_getitem_ok. }
    erewrite bind_Ok.
    2: { apply (summary_loop (Py.lit "deleted") (before w) initial_files_getitem
                  w (elements D) _ ∅).
         - rewrite !lookup_insert_ne by done. reflexivity.
         - apply Forall_forall. intros p Hp%elem_of_elements. by apply HD.
         - intros p c. apply initial_files_getitem_ok. }
    unfold mret, M_ret. by rewrite summary_three_keys.
  - split; [|split]; intros p c.
    + rewrite (lookup_restriction _ _ _ _ HA). unfold A.
      rewrite elem_of_difference, not_elem_of_dom, elem_of_dom.
      split; [tauto|]. intros [Ha Hb]. eauto.
    + rewrite (lookup_restriction _ _ _ _ HM). unfold Mo.
      rewrite elem_of_filter, elem_of_intersection, !elem_of_dom. split.
      * intros [(Hne & [c0 Hc0] & _) Hc]. split; [done|].
        exists c0. split; [done|]. congruence.
      * intros [Hc (c0 & Hc0 & Hne)]. rewrite Hc, Hc0.
        split; [|done]. split; [congruence|]. eauto.
    + rewrite (lookup_restriction _ _ _ _ HD). unfold D.
      rewrite elem_of_difference, not_elem_of_dom, elem_of_dom.
      split; [tauto|]. intros [Hb Ha]. eauto.
Qed.

(** ** The order of the blocks *)

(** X5.  The lines that [generate_patch] joins are the blocks of the
    deleted paths, then of the modified paths, then of the added paths, and
    in each group every path of the category occurs once, in strictly
    ascending order of the code points. *)
Theorem patch_blocks_come_in_order (w : world) :
  ∃ deleted modified added : list str,
    (∀ p, p ∈ deleted ↔ p ∈ dom (before w) ∧ (p ∉ dom (after w))) ∧
    (∀ p, p ∈ modified ↔
          ∃ x y, before w !! p = Some x ∧ after w !! p = Some y ∧ x ≠ y) ∧
    (∀ p, p ∈ added ↔ p ∈ dom (after w) ∧ (p ∉ dom (before w))) ∧
    StronglySorted (λ a b, Py.str_le a b ∧ a ≠ b) deleted ∧
    StronglySorted (λ a b, Py.str_le a b ∧ a ≠ b) modified ∧
    StronglySorted (λ a b, Py.str_le a b ∧ a ≠ b) added ∧
    generate_patch_lines w
    = Ok (concat ((λ p, deleted_block p (before w !!! p)) <$> deleted)
          ++ concat ((λ p, modified_block p
                        (default [] (content_diff (before w !!! p)
                                                  (after w !!! p))))
                     <$> modified)
          ++ concat ((λ p, added_block p (after w !!! p)) <$> added)) w.
Proof.
  exists (Py.sorted (dom (before w) ∖ dom (after w))),
         (Py.sorted (filter (λ p, before w !! p ≠ after w !! p)
                       (dom (before w) ∩ dom (after w)))),
         (Py.sorted (dom (after w) ∖ dom (before w))).
  split; [|split; [|split]].
  - intros p. by rewrite elem_of_sorted, elem_of_difference.
  - intros p.
    rewrite elem_of_sorted, elem_of_filter, elem_of_intersection, !elem_of_dom.
    split.
    + intros (Hne & [x Hx] & [y Hy]). exists x, y.
      split; [done|]. split; [done|]. congruence.
    + intros (x & y & Hx & Hy & Hne). rewrite Hx, Hy.
      split; [congruence|]. eauto.
  - intros p. by rewrite elem_of_sorted, elem_of_difference.
  - split; [apply sorted_strictly_ascending|].
    split; [apply sorted_strictly_ascending|].
    split; [apply sorted_strictly_ascending|].
    apply generate_patch_lines_ok.
Qed.

(** ** An empty patch *)

Lemma classify_empty (b a : dict) : classify b a = (∅, ∅, ∅) → b = a.
Proof.
  unfold classify. intros [= Ha Hm Hd]. apply map_eq. intros p.
  destruct (b !! p) as [x|] eqn:Hb; destruct (a !! p) as [y|] eqn:Hy;
    [|exfalso..|done].
  - destruct (decide (x = y)) as [->|Hne]; [done|exfalso].
    apply (not_elem_of_empty (C := gset str) p). rewrite <- Hm.
    apply elem_of_filter. rewrite Hb, Hy. split; [congruence|].
    apply elem_of_intersection. split; apply elem_of_dom; eauto.
  - apply (not_elem_of_empty (C := gset str) p). rewrite <- Hd.
    apply elem_of_difference. split; [apply elem_of_dom; eauto|].
    by apply not_elem_of_dom.
  - apply (not_elem_of_empty (C := gset str) p). rewrite <- Ha.
    apply elem_of_difference. split; [apply elem_of_dom; eauto|].
    by apply not_elem_of_dom.
Qed.

Lemma sorted_nil_empty (X : gset str) : Py.sorted X = [] → X = ∅.
Proof.
  intros H. apply set_eq. intros p. rewrite <- elem_of_sorted, H.
  rewrite elem_of_nil, elem_of_empty. tauto.
Qed.

(** The first line of a concatenation of blocks that start with a
    non-empty line. *)
Lemma blocks_head (g : str → list str) (l : list str) :
  (∀ p, ∃ h t, g p = h :: t ∧ h ≠ []) →
  (l = [] ∧ concat (g <$> l) = [])
  ∨ ∃ h t, concat (g <$> l) = h :: t ∧ h ≠ [].
Proof.
  intros Hg. destruct l as [|p l]; [by left|right].
  destruct (Hg p) as (h & t & Hp & Hh). exists h, (t ++ concat (g <$> l)).
  split; [|done]. cbn [fmap list_fmap concat]. by rewrite Hp.
Qed.

Lemma patch_blocks_head (b a : dict) :
  (classify b a = (∅, ∅, ∅) ∧ patch_blocks b a = [])
  ∨ ∃ h t, patch_blocks b a = h :: t ∧ h ≠ [].
Proof.
  unfold patch_blocks, classify.
  destruct (blocks_head (λ p, deleted_block p (b !!! p))
              (Py.sorted (dom b ∖ dom a))) as [[Hd ->]|(h & t & -> & Hh)].
  { intros p. eexists _, _. split; [reflexivity|]. discriminate. }
  2: { right. exists h. eexists. split; [reflexivity|done]. }
  destruct (blocks_head
              (λ p, modified_block p
                      (default [] (content_diff (b !!! p) (a !!! p))))
              (Py.sorted (filter (λ p, b !! p ≠ a !! p) (dom b ∩ dom a))))
    as [[Hm ->]|(h & t & -> & Hh)].
  { intros p. eexists _, _. split; [reflexivity|]. discriminate. }
  2: { right. exists h. eexists. split; [reflexivity|done]. }
  destruct (blocks_head (λ p, added_block p (a !!! p))
              (Py.sorted (dom a ∖ dom b))) as [[Ha ->]|(h & t & -> & Hh)].
  { intros p. eexists _, _. split; [reflexivity|]. discriminate. }
  2: { right. exists h. eexists. split; [reflexivity|done]. }
  left. split; [|done].
  by rewrite (sorted_nil_empty _ Hd), (sorted_nil_empty _ Hm),
    (sorted_nil_empty _ Ha).
Qed.

Lemma join_head_nonempty sep h t : h ≠ [] → Py.join sep (h :: t) ≠ [].
Proof.
  intros Hh. cbn [Py.join]. destruct t; [done|].
  destruct h; [done|discriminate].
Qed.

(** X6.  The patch text is empty exactly when the two mappings are equal:
    every added, modified or deleted path leaves text in the patch. *)
Theorem patch_is_empty_iff_nothing_changed (w : world) :
  generate_patch w = Ok [] w ↔ before w = after w.
Proof.
  split.
  - rewrite generate_patch_ok. intros [= Hj].
    destruct (patch_blocks_head (before w) (after w))
      as [[Hc _]|(h & t & Hp & Hh)].
    + by apply classify_empty.
    + rewrite Hp in Hj. by apply join_head_nonempty in Hj.
  - intros H. by apply same_snapshots_empty_result.
Qed.

(** ** The lines of the deleted and of the added blocks *)

Lemma linebreak_is_whitespace c :
  Py.is_linebreak c = true → Py.is_whitespace c = true.
Proof.
  unfold Py.is_linebreak. intros H%bool_decide_eq_true.
  repeat (apply elem_of_cons in H as [->|H]; [reflexivity|]).
  by apply elem_of_nil in H.
Qed.

Lemma rstrip_all_whitespace t :
  Forall (λ c, Py.is_whitespace c = true) t → Py.rstrip t = [].
Proof.
  induction 1 as [|c t Hc Ht IH]; simpl; [done|]. by rewrite IH, Hc.
Qed.

Lemma rstrip_app_whitespace x t :
  Forall (λ c, Py.is_whitespace c = true) t → Py.rstrip (x ++ t) = Py.rstrip x.
Proof.
  intros Ht. induction x as [|c x IH]; simpl.
  - by apply rstrip_all_whitespace.
  - by rewrite IH.
Qed.

Lemma Forall_rstrip (P : N → Prop) s : Forall P s → Forall P (Py.rstrip s).
Proof.
  induction 1 as [|c s Hc Hs IH]; simpl; [constructor|].
  destruct (Py.rstrip s) as [|d r].
  - destruct (Py.is_whitespace c); by repeat constructor.
  - by constructor.
Qed.

Lemma rstrip_idempotent s : Py.rstrip (Py.rstrip s) = Py.rstrip s.
Proof.
  induction s as [|c s IH]; simpl; [done|].
  destruct (Py.rstrip s) as [|d r] eqn:Hr.
  - destruct (Py.is_whitespace c) eqn:Hc; simpl; [done|]. by rewrite Hc.
  - change (Py.rstrip (c :: d :: r)) with
      (match Py.rstrip (d :: r) with
       | [] => if Py.is_whitespace c then [] else [c]
       | t => c :: t
       end).
    by rewrite IH.
Qed.

(** Every line of [splitlines(keepends=True)] is text without a line
    terminator, followed by white space (its terminator, if it has one). *)
Lemma splitlines_from_lines n : ∀ s acc,
  length s ≤ n → Forall (λ c, Py.is_linebreak c = false) acc →
  Forall (λ line, ∃ body term,
            line = body ++ term ∧
            Forall (λ c, Py.is_linebreak c = false) body ∧
            Forall (λ c, Py.is_whitespace c = true) term)
         (Py.splitlines_from acc s).
Proof.
  induction n as [|n IH]; intros s acc Hn Hacc.
  - destruct s; [|simpl in Hn; lia]. simpl.
    destruct acc; [constructor|]. constructor; [|constructor].
    eexists _, []. rewrite app_nil_r. by repeat split.
  - destruct s as [|c rest]; simpl.
    { destruct acc; [constructor|]. constructor; [|constructor].
      eexists _, []. rewrite app_nil_r. by repeat split. }
    simpl in Hn.
    destruct (Py.is_linebreak c) eqn:Hc.
    + assert (Py.is_whitespace c = true) as Hw
        by by apply linebreak_is_whitespace.
      assert (Forall (λ line, ∃ body term,
                line = body ++ term ∧
                Forall (λ c, Py.is_linebreak c = false) body ∧
                Forall (λ c, Py.is_whitespace c = true) term)
              ((acc ++ [c]) :: Py.splitlines_from [] rest)) as Hone.
      { constructor; [|apply IH; [lia|constructor]].
        exists acc, [c]. by repeat split; repeat constructor. }
      destruct (c =? Py.CR)%N; [|exact Hone].
      destruct rest as [|c' rest']; [exact Hone|].
      destruct (c' =? Py.LF)%N eqn:Hlf; [|exact Hone].
      apply N.eqb_eq in Hlf. subst c'.
      constructor; [|apply IH; [simpl in Hn; lia|constructor]].
      exists acc, [c; Py.LF]. by repeat split; repeat constructor.
    + apply IH; [lia|]. apply Forall_app. by repeat constructor.
Qed.

Lemma stripped_lines_are_clean (prefix : N) content :
  Forall (clean_line prefix)
    ((λ line, [prefix] ++ Py.rstrip line) <$> Py.splitlines_keepends content).
Proof.
  apply Forall_fmap.
  eapply Forall_impl;
    [apply (splitlines_from_lines (length content) content []);
       [done|constructor]|].
  intros line (body & term & -> & Hbody & Hterm). cbn [compose].
  exists (Py.rstrip (body ++ term)). split; [done|].
  split; [|apply rstrip_idempotent].
  rewrite rstrip_app_whitespace by done. by apply Forall_rstrip.
Qed.

(** X7.  The block of a deleted path: after the two headers come as many
    lines as the old content has, each a ['-'] and then text without any
    line terminator and without white space at its end, then the
    separator. *)
Theorem deleted_block_lines_are_stripped (w : world) (patch_lines : list str)
    (p content : str) :
  before w !! p = Some content →
  ∃ body,
    render_deleted patch_lines p w
    = Ok (patch_lines ++ [Py.lit "--- a/" ++ p; Py.lit "+++ /dev/null"]
          ++ body ++ [[]]) w ∧
    length body = length (Py.splitlines_keepends content) ∧
    Forall (clean_line 45) body.
Proof.
  intros Hb. rewrite (render_deleted_ok w patch_lines p content Hb).
  eexists. split; [reflexivity|]. split; [by rewrite length_fmap|].
  apply (stripped_lines_are_clean 45).
Qed.

(** X8.  The block of an added path: after the two headers come as many
    lines as the new content has, each a ['+'] and then text without any
    line terminator and without white space at its end, then the
    separator. *)
Theorem added_block_lines_are_stripped (w : world) (patch_lines : list str)
    (p content : str) :
  after w !! p = Some content →
  ∃ body,
    render_added patch_lines p w
    = Ok (patch_lines ++ [Py.lit "--- /dev/null"; Py.lit "+++ b/" ++ p]
          ++ body ++ [[]]) w ∧
    length body = length (Py.splitlines_keepends content) ∧
    Forall (clean_line 43) body.
Proof.
  intros Ha. rewrite (render_added_ok w patch_lines p content Ha).
  eexists. split; [reflexivity|]. split; [by rewrite length_fmap|].
  apply (stripped_lines_are_clean 43).
Qed.

(** ** The lines of the modified blocks *)

Lemma Forall_slice (P : str → Prop) a i1 i2 :
  Forall P a → Forall P (difflib.slice a i1 i2).
Proof. intros H. unfold difflib.slice. by apply Forall_take, Forall_drop. Qed.

Lemma hunk_lines a b group :
  Forall (diff_line a b) (difflib.hunk a b [] group).
Proof.
  unfold difflib.hunk.
  destruct (default _ (head group)) as [[[[? first1] ?] first3] ?].
  destruct (default _ (last group)) as [[[[? ?] last2] ?] last4].
  constructor.
  { left. eexists. reflexivity. }
  assert (Forall (λ x, x ∈ a) a) as Ha by by apply Forall_forall.
  assert (Forall (λ x, x ∈ b) b) as Hb by by apply Forall_forall.
  induction group as [|[[[[tag i1] i2] j1] j2] group IH];
    cbn [fmap list_fmap concat]; [constructor|].
  apply Forall_app. split; [|exact IH].
  assert (Forall (diff_line a b)
            ((λ line, Py.lit " " ++ line) <$> difflib.slice a i1 i2)) as Heq.
  { apply Forall_fmap. eapply Forall_impl; [apply Forall_slice, Ha|].
    intros line Hl. right. left. exists line. split; [done|]. by left. }
  assert (Forall (diff_line a b)
            ((λ line, Py.lit "-" ++ line) <$> difflib.slice a i1 i2)) as Hdel.
  { apply Forall_fmap. eapply Forall_impl; [apply Forall_slice, Ha|].
    intros line Hl. right. left. exists line. split; [done|]. by right. }
  assert (Forall (diff_line a b)
            ((λ line, Py.lit "+" ++ line) <$> difflib.slice b j1 j2)) as Hins.
  { apply Forall_fmap. eapply Forall_impl; [apply Forall_slice, Hb|].
    intros line Hl. right. right. exists line. by split. }
  destruct tag; [| | |exact Heq];
    apply Forall_app; split;
    repeat case_bool_decide; try constructor; try done.
Qed.

Lemma unified_diff_lines a b n diff :
  difflib.unified_diff a b n [] = Some diff →
  Forall (diff_line a b) (drop 2 diff).
Proof.
  unfold difflib.unified_diff.
  destruct (difflib.get_grouped_opcodes a b n) as [groups|]; [|done].
  simpl. intros [= <-].
  destruct groups as [|g groups]; [constructor|].
  cbn [app drop]. generalize (g :: groups). intros gs.
  induction gs as [|g' gs IH]; cbn [fmap list_fmap concat]; [constructor|].
  apply Forall_app. split; [apply hunk_lines|exact IH].
Qed.

(** X9.  The block of a path of both mappings: after the two headers,
    every line up to the separator is a hunk header [@@ -...] or a line of the
    old content behind [' '] or ['-'] or a line of the new content behind
    ['+'] - the line as [splitlines(keepends=True)] gives it, its terminator
    included. *)
Theorem modified_block_lines_are_verbatim (w : world) (patch_lines : list str)
    (p original new : str) :
  before w !! p = Some original → after w !! p = Some new →
  ∃ body,
    render_modified patch_lines p w
    = Ok (patch_lines ++ [Py.lit "--- a/" ++ p; Py.lit "+++ b/" ++ p]
          ++ body ++ [[]]) w ∧
    Forall (diff_line (Py.splitlines_keepends original)
                      (Py.splitlines_keepends new)) body.
Proof.
  intros Hb Ha. destruct (content_diff_total original new) as [diff Hd].
  rewrite (render_modified_ok w patch_lines p original new diff Hb Ha Hd).
  exists (drop 2 diff). split; [reflexivity|].
  by apply (unified_diff_lines _ _ 3).
Qed.

(** ** Sequences of operations *)

Lemma run_operation_after o w :
  ∃ w', run_operation o w = Ok () w' ∧ self w' = self w ∧
        after w' = apply_operation (after w) o ∧
        ∀ l, l ≠ current_files (self w) → heap w' !! l = heap w !! l.
Proof.
  destruct o as [p c|p]; cbn [run_operation apply_operation].
  - rewrite track_file_change_ok. eexists; split; [done|]. split; [done|].
    split.
    + unfold after at 1. cbn [self heap]. by rewrite lookup_total_insert_eq.
    + intros l Hl. cbn [heap]. by rewrite lookup_insert_ne.
  - rewrite track_file_deletion_ok. eexists; split; [done|].
    case_bool_decide as Hp.
    + split; [done|]. split.
      * unfold after at 1. cbn [self heap]. by rewrite lookup_total_insert_eq.
      * intros l Hl. cbn [heap]. by rewrite lookup_insert_ne.
    + split; [done|]. split; [|done].
      symmetry. apply delete_id. by apply not_elem_of_dom.
Qed.

Lemma run_operations_after ops w :
  ∃ w', run_operations ops w = Ok () w' ∧ self w' = self w ∧
        after w' = foldl apply_operation (after w) ops ∧
        ∀ l, l ≠ current_files (self w) → heap w' !! l = heap w !! l.
Proof.
  revert w. induction ops as [|o ops IH]; intros w; cbn [run_operations foldl].
  - by exists w.
  - destruct (run_operation_after o w) as (w1 & Ho & Hs1 & Ha1 & Hh1).
    rewrite (bind_Ok _ _ _ _ _ Ho).
    destruct (IH w1) as (w2 & Hops & Hs2 & Ha2 & Hh2).
    exists w2. split; [done|]. split; [congruence|]. split; [congruence|].
    intros l Hl. rewrite Hh2 by congruence. by apply Hh1.
Qed.

Lemma last_operation_snoc p ops o :
  last_operation p (ops ++ [o])
  = if bool_decide (operation_path o = p) then Some o else last_operation p ops.
Proof.
  unfold last_operation. rewrite filter_app.
  cbn [filter list_filter]. case_decide as Ho.
  - rewrite bool_decide_eq_true_2 by done. by rewrite last_snoc.
  - rewrite bool_decide_eq_false_2 by done. by rewrite app_nil_r.
Qed.

Lemma lookup_foldl_apply_operation (d : dict) ops p :
  foldl apply_operation d ops !! p
  = match last_operation p ops with
    | Some (recordChange _ content) => Some content
    | Some (recordDeletion _) => None
    | None => d !! p
    end.
Proof.
  induction ops as [|o ops IH] using rev_ind; [done|].
  rewrite foldl_snoc, last_operation_snoc.
  case_bool_decide as Ho.
  - destruct o as [q c|q]; cbn [operation_path apply_operation] in *; subst q.
    + by rewrite lookup_insert_eq.
    + by rewrite lookup_delete_eq.
  - destruct o as [q c|q]; cbn [operation_path apply_operation] in *.
    + by rewrite lookup_insert_ne.
    + by rewrite lookup_delete_ne.
Qed.

(** X10.  After any sequence of [track_file_change] and
    [track_file_deletion], what [current_files] holds for a path is decided
    by the last operation about that path: its content after a change,
    nothing after a deletion, and what it held before when no operation was
    about the path. *)
Theorem last_operation_decides_the_content (w : world) (ops : list operation)
    (p : str) :
  ∃ w',
    run_operations ops w = Ok () w' ∧
    after w' !! p
    = match last_operation p ops with
      | Some (recordChange _ content) => Some content
      | Some (recordDeletion _) => None
      | None => after w !! p
      end.
Proof.
  destruct (run_operations_after ops w) as (w' & Hops & _ & Ha & _).
  exists w'. split; [done|]. rewrite Ha. apply lookup_foldl_apply_operation.
Qed.

Lemma initialized_world root w :
  ∃ w1, initialize_tracking root w = Ok () w1 ∧
        before w1 = snapshot root ∧ after w1 = snapshot root ∧
        initial_files (self w1) ≠ current_files (self w1).
Proof.
  pose proof (initialize_tracking_ok root w) as Hinit. cbv zeta in Hinit.
  eexists. split; [exact Hinit|].
  set (l1 := fresh (dom (heap w))).
  set (h1 := <[l1 := snapshot root]> (heap w)).
  set (l2 := fresh (dom h1)).
  assert (l1 ≠ l2) as Hne.
  { intros Heq. apply (is_fresh (dom h1)). fold l2. rewrite <- Heq.
    unfold h1. rewrite dom_insert_L. apply elem_of_union_l.
    by apply elem_of_singleton. }
  unfold before, after. cbn [self heap initial_files current_files].
  split; [|split; [|done]].
  - rewrite lookup_total_insert_ne by done. unfold h1.
    by rewrite lookup_total_insert_eq.
  - by rewrite lookup_total_insert_eq.
Qed.

Lemma before_frame w w' :
  self w' = self w →
  initial_files (self w) ≠ current_files (self w) →
  (∀ l, l ≠ current_files (self w) → heap w' !! l = heap w !! l) →
  before w' = before w.
Proof.
  intros Hs Hne Hframe. unfold before. rewrite Hs.
  apply (f_equal (λ o : option dict, default ∅ o)) with
    (x := heap w' !! initial_files (self w))
    (y := heap w !! initial_files (self w)).
  by apply Hframe.
Qed.

(** X11.  In a session - [initialize_tracking], then any sequence of
    operations - the class of a path is decided by the last operation about
    it.  After a change to [c] the path is added when the listing has no such
    file, modified when the listing has it with another content, and in no
    set when the listing has it with content [c].  After a deletion it is
    deleted when the listing has it and in no set otherwise.  Without an
    operation it is in no set. *)
Theorem last_operation_decides_the_class (root : list ContentFile) (w : world)
    (ops : list operation) (p : str) :
  ∃ w1 w2 (added modified deleted : gset str),
    initialize_tracking root w = Ok () w1 ∧
    run_operations ops w1 = Ok () w2 ∧
    get_changes w2 = Ok (added, modified, deleted) w2 ∧
    match last_operation p ops with
    | Some (recordChange _ c) =>
        (p ∈ added ↔ snapshot root !! p = None) ∧
        (p ∈ modified ↔ ∃ c0, snapshot root !! p = Some c0 ∧ c0 ≠ c) ∧
        (p ∉ deleted)
    | Some (recordDeletion _) =>
        (p ∉ added) ∧ (p ∉ modified) ∧ (p ∈ deleted ↔ p ∈ dom (snapshot root))
    | None => (p ∉ added) ∧ (p ∉ modified) ∧ (p ∉ deleted)
    end.
Proof.
  destruct (initialized_world root w) as (w1 & Hinit & Hb1 & Ha1 & Hne).
  destruct (run_operations_after ops w1) as (w2 & Hops & Hself & Ha2 & Hframe).
  pose proof (before_frame w1 w2 Hself Hne Hframe) as Hb2.
  eexists w1, w2, _, _, _. split; [exact Hinit|]. split; [exact Hops|].
  split; [apply get_changes_ok|].
  rewrite Hb2, Hb1.
  pose proof (lookup_foldl_apply_operation (after w1) ops p) as Hp.
  rewrite <- Ha2, Ha1 in Hp.
  destruct (last_operation p ops) as [[q c|q]|];
    rewrite !elem_of_difference, elem_of_filter, elem_of_intersection,
      !elem_of_dom, Hp.
  - split; [|split].
    + split; [intros [_ H]; by apply eq_None_not_Some|].
      intros H. split; [eauto|by apply eq_None_not_Some].
    + split.
      * intros (Hd & [c0 Hc0] & _). exists c0. split; [done|]. congruence.
      * intros (c0 & Hc0 & Hd). rewrite Hc0. split; [congruence|eauto].
    + intros [_ H]. apply H. eauto.
  - split; [|split].
    + intros [[? [=]] _].
    + intros (_ & _ & [? [=]]).
    + split; [tauto|]. intros H. split; [done|]. by intros [? [=]].
  - split; [|split]; tauto.
Qed.

(** X12.  [initialize_tracking] starts a clean session whatever the bot
    tracked before: right after it there is no change to report, the patch is
    empty and so are the three categories of the summary. *)
Theorem initialize_tracking_resets_the_session (root : list ContentFile)
    (w : world) :
  ∃ w1,
    initialize_tracking root w = Ok () w1 ∧
    get_changes w1 = Ok (∅, ∅, ∅) w1 ∧
    generate_patch w1 = Ok [] w1 ∧
    get_changed_files_summary w1 = Ok empty_summary w1.
Proof.
  destruct (initialized_world root w) as (w1 & Hinit & Hb1 & Ha1 & _).
  exists w1. split; [exact Hinit|].
  apply same_snapshots_empty_result. congruence.
Qed.

(** ** The work directory of [process_claude_request] *)

Lemma track_walk_entry_ok p r w :
  ∃ w', track_walk_entry p r w = Ok () w' ∧ self w' = self w ∧
        after w' = walk_step (before w) (after w) (p, r) ∧
        ∀ l, l ≠ current_files (self w) → heap w' !! l = heap w !! l.
Proof.
  unfold track_walk_entry, walk_step.
  destruct (startswith_dot p); [by exists w|].
  destruct r as [c|]; [|by exists w].
  rewrite (bind_Ok get_initial_files _ w _ w eq_refl).
  rewrite (bind_Ok (read _) _ w _ w eq_refl). fold (before w).
  assert (∃ w', track_file_change p c w = Ok () w' ∧ self w' = self w ∧
                after w' = <[p := c]> (after w) ∧
                ∀ l, l ≠ current_files (self w) → heap w' !! l = heap w !! l)
    as Hchange.
  { rewrite track_file_change_ok. eexists; split; [done|]. split; [done|].
    split.
    - unfold after at 1. cbn [self heap]. by rewrite lookup_total_insert_eq.
    - intros l Hl. cbn [heap]. by rewrite lookup_insert_ne. }
  case_bool_decide as Hin.
  - apply elem_of_dom in Hin as [c0 Hc0].
    rewrite (bind_Ok _ _ _ _ _ (initial_files_getitem_ok w p c0 Hc0)).
    rewrite Hc0. destruct (decide (c = c0)) as [->|Hne].
    + rewrite bool_decide_eq_false_2 by (intros H; by apply H).
      rewrite bool_decide_eq_true_2 by done. by exists w.
    + rewrite bool_decide_eq_true_2 by done.
      rewrite bool_decide_eq_false_2 by congruence. exact Hchange.
  - apply not_elem_of_dom in Hin. rewrite Hin.
    rewrite bool_decide_eq_false_2 by done. exact Hchange.
Qed.

Lemma walk_loop_ok (entries : list (str * option str)) w :
  initial_files (self w) ≠ current_files (self w) →
  ∃ w', for_each entries ()
          (λ _ '(relative_path, read_result),
             track_walk_entry relative_path read_result) w = Ok () w' ∧
        self w' = self w ∧
        after w' = foldl (walk_step (before w)) (after w) entries ∧
        ∀ l, l ≠ current_files (self w) → heap w' !! l = heap w !! l.
Proof.
  revert w. induction entries as [|[p r] entries IH]; intros w Hne;
    cbn [for_each foldl].
  - by exists w.
  - destruct (track_walk_entry_ok p r w) as (w1 & Hstep & Hs1 & Ha1 & Hf1).
    rewrite (bind_Ok _ _ _ _ _ Hstep).
    destruct (IH w1) as (w2 & Hrest & Hs2 & Ha2 & Hf2); [congruence|].
    exists w2. split; [done|]. split; [congruence|]. split.
    + rewrite Ha2, Ha1. by rewrite (before_frame w w1 Hs1 Hne Hf1).
    + intros l Hl. rewrite Hf2 by congruence. by apply Hf1.
Qed.

Lemma deletion_loop_ok (d : work_dir) (paths : list str) w :
  ∃ w', for_each paths ()
          (λ _ file_path,
             if exists_ d file_path then mret ()
             else track_file_deletion file_path) w = Ok () w' ∧
        self w' = self w ∧
        after w' = foldl (deletion_step d) (after w) paths ∧
        ∀ l, l ≠ current_files (self w) → heap w' !! l = heap w !! l.
Proof.
  revert w. induction paths as [|p paths IH]; intros w; cbn [for_each foldl].
  - by exists w.
  - assert (∃ w1, (if exists_ d p then mret () else track_file_deletion p) w
                  = Ok () w1 ∧ self w1 = self w ∧
                  after w1 = deletion_step d (after w) p ∧
                  ∀ l, l ≠ current_files (self w) →
                       heap w1 !! l = heap w !! l)
      as (w1 & Hstep & Hs1 & Ha1 & Hf1).
    { unfold deletion_step. destruct (exists_ d p); [by exists w|].
      destruct (run_operation_after (recordDeletion p) w)
        as (w1 & H1 & H2 & H3 & H4).
      by exists w1. }
    rewrite (bind_Ok _ _ _ _ _ Hstep).
    destruct (IH w1) as (w2 & Hrest & Hs2 & Ha2 & Hf2).
    exists w2. split; [done|]. split; [congruence|]. split; [congruence|].
    intros l Hl. rewrite Hf2 by congruence. by apply Hf1.
Qed.

Lemma track_work_dir_ok (d : work_dir) w :
  initial_files (self w) ≠ current_files (self w) →
  ∃ w', track_work_dir d w = Ok () w' ∧ self w' = self w ∧
        before w' = before w ∧
        after w'
        = foldl (deletion_step d)
            (foldl (walk_step (before w)) (after w) (walk d))
            (elements (dom (before w))).
Proof.
  intros Hne. unfold track_work_dir.
  destruct (walk_loop_ok (walk d) w Hne) as (w1 & Hwalk & Hs1 & Ha1 & Hf1).
  rewrite (bind_Ok _ _ _ _ _ Hwalk).
  rewrite (bind_Ok get_initial_files _ w1 _ w1 eq_refl).
  rewrite (bind_Ok (read _) _ w1 _ w1 eq_refl). fold (before w1).
  pose proof (before_frame w w1 Hs1 Hne Hf1) as Hb1. rewrite Hb1.
  destruct (deletion_loop_ok d (elements (dom (before w))) w1)
    as (w2 & Hdel & Hs2 & Ha2 & Hf2).
  exists w2. split; [exact Hdel|]. split; [congruence|]. split.
  - rewrite <- Hb1. apply before_frame; [done|congruence|done].
  - by rewrite Ha2, Ha1.
Qed.

Lemma lookup_deletion_fold (d : work_dir) (paths : list str) (A : dict) p :
  foldl (deletion_step d) A paths !! p
  = if bool_decide (p ∈ paths ∧ exists_ d p = false) then None else A !! p.
Proof.
  induction paths as [|q paths IH] using rev_ind.
  - cbn [foldl]. rewrite bool_decide_eq_false_2; [done|].
    intros [H _]. by apply elem_of_nil in H.
  - rewrite foldl_snoc. unfold deletion_step at 1.
    destruct (decide (p = q)) as [->|Hne].
    + destruct (exists_ d q) eqn:Hq.
      * rewrite IH. rewrite !bool_decide_eq_false_2; [done| |];
          intros [_ H]; congruence.
      * rewrite lookup_delete_eq. rewrite bool_decide_eq_true_2; [done|].
        split; [|done]. apply elem_of_app. right.
        by apply list_elem_of_singleton.
    + assert ((if exists_ d q then foldl (deletion_step d) A paths
               else delete q (foldl (deletion_step d) A paths)) !! p
              = foldl (deletion_step d) A paths !! p) as ->.
      { destruct (exists_ d q); [done|]. by rewrite lookup_delete_ne. }
      rewrite IH.
      apply (f_equal (λ b : bool, if b then None else A !! p)).
      apply bool_decide_ext. rewrite elem_of_app, list_elem_of_singleton.
      tauto.
Qed.

(** A path that the listing does not have: it gets into the dictionary
    when a visited file with that path can be read. *)
Lemma lookup_walk_fold_new (S A : dict) (entries : list (str * option str)) p :
  S !! p = None →
  (is_Some (foldl (walk_step S) A entries !! p)
   ↔ is_Some (A !! p) ∨
     (startswith_dot p = false ∧ ∃ c, (p, Some c) ∈ entries)).
Proof.
  intros HS. induction entries as [|[q r] entries IH] using rev_ind.
  - cbn [foldl]. split; [by left|]. intros [?|(_ & c & H)]; [done|].
    by apply elem_of_nil in H.
  - rewrite foldl_snoc. unfold walk_step at 1.
    assert ((∃ c, (p, Some c) ∈ entries ++ [(q, r)])
            ↔ (∃ c, (p, Some c) ∈ entries) ∨ (q = p ∧ ∃ c, r = Some c)) as Hex.
    { split.
      - intros (c & [H|H%list_elem_of_singleton]%elem_of_app); [eauto|].
        simplify_eq. right. eauto.
      - intros [(c & H)|(-> & c & ->)]; exists c; apply elem_of_app; [by left|].
        right. by apply list_elem_of_singleton. }
    rewrite Hex. clear Hex.
    destruct (decide (q = p)) as [->|Hne].
    + destruct (startswith_dot p) eqn:Hdot.
      { rewrite IH. split; [intros [?|[[=] _]]; by left|].
        intros [?|[[=] _]]. by left. }
      destruct r as [c|].
      2: { rewrite IH. split; [tauto|]. intros [?|(_ & [?|(_ & ? & [=])])]; tauto. }
      rewrite HS. rewrite bool_decide_eq_false_2 by done.
      rewrite lookup_insert_eq. split; [|eauto]. intros _. right.
      split; [done|]. right. eauto.
    + assert (foldl (walk_step S) A entries !! p
              = (if startswith_dot q then foldl (walk_step S) A entries
                 else match r with
                      | Some content =>
                          if bool_decide (S !! q = Some content)
                          then foldl (walk_step S) A entries
                          else <[q:=content]> (foldl (walk_step S) A entries)
                      | None => foldl (walk_step S) A entries
                      end) !! p) as <-.
      { destruct (startswith_dot q); [done|]. destruct r; [|done].
        case_bool_decide; [done|]. by rewrite lookup_insert_ne. }
      rewrite IH. split; [tauto|]. intros [?|(? & [?|[? _]])]; tauto.
Qed.

(** A path that the listing has with content [c0]: it stays in the
    dictionary, with another content exactly when a visited file with that
    path can be read and holds another content. *)
Lemma lookup_walk_fold_old (S : dict) (entries : list (str * option str)) p c0 :
  S !! p = Some c0 →
  ∃ v, foldl (walk_step S) S entries !! p = Some v ∧
       (v ≠ c0 ↔ startswith_dot p = false ∧
                 ∃ c, (p, Some c) ∈ entries ∧ c ≠ c0).
Proof.
  intros HS. induction entries as [|[q r] entries IH] using rev_ind.
  - exists c0. split; [done|]. split; [done|].
    intros (_ & c & H & _). by apply elem_of_nil in H.
  - destruct IH as (v & Hv & Hiff). rewrite foldl_snoc. unfold walk_step at 1.
    assert ((∃ c, (p, Some c) ∈ entries ++ [(q, r)] ∧ c ≠ c0)
            ↔ (∃ c, (p, Some c) ∈ entries ∧ c ≠ c0)
              ∨ (q = p ∧ ∃ c, r = Some c ∧ c ≠ c0)) as Hex.
    { split.
      - intros (c & [H|H%list_elem_of_singleton]%elem_of_app & Hc); [eauto|].
        simplify_eq. right. eauto.
      - intros [(c & H & Hc)|(-> & c & -> & Hc)]; exists c;
          (split; [|done]); apply elem_of_app; [by left|].
        right. by apply list_elem_of_singleton. }
    setoid_rewrite Hex. clear Hex.
    destruct (decide (q = p)) as [->|Hne].
    + destruct (startswith_dot p) eqn:Hdot.
      { exists v. split; [done|]. rewrite Hiff.
        split; intros [[=] _]. }
      destruct r as [c|].
      2: { exists v. split; [done|]. rewrite Hiff. split; [tauto|].
           intros (_ & [?|(_ & ? & [=] & _)]). tauto. }
      rewrite HS. destruct (decide (c = c0)) as [->|Hc].
      * rewrite bool_decide_eq_true_2 by done. exists v. split; [done|].
        rewrite Hiff. split; [tauto|].
        intros (_ & [?|(_ & c & [= <-] & Hc)]); tauto.
      * rewrite bool_decide_eq_false_2 by congruence.
        rewrite lookup_insert_eq. exists c. split; [done|].
        split; [|done]. intros _. split; [done|]. right. eauto.
    + exists v. split.
      * destruct (startswith_dot q); [done|]. destruct r; [|done].
        case_bool_decide; [done|]. by rewrite lookup_insert_ne.
      * rewrite Hiff. split; [tauto|]. intros (? & [?|[? _]]); tauto.
Qed.

Lemma lookup_after_work_dir (S : dict) (d : work_dir) p :
  foldl (deletion_step d) (foldl (walk_step S) S (walk d)) (elements (dom S)) !! p
  = if bool_decide (p ∈ dom S ∧ exists_ d p = false) then None
    else foldl (walk_step S) S (walk d) !! p.
Proof.
  rewrite lookup_deletion_fold.
  apply (f_equal (λ b : bool,
                    if b then None else foldl (walk_step S) S (walk d) !! p)).
  apply bool_decide_ext. by rewrite elem_of_elements.
Qed.

Lemma session_with_work_dir root w d :
  ∃ w1 w2,
    initialize_tracking root w = Ok () w1 ∧ track_work_dir d w1 = Ok () w2 ∧
    before w2 = snapshot root ∧
    after w2 = foldl (deletion_step d)
                 (foldl (walk_step (snapshot root)) (snapshot root) (walk d))
                 (elements (dom (snapshot root))).
Proof.
  destruct (initialized_world root w) as (w1 & Hinit & Hb1 & Ha1 & Hne).
  destruct (track_work_dir_ok d w1 Hne) as (w2 & Hdir & _ & Hb2 & Ha2).
  exists w1, w2. split; [done|]. split; [done|]. split; [congruence|].
  by rewrite Ha2, Hb1, Ha1.
Qed.

(** X13.  What [process_claude_request] reports after
    [initialize_tracking] and its two loops over the work directory:
    - deleted: the files of the listing for which [exists()] is false;
    - added: the paths that the listing does not have, that do not start
      with a dot and for which a visited file could be read;
    - modified: the files of the listing that exist, do not start with a dot
      and for which a visited file could be read and held another content.
    So a file that cannot be read, or whose path starts with a dot, is never
    reported as added or modified. *)
Theorem work_dir_decides_the_classes (root : list ContentFile) (w : world)
    (d : work_dir) :
  ∃ w1 w2 (added modified deleted : gset str),
    initialize_tracking root w = Ok () w1 ∧
    track_work_dir d w1 = Ok () w2 ∧
    before w2 = snapshot root ∧
    get_changes w2 = Ok (added, modified, deleted) w2 ∧
    (∀ p, p ∈ deleted ↔ p ∈ dom (snapshot root) ∧ exists_ d p = false) ∧
    (∀ p, p ∈ added ↔
          snapshot root !! p = None ∧ startswith_dot p = false ∧
          ∃ c, (p, Some c) ∈ walk d) ∧
    (∀ p, p ∈ modified ↔
          exists_ d p = true ∧ startswith_dot p = false ∧
          ∃ c0 c, snapshot root !! p = Some c0 ∧ (p, Some c) ∈ walk d ∧ c ≠ c0).
Proof.
  destruct (session_with_work_dir root w d) as (w1 & w2 & Hinit & Hdir & Hb & Ha).
  set (S := snapshot root) in *.
  eexists w1, w2, _, _, _. split; [exact Hinit|]. split; [exact Hdir|].
  split; [exact Hb|]. split; [apply get_changes_ok|].
  assert (∀ p, after w2 !! p
               = if bool_decide (p ∈ dom S ∧ exists_ d p = false) then None
                 else foldl (walk_step S) S (walk d) !! p) as Hlook.
  { intros p. rewrite Ha. apply lookup_after_work_dir. }
  rewrite Hb. split; [|split]; intros p.
  - rewrite elem_of_difference, not_elem_of_dom, Hlook.
    case_bool_decide as Hg; [tauto|]. split; [|tauto].
    intros [[c0 Hc0]%elem_of_dom Hnone].
    destruct (lookup_walk_fold_old S (walk d) p c0 Hc0) as (v & Hv & _).
    congruence.
  - rewrite elem_of_difference, elem_of_dom, not_elem_of_dom, Hlook. split.
    + intros [Hsome HS]. split; [done|].
      rewrite bool_decide_eq_false_2 in Hsome.
      2: { intros [Hin _]. by apply not_elem_of_dom in HS. }
      apply (lookup_walk_fold_new S S (walk d) p HS) in Hsome
        as [Hsome|Hsome]; [|done].
      rewrite HS in Hsome. by destruct Hsome.
    + intros (HS & Hdot & Hex). split; [|done].
      rewrite bool_decide_eq_false_2.
      2: { intros [Hin _]. by apply not_elem_of_dom in HS. }
      apply (lookup_walk_fold_new S S (walk d) p HS). by right.
  - rewrite elem_of_filter, elem_of_intersection, !elem_of_dom, Hlook. split.
    + intros (Hne & [c0 Hc0] & Hsome).
      case_bool_decide as Hg; [by destruct Hsome|].
      assert (exists_ d p = true) as Hex.
      { destruct (exists_ d p) eqn:He; [done|]. exfalso. apply Hg.
        split; [|done]. apply elem_of_dom. eauto. }
      split; [done|].
      destruct (lookup_walk_fold_old S (walk d) p c0 Hc0) as (v & Hv & Hiff).
      rewrite Hc0, Hv in Hne.
      destruct (proj1 Hiff) as (Hdot & c & Hin & Hc); [congruence|].
      split; [done|]. eauto.
    + intros (Hex & Hdot & c0 & c & Hc0 & Hin & Hc).
      rewrite bool_decide_eq_false_2 by (intros [_ H]; congruence).
      destruct (lookup_walk_fold_old S (walk d) p c0 Hc0) as (v & Hv & Hiff).
      rewrite Hc0, Hv. split; [|eauto].
      assert (v ≠ c0) as Hvc by (apply Hiff; eauto). congruence.
Qed.

(** X14.  A file that [get_all_files] recorded with the marker and for
    which [exists()] is false - [process_claude_request] writes no file for a
    marker - is reported as deleted: the patch holds its block with the
    marker as the one content line. *)
Theorem missing_binary_file_is_reported_deleted (root : list ContentFile)
    (w : world) (d : work_dir) (p : str) :
  snapshot root !! p = Some BINARY → exists_ d p = false →
  ∃ w1 w2 pre post,
    initialize_tracking root w = Ok () w1 ∧
    track_work_dir d w1 = Ok () w2 ∧
    generate_patch_lines w2
    = Ok (pre ++ [Py.lit "--- a/" ++ p; Py.lit "+++ /dev/null";
                  Py.lit "-[Binary file]"; []] ++ post) w2.
Proof.
  intros HS Hex.
  destruct (session_with_work_dir root w d) as (w1 & w2 & Hinit & Hdir & Hb & Ha).
  assert (after w2 !! p = None) as Hnone.
  { rewrite Ha, lookup_after_work_dir.
    rewrite bool_decide_eq_true_2; [done|]. split; [|done].
    apply elem_of_dom. eauto. }
  destruct (deleted_block_in_patch (before w2) (after w2) p BINARY)
    as (pre & post & Hp).
  { by rewrite Hb. }
  { by apply not_elem_of_dom. }
  exists w1, w2, pre, post. split; [done|]. split; [done|].
  rewrite generate_patch_lines_ok, Hp. reflexivity.
Qed.

(** X15.  No false report: when every file of the listing exists and
    every visited file either cannot be read, or starts with a dot, or holds
    the content that the listing has for its path, the patch is empty. *)
Theorem untouched_work_dir_gives_empty_patch (root : list ContentFile)
    (w : world) (d : work_dir) :
  (∀ p, p ∈ dom (snapshot root) → exists_ d p = true) →
  (∀ p c, (p, Some c) ∈ walk d →
          startswith_dot p = true ∨ snapshot root !! p = Some c) →
  ∃ w1 w2,
    initialize_tracking root w = Ok () w1 ∧
    track_work_dir d w1 = Ok () w2 ∧
    after w2 = before w2 ∧
    generate_patch w2 = Ok [] w2.
Proof.
  intros Hexists Hwalk.
  destruct (session_with_work_dir root w d) as (w1 & w2 & Hinit & Hdir & Hb & Ha).
  set (S := snapshot root) in *.
  assert (after w2 = before w2) as Heq.
  { rewrite Hb. apply map_eq. intros p.
    rewrite Ha, lookup_after_work_dir.
    rewrite bool_decide_eq_false_2.
    2: { intros [Hin He]. rewrite (Hexists p Hin) in He. discriminate. }
    destruct (S !! p) as [c0|] eqn:HS.
    - destruct (lookup_walk_fold_old S (walk d) p c0 HS) as (v & Hv & Hiff).
      rewrite Hv. f_equal. destruct (decide (v = c0)) as [|Hne]; [done|].
      destruct (proj1 Hiff Hne) as (Hdot & c & Hin & Hc).
      destruct (Hwalk p c Hin) as [?|?]; congruence.
    - apply eq_None_not_Some. intros Hsome.
      apply (lookup_walk_fold_new S S (walk d) p HS) in Hsome
        as [Hsome|(Hdot & c & Hin)].
      + rewrite HS in Hsome. by destruct Hsome.
      + destruct (Hwalk p c Hin) as [?|?]; congruence. }
  exists w1, w2. split; [done|]. split; [done|]. split; [done|].
  by apply same_snapshots_empty_result.
Qed.

(** * The matching blocks of [difflib] *)

Module difflib_blocks.
Import difflib.

Lemma chain_b_fold_sound (b : list str) (l : list (Z * str)) :
  ∀ m : gmap str (list Z),
  Forall (λ p, item b p.1 = p.2) l → b2j_sound b m →
  b2j_sound b
    (foldl (λ (b2j : gmap str (list Z)) '(i, elt),
              <[elt := default [] (b2j !! elt) ++ [i]]> b2j) m l).
Proof.
  induction l as [|[i elt] l IH]; intros m Hl Hm; simpl; [done|].
  apply Forall_cons in Hl as [Hi Hl]. simpl in Hi.
  apply IH; [done|].
  intros x js. rewrite lookup_insert. case_decide as Hx.
  - intros [= <-]. subst x. apply Forall_app. split; [|by constructor].
    destruct (m !! elt) as [js0|] eqn:Hjs; simpl; [by eapply Hm|constructor].
  - apply Hm.
Qed.

Lemma zip_seqZ_items (b : list str) :
  Forall (λ p : Z * str, item b p.1 = p.2) (zip (seqZ 0 (Z.of_nat (length b))) b).
Proof.
  apply Forall_forall. intros [i elt] Hin.
  apply list_elem_of_lookup in Hin as [k Hk].
  apply lookup_zip_with_Some in Hk as (i' & elt' & [= <- <-] & Hi & Helt).
  apply lookup_seqZ in Hi as [-> _]. simpl.
  unfold item. replace (Z.to_nat (0 + Z.of_nat k)) with k by lia.
  by apply list_lookup_total_correct.
Qed.

Lemma chain_b_sound (b : list str) : b2j_sound b (chain_b b).
Proof.
  unfold chain_b.
  pose proof (chain_b_fold_sound b _ ∅ (zip_seqZ_items b)) as H.
  cbv zeta. case_bool_decide; [|apply H; intros x js; by rewrite lookup_empty].
  match goal with
  | |- b2j_sound _ (set_fold _ ?m ?X) =>
      apply (set_fold_ind_L (λ (r : gmap str (list Z)) (_ : gset str),
                               b2j_sound b r))
  end.
  - apply H. intros x js. by rewrite lookup_empty.
  - intros elt X r _ Hr x js. rewrite lookup_delete_Some. intros [_ Hx].
    by eapply Hr.
Qed.

Lemma flm_row_sound (a b : list str) js :
  ∀ i blo bhi j2len newj2len best,
  Forall (λ j, item b j = item a i) js →
  row_sound a b (i - 1) j2len → row_sound a b i newj2len →
  is_match a b best →
  row_sound a b i (flm_row js i blo bhi j2len newj2len best).1 ∧
  is_match a b (flm_row js i blo bhi j2len newj2len best).2.
Proof.
  induction js as [|j js IH];
    intros i blo bhi j2len newj2len best Hjs Hold Hnew Hbest; simpl; [done|].
  apply Forall_cons in Hjs as [Hj Hjs].
  case_bool_decide as Hlo; [by apply IH|].
  case_bool_decide as Hhi; [done|].
  assert (∀ t, (0 ≤ t < default 0 (j2len !! (j - 1)%Z) + 1)%Z →
               item a (i - t) = item b (j - t)) as Hk.
  { intros t Ht. destruct (decide (t = 0%Z)) as [->|Hne].
    { by rewrite !Z.sub_0_r. }
    destruct (j2len !! (j - 1)%Z) as [k|] eqn:Hjk; simpl in Ht; [|lia].
    replace (i - t)%Z with (i - 1 - (t - 1))%Z by lia.
    replace (j - t)%Z with (j - 1 - (t - 1))%Z by lia.
    apply (Hold _ _ Hjk). lia. }
  apply IH; [done|done| |].
  - intros j' k'. rewrite lookup_insert. case_decide as Hjj; [|by apply Hnew].
    intros [= <-]. subst j'. exact Hk.
  - case_bool_decide; [|done]. intros t Ht. simpl in *.
    set (k := (default 0 (j2len !! (j - 1)%Z) + 1)%Z) in *.
    replace (i - k + 1 + t)%Z with (i - (k - 1 - t))%Z by lia.
    replace (j - k + 1 + t)%Z with (j - (k - 1 - t))%Z by lia.
    apply Hk. lia.
Qed.

Lemma flm_scan_sound (a b : list str) b2j alo ahi blo bhi :
  b2j_sound b b2j → is_match a b (flm_scan a b2j alo ahi blo bhi).
Proof.
  intros Hb2j. unfold flm_scan.
  assert (∀ n : nat,
    let r := foldl (λ '(j2len, best) i,
              flm_row (default [] (b2j !! item a i)) i blo bhi j2len ∅ best)
              (∅, (alo, blo, 0%Z)) (seqZ alo (Z.of_nat n)) in
    row_sound a b (alo + Z.of_nat n - 1) r.1 ∧ is_match a b r.2) as H.
  { induction n as [|n IH].
    - simpl. split; [intros j k; by rewrite lookup_empty|].
      intros t Ht. simpl in Ht. lia.
    - rewrite seqZ_S, foldl_snoc. simpl.
      destruct IH as [IH1 IH2].
      destruct (foldl _ _ (seqZ alo (Z.of_nat n))) as [j2len best]. simpl in *.
      replace (alo + Z.of_nat (S n) - 1)%Z with (alo + Z.of_nat n)%Z by lia.
      apply flm_row_sound; [| |intros j k; by rewrite lookup_empty|done].
      + destruct (b2j !! item a (alo + Z.of_nat n)%Z) as [js|] eqn:Hjs; simpl;
          [by eapply Hb2j|constructor].
      + done. }
  specialize (H (Z.to_nat (ahi - alo))). unfold seqZ in *.
  rewrite Nat2Z.id in H. apply H.
Qed.

(** [find_longest_match] returns a match inside the window. *)
Lemma find_longest_match_good (a b : list str) b2j alo ahi blo bhi :
  (alo ≤ ahi)%Z → (blo ≤ bhi)%Z → b2j_sound b b2j →
  ∃ m, find_longest_match a b b2j alo ahi blo bhi = Some m ∧
       in_window alo ahi blo bhi m ∧ is_match a b m.
Proof.
  intros Ha Hb Hb2j. unfold find_longest_match.
  pose proof (difflib_facts.flm_scan_in_window a b2j alo ahi blo bhi Ha Hb)
    as Hscan.
  pose proof (flm_scan_sound a b b2j alo ahi blo bhi Hb2j) as Hsound.
  set (best := flm_scan a b2j alo ahi blo bhi) in *.
  destruct (while_finishes
              (λ m, in_window alo ahi blo bhi m ∧ is_match a b m)
              (λ m, Z.to_nat (m.1.1 - alo))
              (λ '(besti, bestj, bestsize),
                 bool_decide (besti > alo)%Z && bool_decide (bestj > blo)%Z
                 && bool_decide (item a (besti - 1) = item b (bestj - 1)))
              (λ '(besti, bestj, bestsize),
                 Some (besti - 1, bestj - 1, bestsize + 1)%Z))
    with (fuel := Z.to_nat (best.1.1 - alo)) (s := best)
    as (m1 & Hrun1 & [Hm1 Hs1] & _); [|done|reflexivity|].
  { intros [[i j] k] [Hw Hm] Hc. eexists; split; [done|].
    rewrite !andb_true_iff, !bool_decide_eq_true in Hc.
    destruct Hc as [[Hi Hj] Heq].
    unfold in_window in *; simpl in *. split; [split; [lia|]|lia].
    intros t Ht. simpl in *. destruct (decide (t = 0%Z)) as [->|Hne].
    { by rewrite !Z.add_0_r. }
    replace (i - 1 + t)%Z with (i + (t - 1))%Z by lia.
    replace (j - 1 + t)%Z with (j + (t - 1))%Z by lia.
    apply Hm. simpl. lia. }
  rewrite Hrun1. simpl.
  destruct (while_finishes
              (λ m, in_window alo ahi blo bhi m ∧ is_match a b m)
              (λ m, Z.to_nat (ahi - (m.1.1 + m.2)))
              (λ '(besti, bestj, bestsize),
                 bool_decide (besti + bestsize < ahi)%Z
                 && bool_decide (bestj + bestsize < bhi)%Z
                 && bool_decide (item a (besti + bestsize)
                                 = item b (bestj + bestsize)))
              (λ '(besti, bestj, bestsize),
                 Some (besti, bestj, bestsize + 1)%Z))
    with (fuel := Z.to_nat (ahi - (m1.1.1 + m1.2))) (s := m1)
    as (m2 & Hrun2 & [Hm2 Hs2] & _); [|done|reflexivity|].
  { intros [[i j] k] [Hw Hm] Hc. eexists; split; [done|].
    rewrite !andb_true_iff, !bool_decide_eq_true in Hc.
    destruct Hc as [[Hi Hj] Heq].
    unfold in_window in *; simpl in *. split; [split; [lia|]|lia].
    intros t Ht. simpl in *. destruct (decide (t = k)) as [->|Hne]; [done|].
    apply Hm. simpl. lia. }
  rewrite Hrun2. eauto.
Qed.

Lemma pairwise_app {A} (R : A → A → Prop) (l1 l2 : list A) :
  pairwise R (l1 ++ l2)
  ↔ pairwise R l1 ∧ pairwise R l2 ∧ Forall (λ x, Forall (R x) l2) l1.
Proof.
  induction l1 as [|x l1 IH]; simpl.
  - split; [intros H; by repeat split|by intros (_ & H & _)].
  - rewrite Forall_app, IH, Forall_cons. tauto.
Qed.

Lemma pairwise_Permutation {A} (R : A → A → Prop) (l1 l2 : list A) :
  (∀ x y, R x y → R y x) → l1 ≡ₚ l2 → pairwise R l1 → pairwise R l2.
Proof.
  intros Hsym Hp. induction Hp as [|x l1 l2 Hp IH|x y l|l1 l2 l3 _ IH1 _ IH2];
    simpl.
  - done.
  - intros [H1 H2]. split; [by rewrite <- Hp|by apply IH].
  - rewrite !Forall_cons. intros [[Hyx Hy] [Hx Hl]]. by repeat split; auto.
  - auto.
Qed.

Lemma apart_sym x y : apart x y → apart y x.
Proof. unfold apart. tauto. Qed.

Lemma apart_inside w x y : apart w y → inside w x → apart x y.
Proof.
  destruct w as [[[alo ahi] blo] bhi], x as [[[alo' ahi'] blo'] bhi'],
    y as [[[alo2 ahi2] blo2] bhi2].
  unfold apart, lies_before, inside. lia.
Qed.

Ltac solve_windows :=
  simpl;
  repeat match goal with
         | |- _ ∧ _ => split
         | |- True => exact I
         | |- Forall _ [] => apply Forall_nil
         | |- Forall _ (_ :: _) => apply Forall_cons; split
         end;
  unfold apart, lies_before, inside, span, window_in; simpl; lia.

Lemma gmb_pairwise w rest m news :
  Forall (apart w) rest → pairwise apart rest →
  inside w (span m) → Forall (inside w) news →
  pairwise apart news → Forall (λ n, apart n (span m)) news →
  pairwise apart (news ++ rest ++ [span m]).
Proof.
  intros Hw Hrest Hm Hnews Hpw Hnm.
  apply pairwise_app. split; [done|]. split.
  - apply pairwise_app. split; [done|]. split; [by simpl|].
    eapply Forall_impl; [exact Hw|]. intros x Hx. constructor; [|constructor].
    apply apart_sym. eapply apart_inside; [|exact Hm]. by apply apart_sym.
  - apply Forall_forall. intros n Hn. apply Forall_app. split.
    + eapply Forall_impl; [exact Hw|]. intros x Hx.
      eapply apart_inside; [exact Hx|].
      by eapply (proj1 (Forall_forall _ _) Hnews).
    + constructor; [|constructor].
      by eapply (proj1 (Forall_forall _ _) Hnm).
Qed.

(** The loop of [get_matching_blocks] finishes with blocks that are matches
    of at least one element and pairwise apart. *)
Lemma get_matching_blocks_loop (a b : list str) :
  ∃ q blocks,
    Py.while (2 * length a + 1)
      (λ st : list (Z * Z * Z * Z) * list (Z * Z * Z),
         bool_decide (st.1 ≠ []))
      (gmb_body a b (chain_b b))
      ([(0, Z.of_nat (length a), 0, Z.of_nat (length b))%Z], [])
    = Some (q, blocks) ∧
    Forall (block_good a b) blocks ∧ pairwise apart (span <$> blocks).
Proof.
  destruct (while_finishes
    (λ st : list (Z * Z * Z * Z) * list (Z * Z * Z),
       gmb_inv a b st)
    (λ st, work st.1)
    (λ st : list (Z * Z * Z * Z) * list (Z * Z * Z), bool_decide (st.1 ≠ []))
    (gmb_body a b (chain_b b))) with
    (fuel := 2 * length a + 1)
    (s := ([(0, Z.of_nat (length a), 0, Z.of_nat (length b))%Z],
           @nil (Z * Z * Z))) as ([q mbs] & Hrun & (_ & Hgood & Hpw) & Hc).
  - intros [queue mbs] (Hq & Hgood & Hpw) Hc.
    apply bool_decide_eq_true in Hc. simpl in *.
    destruct queue as [|[[[alo ahi] blo] bhi] queue]; [done|].
    apply Forall_cons in Hq as [Hw Hq].
    destruct Hw as (Ha0 & Ha & Hala & Hb0 & Hb & Hblb).
    destruct (find_longest_match_good a b (chain_b b) alo ahi blo bhi Ha Hb
                (chain_b_sound b)) as ([[i j] k] & Hm & Hw & Hmatch).
    unfold gmb_body, gmb_inv. rewrite Hm. simpl.
    unfold in_window in Hw; simpl in Hw.
    simpl in Hpw. destruct Hpw as [Hwrest Hpw].
    case_bool_decide as Hk.
    2: { eexists; split; [done|]. simpl. split; [by repeat split|lia]. }
    eexists; split; [done|]. simpl.
    assert (block_good a b (i, j, k)) as Hblock.
    { split; [done|]. split; [simpl; lia|]. unfold in_window; simpl. lia. }
    assert (inside (alo, ahi, blo, bhi) (span (i, j, k))) as Hin.
    { unfold inside, span; simpl. lia. }
    rewrite fmap_app. simpl.
    destruct (bool_decide (i + k < ahi ∧ j + k < bhi)%Z) eqn:H1;
      destruct (bool_decide (alo < i ∧ blo < j)%Z) eqn:H2;
      try apply bool_decide_eq_true in H1; try apply bool_decide_eq_true in H2.
    + split; [split; [|split]|].
      * repeat (apply Forall_cons; split); [simpl; lia|simpl; lia|exact Hq].
      * apply Forall_app. split; [done|by constructor].
      * rewrite app_assoc.
        apply (gmb_pairwise (alo, ahi, blo, bhi) _ (i, j, k)
                 [(i + k, ahi, j + k, bhi)%Z; (alo, i, blo, j)]);
          [done|done|done|solve_windows|solve_windows|solve_windows].
      * cbn [work foldr]; fold (work queue); lia.
    + split; [split; [|split]|].
      * repeat (apply Forall_cons; split); [simpl; lia|exact Hq].
      * apply Forall_app. split; [done|by constructor].
      * rewrite app_assoc.
        apply (gmb_pairwise (alo, ahi, blo, bhi) _ (i, j, k)
                 [(i + k, ahi, j + k, bhi)%Z]);
          [done|done|done|solve_windows|solve_windows|solve_windows].
      * cbn [work foldr]; fold (work queue); lia.
    + split; [split; [|split]|].
      * repeat (apply Forall_cons; split); [simpl; lia|exact Hq].
      * apply Forall_app. split; [done|by constructor].
      * rewrite app_assoc.
        apply (gmb_pairwise (alo, ahi, blo, bhi) _ (i, j, k)
                 [(alo, i, blo, j)]);
          [done|done|done|solve_windows|solve_windows|solve_windows].
      * cbn [work foldr]; fold (work queue); lia.
    + split; [split; [|split]|].
      * exact Hq.
      * apply Forall_app. split; [done|by constructor].
      * rewrite app_assoc.
        apply (gmb_pairwise (alo, ahi, blo, bhi) _ (i, j, k) []);
          [done|done|done|solve_windows|solve_windows|solve_windows].
      * cbn [work foldr]; fold (work queue); lia.
  - split; [|split].
    + constructor; [simpl; lia|constructor].
    + constructor.
    + simpl. split; constructor.
  - cbn [work foldr fst]. lia.
  - apply bool_decide_eq_false in Hc. simpl in Hc.
    assert (q = []) as -> by (destruct q; [done|by destruct Hc]).
    simpl in Hpw. eauto.
Qed.

#[local] Instance block_le_total : Total block_le.
Proof.
  intros [[i1 j1] k1] [[i2 j2] k2]. unfold block_le, block_leb.
  destruct (Z.ltb_spec i1 i2), (Z.ltb_spec i2 i1), (Z.eqb_spec i1 i2),
    (Z.eqb_spec i2 i1), (Z.ltb_spec j1 j2), (Z.ltb_spec j2 j1),
    (Z.eqb_spec j1 j2), (Z.eqb_spec j2 j1); try lia; auto.
Qed.

Lemma block_le_first x y : block_le x y → (x.1.1 ≤ y.1.1)%Z.
Proof.
  destruct x as [[i1 j1] k1], y as [[i2 j2] k2]. unfold block_le, block_leb.
  simpl. destruct (Z.ltb_spec i1 i2), (Z.eqb_spec i1 i2); try lia; done.
Qed.

Lemma end_of_snoc p bl m :
  end_of p (bl ++ [m]) = (m.1.1 + m.2, m.1.2 + m.2)%Z.
Proof. unfold end_of. by rewrite foldl_snoc. Qed.

Lemma chain_weaken a b bl i j i' j' :
  (i' ≤ i)%Z → (j' ≤ j)%Z → chain a b i j bl → chain a b i' j' bl.
Proof. destruct bl as [|m bl]; simpl; [done|]. intros ? ? (? & ? & ?). split; [lia|done]. Qed.

Lemma chain_app a b l1 : ∀ i j l2,
  chain a b i j (l1 ++ l2)
  ↔ chain a b i j l1 ∧
    chain a b (end_of (i, j) l1).1 (end_of (i, j) l1).2 l2.
Proof.
  induction l1 as [|m l1 IH]; intros i j l2; simpl.
  - tauto.
  - rewrite IH. unfold end_of. simpl. tauto.
Qed.

(** Sorted blocks that are pairwise apart form a chain, up to the final
    block [(la, lb, 0)]. *)
Lemma sorted_chain (a b : list str) (l : list (Z * Z * Z)) : ∀ i0 j0,
  Sorted block_le l → pairwise apart (span <$> l) →
  Forall (block_good a b) l →
  match l with
  | [] => True
  | m :: _ => (i0 ≤ m.1.1 ∧ j0 ≤ m.1.2)%Z
  end →
  (i0 ≤ Z.of_nat (length a))%Z → (j0 ≤ Z.of_nat (length b))%Z →
  chain a b i0 j0 (l ++ [(Z.of_nat (length a), Z.of_nat (length b), 0%Z)]).
Proof.
  induction l as [|m l IH]; intros i0 j0 Hs Hpw Hgood Hhd Hi0 Hj0.
  - simpl. split; [lia|]. split; [|done]. intros t Ht. simpl in Ht. lia.
  - apply Sorted_inv in Hs as [Hs Hrel].
    simpl in Hpw. destruct Hpw as [Hm Hpw].
    apply Forall_cons in Hgood as [(Hmatch & Hk & Hw) Hgood].
    unfold in_window in Hw. simpl.
    split; [lia|]. split; [done|].
    apply IH; [done|done|done| |lia|lia].
    destruct l as [|m' l]; [done|].
    apply HdRel_inv in Hrel. apply block_le_first in Hrel.
    apply Forall_cons in Hm as [Hm _].
    apply Forall_cons in Hgood as [(_ & Hk' & _) _].
    destruct m as [[i j] k], m' as [[i' j'] k'].
    unfold apart, lies_before, span in Hm. simpl in *. lia.
Qed.

(** Merging adjacent blocks keeps the chain. *)
Lemma collapse_chain (a b : list str) (tail bl : list (Z * Z * Z)) :
  ∀ i1 j1 k1 non_adjacent,
  chain a b 0 0 non_adjacent →
  ((end_of (0, 0) non_adjacent).1 ≤ i1 ∧
   (end_of (0, 0) non_adjacent).2 ≤ j1 ∧ 0 ≤ k1 ∧
   i1 + k1 ≤ Z.of_nat (length a) ∧ j1 + k1 ≤ Z.of_nat (length b))%Z →
  is_match a b (i1, j1, k1) →
  chain a b (i1 + k1) (j1 + k1) (bl ++ tail) →
  chain a b 0 0
    ((let '(i1, j1, k1, non_adjacent) :=
        foldl (λ '(i1, j1, k1, non_adjacent) '(i2, j2, k2),
                 if bool_decide (i1 + k1 = i2 ∧ j1 + k1 = j2)%Z
                 then (i1, j1, k1 + k2, non_adjacent)%Z
                 else (i2, j2, k2,
                       if bool_decide (k1 ≠ 0)%Z
                       then non_adjacent ++ [(i1, j1, k1)] else non_adjacent))
              (i1, j1, k1, non_adjacent) bl in
      if bool_decide (k1 ≠ 0)%Z then non_adjacent ++ [(i1, j1, k1)]
      else non_adjacent) ++ tail).
Proof.
  induction bl as [|[[i2 j2] k2] bl IH];
    intros i1 j1 k1 na Hna Hend Hmatch Hrest.
  - simpl in *. case_bool_decide.
    + rewrite <- app_assoc. apply chain_app. split; [done|]. simpl.
      split; [lia|]. split; [done|done].
    + apply chain_app. split; [done|].
      eapply chain_weaken; [| |exact Hrest]; lia.
  - cbn [foldl]. simpl in Hrest.
    destruct Hrest as (Hb2 & Hm2 & Hrest). simpl in Hb2.
    case_bool_decide as Hadj.
    + apply IH; [done|lia| |].
      * intros t Ht. simpl in *.
        destruct (decide (t < k1)%Z) as [Hlt|Hge]; [apply Hmatch; simpl; lia|].
        replace (i1 + t)%Z with (i2 + (t - k1))%Z by lia.
        replace (j1 + t)%Z with (j2 + (t - k1))%Z by lia.
        apply Hm2. simpl. lia.
      * replace (i1 + (k1 + k2))%Z with (i2 + k2)%Z by lia.
        replace (j1 + (k1 + k2))%Z with (j2 + k2)%Z by lia. done.
    + apply IH; [| |done|done].
      * case_bool_decide; [|done]. apply chain_app. split; [done|]. simpl.
        split; [lia|]. split; [done|done].
      * case_bool_decide; [rewrite end_of_snoc; simpl; lia|lia].
Qed.

(** [get_matching_blocks] returns a chain of matches from [(0, 0)] that
    ends with the block [(len(a), len(b), 0)]. *)
Lemma get_matching_blocks_chain (a b : list str) :
  ∃ blocks,
    get_matching_blocks a b = Some blocks ∧
    chain a b 0 0 blocks ∧
    end_of (0, 0)%Z blocks = (Z.of_nat (length a), Z.of_nat (length b)).
Proof.
  unfold get_matching_blocks.
  destruct (get_matching_blocks_loop a b) as (q & blocks & -> & Hgood & Hpw).
  simpl. eexists. split; [done|].
  assert (merge_sort block_le blocks ≡ₚ blocks) as Hperm
    by apply merge_sort_Permutation.
  split.
  - unfold collapse.
    apply (collapse_chain a b
             [(Z.of_nat (length a), Z.of_nat (length b), 0%Z)]
             (merge_sort block_le blocks) 0 0 0 []).
    + done.
    + simpl. lia.
    + intros t Ht. simpl in Ht. lia.
    + simpl. assert (Forall (block_good a b) (merge_sort block_le blocks))
        as Hgood' by by rewrite Hperm.
      apply sorted_chain; [apply Sorted_merge_sort; apply _| |done| |lia|lia].
      * eapply pairwise_Permutation; [apply @apart_sym| |exact Hpw].
        by rewrite Hperm.
      * destruct (merge_sort block_le blocks) as [|m l]; [done|].
        apply Forall_cons in Hgood' as [(_ & _ & Hw) _].
        unfold in_window in Hw. lia.
  - rewrite end_of_snoc. simpl. f_equal; lia.
Qed.

Lemma get_opcodes_fold (a b : list str) (blocks : list (Z * Z * Z)) :
  ∀ i j (answer : list opcode),
  chain a b i j blocks → (0 ≤ i)%Z → (0 ≤ j)%Z →
  Exists (changed_opcode a b) answer
  ∨ (i = j ∧ ∀ t, (0 ≤ t < i)%Z → item a t = item b t) →
  let r :=
    foldl (λ '(i, j, answer) '(ai, bj, size),
             let answer :=
               if bool_decide (i < ai ∧ j < bj)%Z
               then answer ++ [(replace, i, ai, j, bj)]
               else if bool_decide (i < ai)%Z
               then answer ++ [(delete, i, ai, j, bj)]
               else if bool_decide (j < bj)%Z
               then answer ++ [(insert, i, ai, j, bj)]
               else answer in
             let '(i, j) := (ai + size, bj + size)%Z in
             let answer :=
               if bool_decide (size ≠ 0)%Z
               then answer ++ [(equal, ai, i, bj, j)] else answer in
             (i, j, answer))
          (i, j, answer) blocks in
  r.1 = end_of (i, j) blocks ∧
  (Exists (changed_opcode a b) r.2
   ∨ (r.1.1 = r.1.2 ∧ ∀ t, (0 ≤ t < r.1.1)%Z → item a t = item b t)).
Proof.
  induction blocks as [|[[ai bj] size] blocks IH];
    intros i j answer Hchain Hi Hj Hinv.
  - simpl. by split.
  - simpl in Hchain. destruct Hchain as (Hb & Hmatch & Hchain).
    simpl in Hb. cbn [foldl]. unfold end_of. cbn [foldl]. fold (end_of (ai + size, bj + size)%Z blocks).
    cbv zeta. cbn [fst snd].
    apply IH; [done|lia|lia|].
    set (answer1 := if bool_decide (i < ai ∧ j < bj)%Z then _ else _).
    assert (Exists (changed_opcode a b) answer1
            ∨ (ai = bj ∧ ∀ t, (0 ≤ t < ai)%Z → item a t = item b t)) as Hone.
    { subst answer1. repeat case_bool_decide.
      - left. apply Exists_app. right. constructor. simpl. lia.
      - left. apply Exists_app. right. constructor. simpl. lia.
      - left. apply Exists_app. right. constructor. simpl. lia.
      - destruct Hinv as [Hex|[Hij Hpre]]; [by left|right].
        assert (ai = i) as -> by lia. assert (bj = j) as -> by lia. done. }
    clearbody answer1.
    destruct Hone as [Hex|[Hab Hpre]].
    + left. case_bool_decide; [|done]. apply Exists_app. by left.
    + right. split; [lia|]. intros t Ht.
      destruct (decide (t < ai)%Z) as [Hlt|Hge]; [apply Hpre; lia|].
      subst bj. replace t with (ai + (t - ai))%Z by lia.
      apply (Hmatch (t - ai)%Z). simpl. lia.
Qed.

Lemma items_eq (a b : list str) :
  length a = length b →
  (∀ t, (0 ≤ t < Z.of_nat (length a))%Z → item a t = item b t) → a = b.
Proof.
  intros Hlen Hitems. apply list_eq. intros n.
  destruct (decide (n < length a)) as [Hlt|Hge].
  - rewrite (list_lookup_lookup_total_lt a n Hlt).
    rewrite (list_lookup_lookup_total_lt b n) by lia.
    f_equal. specialize (Hitems (Z.of_nat n)). unfold item in Hitems.
    rewrite Nat2Z.id in Hitems. apply Hitems. lia.
  - rewrite !lookup_ge_None_2 by lia. done.
Qed.

(** Different sequences have an opcode that stands for a change. *)
Lemma get_opcodes_changed (a b : list str) :
  a ≠ b →
  ∃ codes, get_opcodes a b = Some codes ∧ Exists (changed_opcode a b) codes.
Proof.
  intros Hne. unfold get_opcodes.
  destruct (get_matching_blocks_chain a b) as (blocks & -> & Hchain & Hend).
  simpl. eexists. split; [done|].
  destruct (get_opcodes_fold a b blocks 0 0 [] Hchain) as [Heq Hinv];
    [lia|lia| |].
  { right. split; [done|]. intros t Ht. lia. }
  cbv zeta in Heq, Hinv. rewrite Hend in Heq.
  destruct Hinv as [Hex|[Hij Hpre]]; [done|].
  exfalso. apply Hne. rewrite Heq in Hij, Hpre. simpl in Hij, Hpre.
  apply items_eq; [lia|done].
Qed.

Lemma on_first_keeps (f : opcode → opcode) (codes : list opcode) c :
  c ∈ codes → f c = c → c ∈ on_first f codes.
Proof.
  destruct codes as [|c0 codes]; simpl; [done|]. rewrite !elem_of_cons.
  intros [->|Hin] Hf; [left; by rewrite Hf|by right].
Qed.

Lemma on_last_keeps (f : opcode → opcode) (codes : list opcode) c :
  c ∈ codes → f c = c → c ∈ on_last f codes.
Proof.
  intros Hin Hf. unfold on_last. apply elem_of_reverse, on_first_keeps; [|done].
  by apply elem_of_reverse.
Qed.

Lemma changed_not_equal (a b : list str) (c : opcode) :
  changed_opcode a b c → c.1.1.1.1 ≠ equal.
Proof. destruct c as [[[[tag i1] i2] j1] j2]. simpl. by destruct tag. Qed.

Lemma grouped_fold (n : Z) (c : opcode) (codes : list opcode) :
  ∀ (yielded : list (list opcode)) (group : list opcode),
  c.1.1.1.1 ≠ equal →
  c ∈ codes ∨ c ∈ group ∨ (∃ g, g ∈ yielded ∧ c ∈ g) →
  let r :=
    foldl (λ '(yielded, group) '(tag, i1, i2, j1, j2),
             if bool_decide (tag = equal) && bool_decide (i2 - i1 > n + n)%Z then
               let group :=
                 group ++ [(tag, i1, Z.min i2 (i1 + n), j1, Z.min j2 (j1 + n))] in
               let yielded := yielded ++ [group] in
               let '(i1, j1) := (Z.max i1 (i2 - n), Z.max j1 (j2 - n)) in
               (yielded, [(tag, i1, i2, j1, j2)])
             else (yielded, group ++ [(tag, i1, i2, j1, j2)]))
          (yielded, group) codes in
  c ∈ r.2 ∨ ∃ g, g ∈ r.1 ∧ c ∈ g.
Proof.
  induction codes as [|[[[[tag i1] i2] j1] j2] codes IH];
    intros yielded group Hc H.
  - simpl. destruct H as [H|H]; [by apply elem_of_nil in H|done].
  - cbn [foldl].
    destruct (bool_decide (tag = equal) && bool_decide (i2 - i1 > n + n)%Z)
      eqn:Hsplit.
    + apply andb_true_iff in Hsplit as [Htag _].
      apply bool_decide_eq_true in Htag. subst tag.
      apply IH; [done|].
      destruct H as [H|[H|(g & Hg & H)]].
      * apply elem_of_cons in H as [->|H]; [done|by left].
      * right. right. eexists. split; [apply elem_of_app; right; by left|].
        apply elem_of_app. by left.
      * right. right. exists g. split; [apply elem_of_app; by left|done].
    + apply IH; [done|].
      destruct H as [H|[H|(g & Hg & H)]].
      * apply elem_of_cons in H as [->|H]; [|by left].
        right. left. apply elem_of_app. right. by left.
      * right. left. apply elem_of_app. by left.
      * right. right. by exists g.
Qed.

(** The opcode of a change is in one of the groups. *)
Lemma get_grouped_opcodes_changed (a b : list str) (n : Z) :
  a ≠ b →
  ∃ groups, get_grouped_opcodes a b n = Some groups ∧
    ∃ g c, g ∈ groups ∧ c ∈ g ∧ changed_opcode a b c.
Proof.
  intros Hne. unfold get_grouped_opcodes.
  destruct (get_opcodes_changed a b Hne) as (codes & -> & Hex).
  apply Exists_exists in Hex as (c & Hin & Hc).
  pose proof (changed_not_equal a b c Hc) as Htag.
  destruct codes as [|c0 codes]; [by apply elem_of_nil in Hin|].
  cbn [mbind option_bind]. cbv beta iota zeta.
  match goal with
  | |- context [foldl ?F ([], []) ?l] =>
      pose proof (grouped_fold n c l [] [] Htag) as Hfold;
      destruct (foldl F ([], []) l) as [yielded group] eqn:Hrun
  end.
  cbv beta iota zeta in Hfold.
  match type of Hfold with
  | ?A ∨ _ → _ => assert A as Hlast
  end.
  { apply on_last_keeps; [apply on_first_keeps; [done|]|];
      destruct c as [[[[tag i1] i2] j1] j2]; simpl in Htag;
      by rewrite bool_decide_eq_false_2. }
  specialize (Hfold (or_introl Hlast)). simpl in Hfold.
  destruct Hfold as [Hg|(g & Hg & Hcg)].
  - eexists. split; [done|]. exists group, c.
    split; [|done].
    destruct group as [|[[[[tag i1] i2] j1] j2] [|x l]].
    + by apply elem_of_nil in Hg.
    + apply list_elem_of_singleton in Hg. subst c. simpl in Htag.
      destruct tag; try done; apply elem_of_app; right; by left.
    + destruct tag; apply elem_of_app; right; by left.
  - eexists. split; [done|]. exists g, c. split; [|done].
    destruct group as [|[[[[tag i1] i2] j1] j2] [|x l]]; [done| |].
    + destruct tag; try done; apply elem_of_app; by left.
    + destruct tag; apply elem_of_app; by left.
Qed.

Lemma slice_head (a : list str) (i1 i2 : Z) :
  (0 ≤ i1 ∧ i1 < i2 ∧ i2 ≤ Z.of_nat (length a))%Z →
  ∃ line, line ∈ a ∧ line ∈ slice a i1 i2.
Proof.
  intros H. destruct (lookup_lt_is_Some_2 a (Z.to_nat i1)) as [line Hl]; [lia|].
  exists line. split; [by eapply list_elem_of_lookup_2|].
  unfold slice. apply (list_elem_of_lookup_2 _ 0).
  rewrite lookup_take_lt by lia. rewrite lookup_drop.
  by rewrite Nat.add_0_r.
Qed.

(** The hunk of a group with the opcode of a change has a line of [a]
    behind ['-'] or a line of [b] behind ['+']. *)
Lemma hunk_changed_line (a b : list str) lineterm (g : list opcode) c :
  c ∈ g → changed_opcode a b c →
  ∃ line, (line ∈ a ∧ (45%N :: line) ∈ hunk a b lineterm g)
          ∨ (line ∈ b ∧ (43%N :: line) ∈ hunk a b lineterm g).
Proof.
  intros Hin Hc. unfold hunk.
  destruct (default _ (head g)) as [[[[? first1] ?] first3] ?].
  destruct (default _ (last g)) as [[[[? ?] last2] ?] last4].
  assert (∀ l (f : opcode → list str), l ∈ f c → l ∈ concat (f <$> g))
    as Hconcat.
  { intros l f Hl. apply list_elem_of_In, in_concat. exists (f c).
    split; apply list_elem_of_In; [by apply list_elem_of_fmap_2|done]. }
  destruct c as [[[[tag i1] i2] j1] j2]. simpl in Hc.
  destruct tag; [| | |done].
  - destruct (slice_head a i1 i2 Hc) as (line & Ha & Hs).
    exists line. left. split; [done|]. apply elem_of_cons. right.
    apply Hconcat. cbv beta iota.
    rewrite bool_decide_eq_true_2 by by left.
    apply elem_of_app. left.
    apply (list_elem_of_fmap_2 (λ line, Py.lit "-" ++ line)) in Hs. exact Hs.
  - destruct (slice_head a i1 i2 Hc) as (line & Ha & Hs).
    exists line. left. split; [done|]. apply elem_of_cons. right.
    apply Hconcat. cbv beta iota.
    rewrite bool_decide_eq_true_2 by by right.
    apply elem_of_app. left.
    apply (list_elem_of_fmap_2 (λ line, Py.lit "-" ++ line)) in Hs. exact Hs.
  - destruct (slice_head b j1 j2 Hc) as (line & Hb & Hs).
    exists line. right. split; [done|]. apply elem_of_cons. right.
    apply Hconcat. cbv beta iota.
    rewrite (bool_decide_eq_true_2 (insert = replace ∨ insert = insert))
      by by right.
    apply elem_of_app. right.
    apply (list_elem_of_fmap_2 (λ line, Py.lit "+" ++ line)) in Hs. exact Hs.
Qed.

(** The unified diff of different sequences: the two file headers, a hunk
    header, and among the lines after it a line of [a] behind ['-'] or a
    line of [b] behind ['+']. *)
Lemma unified_diff_changed (a b : list str) (n : Z) (lineterm : str) :
  a ≠ b →
  ∃ h rest,
    unified_diff a b n lineterm
    = Some ([Py.lit "--- " ++ lineterm; Py.lit "+++ " ++ lineterm;
             Py.lit "@@ -" ++ h] ++ rest) ∧
    ∃ line, (line ∈ a ∧ (45%N :: line) ∈ rest)
            ∨ (line ∈ b ∧ (43%N :: line) ∈ rest).
Proof.
  intros Hne. unfold unified_diff.
  destruct (get_grouped_opcodes_changed a b n Hne)
    as (groups & -> & g & c & Hg & Hcg & Hc).
  cbn [mbind option_bind].
  destruct (hunk_changed_line a b lineterm g c Hcg Hc) as (line & Hline).
  assert (∀ l, l ∈ hunk a b lineterm g →
               l ∈ concat (hunk a b lineterm <$> groups)) as Hall.
  { intros l Hl. apply list_elem_of_In, in_concat. exists (hunk a b lineterm g).
    split; apply list_elem_of_In; [by apply list_elem_of_fmap_2|done]. }
  destruct groups as [|g1 groups]; [by apply elem_of_nil in Hg|].
  cbn [fmap list_fmap concat] in *.
  assert (∃ h body, hunk a b lineterm g1 = (Py.lit "@@ -" ++ h) :: body)
    as (h & body & Hhunk).
  { unfold hunk.
    destruct (default _ (head g1)) as [[[[? first1] ?] first3] ?].
    destruct (default _ (last g1)) as [[[[? ?] last2] ?] last4].
    eexists _, _. reflexivity. }
  rewrite Hhunk in *. exists h. eexists. split; [reflexivity|].
  exists line.
  destruct Hline as [[Ha Hl]|[Hb Hl]]; [left|right]; (split; [done|]);
    apply Hall in Hl; cbn [app] in Hl;
    apply elem_of_cons in Hl as [Hl|Hl]; done.
Qed.

End difflib_blocks.

Lemma concat_splitlines_from n : ∀ s acc,
  length s ≤ n → concat (Py.splitlines_from acc s) = acc ++ s.
Proof.
  induction n as [|n IH]; intros s acc Hn.
  - destruct s; [|simpl in Hn; lia]. simpl.
    destruct acc; simpl; by rewrite ?app_nil_r.
  - destruct s as [|c rest]; simpl.
    { destruct acc; simpl; by rewrite ?app_nil_r. }
    simpl in Hn.
    assert (concat ((acc ++ [c]) :: Py.splitlines_from [] rest)
            = acc ++ c :: rest) as Hone.
    { simpl. rewrite IH by lia. by rewrite <- app_assoc. }
    destruct (Py.is_linebreak c).
    + destruct (c =? Py.CR)%N; [|exact Hone].
      destruct rest as [|c' rest']; [exact Hone|].
      destruct (c' =? Py.LF)%N; [|exact Hone].
      simpl. rewrite IH by (simpl in Hn; lia). by rewrite <- app_assoc.
    + rewrite IH by lia. by rewrite <- app_assoc.
Qed.

(** The lines of [splitlines(keepends=True)] put together are the text. *)
Lemma concat_splitlines_keepends (s : str) :
  concat (Py.splitlines_keepends s) = s.
Proof. apply (concat_splitlines_from (length s)). lia. Qed.

(** X16.  A modified path always shows a change: its block in the lines
    that [generate_patch] joins has, after the two headers, a hunk header
    and then, before the separator, at least one line of the old content
    behind ['-'] or one line of the new content behind ['+']. *)
Theorem modified_block_shows_a_change (w : world) (p original new : str) :
  before w !! p = Some original → after w !! p = Some new → original ≠ new →
  ∃ pre h body post,
    generate_patch_lines w
    = Ok (pre ++ [Py.lit "--- a/" ++ p; Py.lit "+++ b/" ++ p;
                  Py.lit "@@ -" ++ h] ++ body ++ [[]] ++ post) w ∧
    ∃ line,
      (line ∈ Py.splitlines_keepends original ∧ (45%N :: line) ∈ body)
      ∨ (line ∈ Py.splitlines_keepends new ∧ (43%N :: line) ∈ body).
Proof.
  intros Hb Ha Hne.
  assert (Py.splitlines_keepends original ≠ Py.splitlines_keepends new)
    as Hlines.
  { intros Heq. apply Hne.
    rewrite <- (concat_splitlines_keepends original),
      <- (concat_splitlines_keepends new). by rewrite Heq. }
  destruct (difflib_blocks.unified_diff_changed _ _ 3 [] Hlines)
    as (h & body & Hdiff & Hline).
  destruct (modified_block_in_patch (before w) (after w) p original new _
              Hb Ha Hne Hdiff) as (pre & post & Hblocks).
  exists pre, h, body, post. split; [|exact Hline].
  rewrite generate_patch_lines_ok, Hblocks. unfold modified_block.
  cbn [app drop]. by rewrite <- !app_assoc.
Qed.

(** * A sequence against itself has no difference *)

Module difflib_same.
Import difflib.

Lemma chain_b_fold_exact (l : list (Z * str)) :
  ∀ (m : gmap str (list Z)) x,
  default [] (foldl (λ (b2j : gmap str (list Z)) '(i, elt),
                       <[elt := default [] (b2j !! elt) ++ [i]]> b2j) m l !! x)
  = default [] (m !! x) ++ (filter (λ p : Z * str, p.2 = x) l).*1.
Proof.
  induction l as [|[i elt] l IH]; intros m x; simpl.
  - by rewrite app_nil_r.
  - rewrite IH. rewrite filter_cons. simpl.
    destruct (decide (elt = x)) as [->|Hne].
    + rewrite lookup_insert_eq. simpl. by rewrite <- app_assoc.
    + by rewrite lookup_insert_ne.
Qed.

Lemma chain_b_lookup (b : list str) x js :
  chain_b b !! x = Some js → js = positions b x.
Proof.
  unfold chain_b. cbv zeta.
  set (b2j0 := foldl _ ∅ _).
  assert (∀ y ys, b2j0 !! y = Some ys → ys = positions b y) as H0.
  { intros y ys Hy.
    pose proof (chain_b_fold_exact (zip (seqZ 0 (Z.of_nat (length b))) b) ∅ y)
      as He.
    fold b2j0 in He. rewrite Hy, lookup_empty in He. exact He. }
  case_bool_decide; [|apply H0].
  match goal with
  | |- set_fold _ ?m ?X !! _ = _ → _ =>
      revert x js;
      apply (set_fold_ind_L (λ (r : gmap str (list Z)) (_ : gset str),
                               ∀ x js, r !! x = Some js → js = positions b x))
  end.
  - exact H0.
  - intros elt X r _ Hr x js. rewrite lookup_delete_Some. intros [_ Hx].
    by eapply Hr.
Qed.

Lemma elem_of_positions (b : list str) x (j : Z) :
  j ∈ positions b x ↔ (0 ≤ j < Z.of_nat (length b))%Z ∧ item b j = x.
Proof.
  unfold positions. rewrite list_elem_of_fmap. split.
  - intros ([j' y] & -> & Hin). apply list_elem_of_filter in Hin as [Hy Hin].
    simpl in *. subst y.
    apply list_elem_of_lookup in Hin as [k Hk].
    apply lookup_zip_with_Some in Hk as (i' & elt' & [= <- <-] & Hi & Helt).
    apply lookup_seqZ in Hi as [-> Hlt]. split; [lia|].
    unfold item. replace (Z.to_nat (0 + Z.of_nat k)) with k by lia.
    by apply list_lookup_total_correct.
  - intros [Hj Hx]. exists (j, x). split; [done|].
    apply list_elem_of_filter. split; [done|].
    apply (list_elem_of_lookup_2 _ (Z.to_nat j)).
    apply lookup_zip_with_Some. exists j, x. split; [done|]. split.
    + apply lookup_seqZ. lia.
    + unfold item in Hx. rewrite <- Hx.
      apply list_lookup_lookup_total_lt. lia.
Qed.

Lemma positions_sorted_from (P : Z * str → Prop) `{!∀ p, Decision (P p)}
    (l : list str) : ∀ m : Z,
  StronglySorted Z.lt (filter P (zip (seqZ m (Z.of_nat (length l))) l)).*1 ∧
  Forall (Z.le m) (filter P (zip (seqZ m (Z.of_nat (length l))) l)).*1.
Proof.
  induction l as [|e l IH]; intros m.
  - simpl. split; constructor.
  - replace (Z.of_nat (length (e :: l))) with (Z.succ (Z.of_nat (length l)))
      by (simpl; lia).
    rewrite seqZ_cons by lia. rewrite Z.pred_succ. cbn [zip zip_with].
    destruct (IH (Z.succ m)) as [IH1 IH2].
    rewrite filter_cons. destruct (decide (P (m, e))); simpl.
    + split.
      * constructor; [done|]. eapply Forall_impl; [exact IH2|]. simpl. lia.
      * constructor; [lia|]. eapply Forall_impl; [exact IH2|]. simpl. lia.
    + split; [done|]. eapply Forall_impl; [exact IH2|]. simpl. lia.
Qed.

Lemma positions_sorted (b : list str) x : StronglySorted Z.lt (positions b x).
Proof. apply (positions_sorted_from (λ p, p.2 = x) b 0). Qed.

Lemma run_nonneg b2j (a : list str) m : (0 ≤ run_length b2j a m)%Z.
Proof. induction m as [|m IH]; simpl; [lia|]. case_bool_decide; lia. Qed.

Lemma run_S b2j (a : list str) (j : Z) :
  (0 ≤ j)%Z → is_Some (b2j !! item a j) →
  run_length b2j a (Z.to_nat (j + 1)) = (run_length b2j a (Z.to_nat j) + 1)%Z.
Proof.
  intros Hj Hs. replace (Z.to_nat (j + 1)) with (S (Z.to_nat j)) by lia.
  simpl. rewrite Z2Nat.id by lia. by rewrite bool_decide_eq_true_2.
Qed.

Lemma run_succ b2j (a : list str) (m : nat) :
  is_Some (b2j !! item a (Z.of_nat m)) →
  run_length b2j a (S m) = (run_length b2j a m + 1)%Z.
Proof. intros Hs. simpl. by rewrite bool_decide_eq_true_2. Qed.

Lemma run_succ_0 b2j (a : list str) (m : nat) :
  ¬ is_Some (b2j !! item a (Z.of_nat m)) → run_length b2j a (S m) = 0%Z.
Proof. intros Hs. simpl. by rewrite bool_decide_eq_false_2. Qed.

#[local] Arguments run_length : simpl never.

(** One row of [find_longest_match] for a sequence against itself. *)
Lemma flm_row_diag (a : list str) (m : nat) (j2len : gmap Z Z)
    (js : list Z) (rem : list Z) :
  ∀ (done_ : list Z) (newj2len : gmap Z Z) (best : Z * Z * Z),
  is_Some (chain_b a !! item a (Z.of_nat m)) →
  js = done_ ++ rem → StronglySorted Z.lt js →
  (∀ j, j ∈ js ↔ (0 ≤ j < Z.of_nat (length a))%Z
                 ∧ item a j = item a (Z.of_nat m)) →
  row_diag a m j2len →
  (∀ j k, newj2len !! j = Some k →
          (0 ≤ j ∧ 1 ≤ k ∧ k ≤ run_length (chain_b a) a (Z.to_nat (j + 1))
           ∧ k ≤ run_length (chain_b a) a (S m))%Z) →
  (Z.of_nat m ∈ done_ →
   newj2len !! Z.of_nat m = Some (run_length (chain_b a) a (S m))) →
  best_diag a m best →
  (Z.of_nat m ∈ done_ → (run_length (chain_b a) a (S m) ≤ best.2)%Z) →
  Z.of_nat m ∈ js →
  let r := flm_row rem (Z.of_nat m) 0 (Z.of_nat (length a)) j2len newj2len
             best in
  row_diag a (S m) r.1 ∧ best_diag a (S m) r.2.
Proof.
  induction rem as [|j rem IH];
    intros done_ newj2len best Hpop Hjs Hsorted Hin [Hr1 Hr2] Hn1 Hn2
      [Hb1 Hb2] Hb3 Hi.
  - rewrite app_nil_r in Hjs. subst done_. simpl. split; split.
    + exact Hn1.
    + intros m' [= <-] _. by apply Hn2.
    + exact Hb1.
    + intros m' Hm'. destruct (decide (m' = S m)) as [->|Hne];
        [by apply Hb3|apply Hb2; lia].
  - assert (j ∈ js) as Hj by (rewrite Hjs; apply elem_of_app; right; by left).
    apply Hin in Hj as [Hjr Hja].
    cbn [flm_row]. cbv zeta.
    rewrite bool_decide_eq_false_2 by lia.
    rewrite bool_decide_eq_false_2 by lia.
    set (k := (default 0 (j2len !! (j - 1)%Z) + 1)%Z).
    assert (is_Some (chain_b a !! item a j)) as Hpopj by by rewrite Hja.
    pose proof (run_S (chain_b a) a j (proj1 Hjr) Hpopj) as HrunS.
    pose proof (run_nonneg (chain_b a) a (Z.to_nat j)) as Hnn.
    pose proof (run_nonneg (chain_b a) a m) as Hnm.
    assert (run_length (chain_b a) a (S m) = run_length (chain_b a) a m + 1)%Z as HrunM.
    { by apply run_succ. }
    assert (1 ≤ k ∧ k ≤ run_length (chain_b a) a (Z.to_nat (j + 1))
            ∧ k ≤ run_length (chain_b a) a (S m))%Z as Hk.
    { subst k. destruct (j2len !! (j - 1)%Z) as [k'|] eqn:Hk'; simpl; [|lia].
      apply Hr1 in Hk'. replace (j - 1 + 1)%Z with j in Hk' by lia. lia. }
    assert (j = Z.of_nat m → k = run_length (chain_b a) a (S m)) as Hdiag.
    { intros ->. subst k. rewrite HrunM. f_equal.
      destruct m as [|m'].
      - change (run_length (chain_b a) a 0) with 0%Z.
        destruct (j2len !! (Z.of_nat 0 - 1)%Z) as [k'|] eqn:Hk'; [|done].
        apply Hr1 in Hk'. lia.
      - replace (Z.of_nat (S m') - 1)%Z with (Z.of_nat m') by lia.
        destruct (decide (is_Some (chain_b a !! item a (Z.of_nat m'))))
          as [Hs|Hs].
        + by rewrite (Hr2 m' eq_refl Hs).
        + rewrite (run_succ_0 _ _ _ Hs).
          pose proof (run_succ_0 _ a m' Hs) as H0.
          destruct (j2len !! Z.of_nat m') as [k'|] eqn:Hk'; [|done].
          apply Hr1 in Hk'. lia. }
    assert (Z.of_nat m ∈ done_ ++ [j] →
            Z.of_nat m ∈ done_ ∨ j = Z.of_nat m) as Hdone.
    { rewrite elem_of_app, list_elem_of_singleton. intros [?|?]; auto. }
    assert ((j < Z.of_nat m)%Z ∨ j = Z.of_nat m ∨ Z.of_nat m ∈ done_)
      as Hcases.
    { destruct (Z.lt_trichotomy j (Z.of_nat m)) as [?|[?|Hgt]]; auto.
      right. right. rewrite Hjs in Hi.
      apply elem_of_app in Hi as [?|Hi]; [done|].
      apply elem_of_cons in Hi as [?|Hi]; [lia|].
      rewrite Hjs in Hsorted. apply StronglySorted_app_1_r in Hsorted.
      apply StronglySorted_inv in Hsorted as [_ Hall].
      rewrite Forall_forall in Hall. apply Hall in Hi. lia. }
    apply (IH (done_ ++ [j])); try done.
    + by rewrite <- app_assoc.
    + intros j' k'. rewrite lookup_insert. case_decide as Hjj; [|by apply Hn1].
      intros [= <-]. subst j'. lia.
    + intros Hm. rewrite lookup_insert. case_decide as Hjj.
      * f_equal. by apply Hdiag.
      * apply Hn2. apply Hdone in Hm as [?|?]; [done|congruence].
    + case_bool_decide as Hup; [|by split].
      assert (j = Z.of_nat m) as Hjm.
      { destruct Hcases as [Hlt|[?|Hd]]; [|done|].
        - specialize (Hb2 (Z.to_nat (j + 1))). lia.
        - specialize (Hb3 Hd). lia. }
      split; [simpl; lia|]. intros m' Hm'. simpl. specialize (Hb2 m' Hm'). lia.
    + intros Hm. case_bool_decide as Hup.
      * simpl. apply Hdone in Hm as [Hd|Hjm]; [specialize (Hb3 Hd); lia|].
        rewrite (Hdiag Hjm). lia.
      * apply Hdone in Hm as [Hd|Hjm]; [by apply Hb3|].
        rewrite <- (Hdiag Hjm). lia.
Qed.

(** The scan of [find_longest_match] for a sequence against itself ends
    with a match on the diagonal. *)
Lemma flm_scan_diag (a : list str) :
  (flm_scan a (chain_b a) 0 (Z.of_nat (length a)) 0 (Z.of_nat (length a))).1.1
  = (flm_scan a (chain_b a) 0 (Z.of_nat (length a)) 0
       (Z.of_nat (length a))).1.2.
Proof.
  unfold flm_scan.
  assert (∀ m : nat, m ≤ length a →
    let r := foldl (λ '(j2len, best) i,
              flm_row (default [] (chain_b a !! item a i)) i 0
                (Z.of_nat (length a)) j2len ∅ best)
              (∅, (0, 0, 0)%Z) (seqZ 0 (Z.of_nat m)) in
    row_diag a m r.1 ∧ best_diag a m r.2) as H.
  { induction m as [|m IH]; intros Hm.
    - simpl. split; split.
      + intros j k. by rewrite lookup_empty.
      + intros m' [=].
      + done.
      + intros m' Hm'. assert (m' = 0) as -> by lia. simpl. done.
    - rewrite seqZ_S, foldl_snoc. rewrite Z.add_0_l.
      destruct IH as [IH1 IH2]; [lia|].
      destruct (foldl _ _ (seqZ 0 (Z.of_nat m))) as [j2len best].
      cbn [fst snd] in *. cbv beta iota.
      destruct (chain_b a !! item a (Z.of_nat m)) as [js|] eqn:Hjs.
      + pose proof (chain_b_lookup a _ _ Hjs) as ->. cbn [default from_option id].
        apply (flm_row_diag a m j2len (positions a (item a (Z.of_nat m)))
                 (positions a (item a (Z.of_nat m))) [] ∅ best).
        * by rewrite Hjs.
        * done.
        * apply positions_sorted.
        * intros j. apply elem_of_positions.
        * done.
        * intros j k. by rewrite lookup_empty.
        * intros Hin. by apply elem_of_nil in Hin.
        * done.
        * intros Hin. by apply elem_of_nil in Hin.
        * apply elem_of_positions. split; [lia|done].
      + cbn [default from_option id flm_row fst snd].
        assert (¬ is_Some (chain_b a !! item a (Z.of_nat m))) as Hnone.
        { rewrite Hjs. by intros [? ?]. }
        split; split.
        * intros j k. by rewrite lookup_empty.
        * intros m' [= <-] Hs. done.
        * apply IH2.
        * intros m' Hm'. destruct (decide (m' = S m)) as [->|Hne].
          -- rewrite (run_succ_0 _ _ _ Hnone).
             destruct IH2 as [_ IH2]. apply (IH2 0). lia.
          -- destruct IH2 as [_ IH2]. apply IH2. lia. }
  specialize (H (length a) (le_n _)). cbv zeta in H.
  destruct H as [_ [H _]]. rewrite Z.sub_0_r. exact H.
Qed.

Lemma while_back (a : list str) : ∀ (fuel : nat) (d k : Z),
  (0 ≤ d)%Z → Z.to_nat d ≤ fuel →
  Py.while fuel
    (λ '(besti, bestj, bestsize),
       bool_decide (besti > 0)%Z && bool_decide (bestj > 0)%Z
       && bool_decide (item a (besti - 1) = item a (bestj - 1)))
    (λ '(besti, bestj, bestsize),
       Some (besti - 1, bestj - 1, bestsize + 1)%Z)
    (d, d, k)
  = Some (0, 0, k + d)%Z.
Proof.
  induction fuel as [|fuel IH]; intros d k Hd Hfuel.
  - assert (d = 0%Z) as -> by lia. simpl. by rewrite Z.add_0_r.
  - cbn [Py.while]. destruct (decide (d > 0)%Z) as [Hpos|Hzero].
    + rewrite bool_decide_eq_true_2 by done.
      rewrite bool_decide_eq_true_2 by done. cbn [andb mbind option_bind].
      rewrite IH by lia. do 2 f_equal. lia.
    + assert (d = 0%Z) as -> by lia. simpl. by rewrite Z.add_0_r.
Qed.

Lemma while_forth (a : list str) (n : Z) : ∀ (fuel : nat) (k : Z),
  (0 ≤ k ≤ n)%Z → Z.to_nat (n - k) ≤ fuel →
  Py.while fuel
    (λ '(besti, bestj, bestsize),
       bool_decide (besti + bestsize < n)%Z
       && bool_decide (bestj + bestsize < n)%Z
       && bool_decide (item a (besti + bestsize) = item a (bestj + bestsize)))
    (λ '(besti, bestj, bestsize), Some (besti, bestj, bestsize + 1)%Z)
    (0, 0, k)%Z
  = Some (0, 0, n)%Z.
Proof.
  induction fuel as [|fuel IH]; intros k Hk Hfuel.
  - assert (k = n) as -> by lia. simpl.
    by rewrite bool_decide_eq_false_2 by lia.
  - cbn [Py.while]. destruct (decide (k < n)%Z) as [Hlt|Hge].
    + rewrite bool_decide_eq_true_2 by lia.
      rewrite bool_decide_eq_true_2 by done. cbn [andb mbind option_bind].
      apply IH; lia.
    + assert (k = n) as -> by lia.
      by rewrite bool_decide_eq_false_2 by lia.
Qed.

(** The longest match of a sequence with itself is the whole sequence. *)
Lemma find_longest_match_same (a : list str) :
  find_longest_match a a (chain_b a) 0 (Z.of_nat (length a)) 0
    (Z.of_nat (length a))
  = Some (0, 0, Z.of_nat (length a))%Z.
Proof.
  unfold find_longest_match.
  pose proof (difflib_facts.flm_scan_in_window a (chain_b a) 0
                (Z.of_nat (length a)) 0 (Z.of_nat (length a))) as Hw.
  pose proof (flm_scan_diag a) as Hd.
  destruct (flm_scan a (chain_b a) 0 (Z.of_nat (length a)) 0
              (Z.of_nat (length a))) as [[d d'] k].
  simpl in Hd. subst d'.
  destruct Hw as (H1 & H2 & H3 & H4 & H5); [lia|lia|]. simpl in *.
  rewrite while_back by lia. cbn [mbind option_bind fst snd].
  apply while_forth; lia.
Qed.

(** The matching blocks of a sequence with itself: the whole sequence (when
    it is not empty) and the final block. *)
Lemma get_matching_blocks_same (a : list str) :
  get_matching_blocks a a
  = Some ((if bool_decide (Z.of_nat (length a) ≠ 0)%Z
           then [(0, 0, Z.of_nat (length a))%Z] else [])
          ++ [(Z.of_nat (length a), Z.of_nat (length a), 0%Z)]).
Proof.
  unfold get_matching_blocks. cbv zeta.
  replace (2 * length a + 1) with (S (2 * length a)) by lia.
  cbn [Py.while fst]. rewrite bool_decide_eq_true_2 by done.
  assert (gmb_body a a (chain_b a)
            ([(0, Z.of_nat (length a), 0, Z.of_nat (length a))%Z], [])
          = Some ([], if bool_decide (Z.of_nat (length a) ≠ 0)%Z
                      then [(0, 0, Z.of_nat (length a))%Z] else [])) as Hbody.
  { unfold gmb_body. rewrite find_longest_match_same.
    cbn [mbind option_bind].
    case_bool_decide; [|done].
    rewrite bool_decide_eq_false_2 by lia.
    by rewrite bool_decide_eq_false_2 by lia. }
  assert (∀ fuel (mbs : list (Z * Z * Z)),
            Py.while fuel
              (λ st : list (Z * Z * Z * Z) * list (Z * Z * Z),
                 bool_decide (st.1 ≠ []))
              (gmb_body a a (chain_b a)) ([], mbs) = Some ([], mbs)) as Hend.
  { intros fuel mbs.
    destruct fuel; reflexivity. }
  rewrite Hbody. cbn [mbind option_bind]. rewrite Hend.
  cbn [mbind option_bind]. do 2 f_equal.
  case_bool_decide as Hk; [|done].
  unfold collapse. cbn. rewrite bool_decide_eq_true_2 by done.
  by rewrite bool_decide_eq_true_2 by done.
Qed.

Ltac decide_conditions :=
  repeat match goal with
         | |- context [bool_decide ?P] =>
             first [ rewrite (bool_decide_eq_true_2 P) by (first [lia|done])
                   | rewrite (bool_decide_eq_false_2 P) by (first [lia|done]) ]
         end.

(** The opcodes of a sequence with itself: one [equal], or none for the
    empty sequence. *)
Lemma get_opcodes_same (a : list str) :
  get_opcodes a a
  = Some (if bool_decide (Z.of_nat (length a) ≠ 0)%Z
          then [(equal, 0, Z.of_nat (length a), 0, Z.of_nat (length a))%Z]
          else []).
Proof.
  unfold get_opcodes. rewrite get_matching_blocks_same.
  cbn [mbind option_bind]. f_equal.
  case_bool_decide as Hk; cbn [app foldl snd]; cbv beta iota zeta;
    decide_conditions; cbn [app snd]; by rewrite ?Z.add_0_l.
Qed.

(** The unified diff of a sequence with itself has no line. *)
Lemma unified_diff_same (a : list str) (lineterm : str) :
  unified_diff a a 3 lineterm = Some [].
Proof.
  unfold unified_diff, get_grouped_opcodes.
  rewrite get_opcodes_same. cbn [mbind option_bind].
  case_bool_decide as Hk; [|reflexivity].
  cbv beta iota zeta. cbn [on_first on_last reverse rev_append].
  decide_conditions. cbn [on_first rev_append foldl].
  decide_conditions. reflexivity.
Qed.

End difflib_same.

(** X17.  The body of the loop over the modified paths, run for a path of
    both mappings: between the two headers and the separator there is no
    line exactly when the two contents are equal. *)
Theorem modified_block_has_a_hunk_iff_content_differs (w : world)
    (patch_lines : list str) (p original new : str) :
  before w !! p = Some original → after w !! p = Some new →
  ∃ body,
    render_modified patch_lines p w
    = Ok (patch_lines ++ [Py.lit "--- a/" ++ p; Py.lit "+++ b/" ++ p]
          ++ body ++ [[]]) w ∧
    (body = [] ↔ original = new).
Proof.
  intros Hb Ha. destruct (decide (original = new)) as [<-|Hne].
  - exists []. split; [|done].
    rewrite (render_modified_ok w patch_lines p original original [] Hb Ha);
      [done|].
    unfold content_diff. apply difflib_same.unified_diff_same.
  - assert (Py.splitlines_keepends original ≠ Py.splitlines_keepends new)
      as Hlines.
    { intros Heq. apply Hne.
      rewrite <- (concat_splitlines_keepends original),
        <- (concat_splitlines_keepends new). by rewrite Heq. }
    destruct (difflib_blocks.unified_diff_changed _ _ 3 [] Hlines)
      as (h & rest & Hdiff & _).
    exists ((Py.lit "@@ -" ++ h) :: rest). split; [|done].
    by rewrite (render_modified_ok w patch_lines p original new _ Hb Ha Hdiff).
Qed.

(** * The further properties at concrete inputs *)

(** X2 at [listing_small] and the file in its directory. *)
Lemma snapshot_holds_the_file_of_listing_small :
  NoDup (files_of_list listing_small).*1 ∧
  (Py.lit "src/m.py", line_bytes "x = 1") ∈ files_of_list listing_small ∧
  snapshot listing_small !! Py.lit "src/m.py"
  = Some (match Py.decode (line_bytes "x = 1") with
          | Some text => text
          | None => BINARY
          end).
Proof.
  assert (NoDup (files_of_list listing_small).*1) as H1.
  { apply (bool_decide_unpack _). vm_compute. exact I. }
  assert ((Py.lit "src/m.py", line_bytes "x = 1") ∈ files_of_list listing_small)
    as H2.
  { apply elem_of_cons. right. apply elem_of_cons. left. reflexivity. }
  split; [exact H1|]. split; [exact H2|].
  exact (snapshot_holds_every_file listing_small (Py.lit "src/m.py")
           (line_bytes "x = 1") H1 H2).
Defined.

(** X7 at [world_blanks] and the deleted [f.txt]. *)
Lemma deleted_block_of_world_blanks :
  before world_blanks !! Py.lit "f.txt" = Some (line "a  ") ∧
  ∃ body,
    render_deleted [] (Py.lit "f.txt") world_blanks
    = Ok ([] ++ [Py.lit "--- a/" ++ Py.lit "f.txt"; Py.lit "+++ /dev/null"]
          ++ body ++ [[]]) world_blanks ∧
    length body = length (Py.splitlines_keepends (line "a  ")) ∧
    Forall (clean_line 45) body.
Proof.
  assert (before world_blanks !! Py.lit "f.txt" = Some (line "a  ")) as H.
  { vm_compute. reflexivity. }
  split; [exact H|].
  exact (deleted_block_lines_are_stripped world_blanks [] (Py.lit "f.txt")
           (line "a  ") H).
Defined.

(** X8 at [world_blanks] and the added [g.txt]. *)
Lemma added_block_of_world_blanks :
  after world_blanks !! Py.lit "g.txt" = Some (Py.lit "b" ++ [9%N; Py.LF]) ∧
  ∃ body,
    render_added [] (Py.lit "g.txt") world_blanks
    = Ok ([] ++ [Py.lit "--- /dev/null"; Py.lit "+++ b/" ++ Py.lit "g.txt"]
          ++ body ++ [[]]) world_blanks ∧
    length body = length (Py.splitlines_keepends (Py.lit "b" ++ [9%N; Py.LF])) ∧
    Forall (clean_line 43) body.
Proof.
  assert (after world_blanks !! Py.lit "g.txt"
          = Some (Py.lit "b" ++ [9%N; Py.LF])) as H.
  { vm_compute. reflexivity. }
  split; [exact H|].
  exact (added_block_lines_are_stripped world_blanks [] (Py.lit "g.txt")
           (Py.lit "b" ++ [9%N; Py.LF]) H).
Defined.

(** X9 at [world_modified] and [a.txt]. *)
Lemma modified_block_of_world_modified :
  before world_modified !! Py.lit "a.txt" = Some (line "hello") ∧
  after world_modified !! Py.lit "a.txt" = Some (line "hello" ++ line "world") ∧
  ∃ body,
    render_modified [] (Py.lit "a.txt") world_modified
    = Ok ([] ++ [Py.lit "--- a/" ++ Py.lit "a.txt";
                  Py.lit "+++ b/" ++ Py.lit "a.txt"]
          ++ body ++ [[]]) world_modified ∧
    Forall (diff_line (Py.splitlines_keepends (line "hello"))
                      (Py.splitlines_keepends (line "hello" ++ line "world")))
           body.
Proof.
  assert (before world_modified !! Py.lit "a.txt" = Some (line "hello")) as H1.
  { vm_compute. reflexivity. }
  assert (after world_modified !! Py.lit "a.txt"
          = Some (line "hello" ++ line "world")) as H2.
  { vm_compute. reflexivity. }
  split; [exact H1|]. split; [exact H2|].
  exact (modified_block_lines_are_verbatim world_modified [] (Py.lit "a.txt")
           (line "hello") (line "hello" ++ line "world") H1 H2).
Defined.

(** X14 at [listing_png1] and the work directory without its file. *)
Lemma missing_logo_is_reported_deleted :
  snapshot listing_png1 !! Py.lit "logo.png" = Some BINARY ∧
  exists_ dir_without_binary (Py.lit "logo.png") = false ∧
  ∃ w1 w2 pre post,
    initialize_tracking listing_png1 (__init__ ∅) = Ok () w1 ∧
    track_work_dir dir_without_binary w1 = Ok () w2 ∧
    generate_patch_lines w2
    = Ok (pre ++ [Py.lit "--- a/" ++ Py.lit "logo.png"; Py.lit "+++ /dev/null";
                  Py.lit "-[Binary file]"; []] ++ post) w2.
Proof.
  assert (snapshot listing_png1 !! Py.lit "logo.png" = Some BINARY) as H1.
  { vm_compute. reflexivity. }
  assert (exists_ dir_without_binary (Py.lit "logo.png") = false) as H2.
  { reflexivity. }
  split; [exact H1|]. split; [exact H2|].
  exact (missing_binary_file_is_reported_deleted listing_png1 (__init__ ∅)
           dir_without_binary (Py.lit "logo.png") H1 H2).
Defined.

Lemma snapshot_listing_small :
  snapshot listing_small
  = <[Py.lit "a.txt" := line "hello"]> (<[Py.lit "src/m.py" := line "x = 1"]> ∅).
Proof. vm_compute. reflexivity. Qed.

(** X15 at [listing_small] and the work directory [dir_untouched]. *)
Lemma untouched_listing_small_gives_empty_patch :
  (∀ p, p ∈ dom (snapshot listing_small) → exists_ dir_untouched p = true) ∧
  (∀ p c, (p, Some c) ∈ walk dir_untouched →
          startswith_dot p = true ∨ snapshot listing_small !! p = Some c) ∧
  ∃ w1 w2,
    initialize_tracking listing_small (__init__ ∅) = Ok () w1 ∧
    track_work_dir dir_untouched w1 = Ok () w2 ∧
    after w2 = before w2 ∧
    generate_patch w2 = Ok [] w2.
Proof.
  assert (∀ p, p ∈ dom (snapshot listing_small) →
               exists_ dir_untouched p = true) as H1.
  { intros p. rewrite snapshot_listing_small, !dom_insert_L, dom_empty_L.
    rewrite !elem_of_union, !elem_of_singleton, elem_of_empty.
    intros [->|[->|[]]]; vm_compute; reflexivity. }
  assert (∀ p c, (p, Some c) ∈ walk dir_untouched →
                 startswith_dot p = true
                 ∨ snapshot listing_small !! p = Some c) as H2.
  { intros p c. cbn [walk dir_untouched].
    rewrite !elem_of_cons, elem_of_nil.
    intros [H|[H|[H|[H|[]]]]]; simplify_eq.
    - right. vm_compute. reflexivity.
    - left. reflexivity.
    - right. vm_compute. reflexivity. }
  split; [exact H1|]. split; [exact H2|].
  exact (untouched_work_dir_gives_empty_patch listing_small (__init__ ∅)
           dir_untouched H1 H2).
Defined.

(** X16 at [world_modified] and [a.txt]. *)
Lemma modified_block_of_world_modified_shows_a_change :
  before world_modified !! Py.lit "a.txt" = Some (line "hello") ∧
  after world_modified !! Py.lit "a.txt" = Some (line "hello" ++ line "world") ∧
  line "hello" ≠ line "hello" ++ line "world" ∧
  ∃ pre h body post,
    generate_patch_lines world_modified
    = Ok (pre ++ [Py.lit "--- a/" ++ Py.lit "a.txt";
                  Py.lit "+++ b/" ++ Py.lit "a.txt";
                  Py.lit "@@ -" ++ h] ++ body ++ [[]] ++ post) world_modified ∧
    ∃ l,
      (l ∈ Py.splitlines_keepends (line "hello") ∧ (45%N :: l) ∈ body)
      ∨ (l ∈ Py.splitlines_keepends (line "hello" ++ line "world")
         ∧ (43%N :: l) ∈ body).
Proof.
  assert (before world_modified !! Py.lit "a.txt" = Some (line "hello")) as H1.
  { vm_compute. reflexivity. }
  assert (after world_modified !! Py.lit "a.txt"
          = Some (line "hello" ++ line "world")) as H2.
  { vm_compute. reflexivity. }
  assert (line "hello" ≠ line "hello" ++ line "world") as H3.
  { apply (bool_decide_unpack _). vm_compute. exact I. }
  split; [exact H1|]. split; [exact H2|]. split; [exact H3|].
  exact (modified_block_shows_a_change world_modified (Py.lit "a.txt")
           (line "hello") (line "hello" ++ line "world") H1 H2 H3).
Defined.

(** X17 at [world_modified] and [a.txt]. *)
Lemma modified_block_of_world_modified_has_a_hunk :
  before world_modified !! Py.lit "a.txt" = Some (line "hello") ∧
  after world_modified !! Py.lit "a.txt" = Some (line "hello" ++ line "world") ∧
  ∃ body,
    render_modified [] (Py.lit "a.txt") world_modified
    = Ok ([] ++ [Py.lit "--- a/" ++ Py.lit "a.txt";
                  Py.lit "+++ b/" ++ Py.lit "a.txt"]
          ++ body ++ [[]]) world_modified ∧
    (body = [] ↔ line "hello" = line "hello" ++ line "world").
Proof.
  assert (before world_modified !! Py.lit "a.txt" = Some (line "hello")) as H1.
  { vm_compute. reflexivity. }
  assert (after world_modified !! Py.lit "a.txt"
          = Some (line "hello" ++ line "world")) as H2.
  { vm_compute. reflexivity. }
  split; [exact H1|]. split; [exact H2|].
  exact (modified_block_has_a_hunk_iff_content_differs world_modified []
           (Py.lit "a.txt") (line "hello") (line "hello" ++ line "world")
           H1 H2).
Defined.
